(** * CPET data pipeline: cleaning, smoothing, key metrics, percentiles, AUC

    A shallow embedding of [src/hooks/useDataProcessor.ts] and of the row
    model of [src/types.ts], and the properties of its five stateless
    functions: [cleanAndInterpolateData], [applySmoothing],
    [calculateKeyMetricsForData], [extractPercentageDataForMetrics] and
    [calculateAuc]; of the two helpers [timeStringToSeconds] and
    [recalculateDerivedMetrics]; and of [estimateInitialThresholds] of
    [src/components/ThresholdAnalyzer.tsx].

    How the source is read:
    - A JavaScript [number] is an IEEE 754 binary64 value: Rocq's primitive
      [float].  [typeof v === 'number'] holds of every float, NaN and the
      infinities included.  The order of floats is reasoned about through the
      Standard Library's specification of the primitive comparisons.
    - A channel of a row is [number | null], or absent ([undefined]): [cell].
      So is the time in seconds of a row once the row has been copied through
      JSON; comparisons and arithmetic read it as a number ([timeInSeconds]).
    - Array indices, array lengths and the two counters of the cleaning
      statistics are exact integers in the source; they are [nat] and [Z].
    - The audit map [Map<string, AuditLogEntry>] is a [gmap string _] keyed
      by the string the source builds, [time ++ "-" ++ column].  The log the
      source returns is sorted with [localeCompare]; the model returns the
      same entries in the order of [map_to_list].
    - The [reason] of an audit entry is kept as data (stage number and the
      numbers the source prints), not as the printed sentence.
    - [stageData], a [slice] of [tempCleanedData], shares its row objects
      with it; the model passes the rows of the stage through the two passes
      and stores them back, as the final [splice] of the stage loop does.
    - A loop whose bound is a float runs the number of times given by
      [JS.loop_count]; a bound above 2^53 means the loop never ends and the
      function has no result ([None]).
    - A string is the list of its characters; [parseInt] and [split] are
      modelled on strings whose characters are below 256. *)

From Stdlib Require Import Ascii String ZArith Floats Lia List Sorted DecimalString.
From stdpp Require Import gmap strings list fin_maps.

Set Warnings "-inexact-float".

Local Open Scope Z_scope.
Local Open Scope nat_scope.

(** ** JavaScript numbers *)

Module JS.

(** [Number(n)] of an exact non-negative integer (array index or length). *)
Definition of_nat (n : nat) : float :=
  SF2Prim (binary_normalize prec emax (Z.of_nat n) 0 false).

(** [Math.min(a, b)]: NaN if either is NaN; [-0] is below [+0]. *)
Definition Math_min (a b : float) : float :=
  if (is_nan a || is_nan b)%bool then nan
  else if (a <? b)%float then a
  else if (b <? a)%float then b
  else if get_sign a then a else b.

(** [Math.max(a, b)]: NaN if either is NaN; [+0] is above [-0]. *)
Definition Math_max (a b : float) : float :=
  if (is_nan a || is_nan b)%bool then nan
  else if (b <? a)%float then a
  else if (a <? b)%float then b
  else if get_sign a then b else a.

(** [Math.max(...l)]: [-Infinity] on the empty list. *)
Definition Math_max_list (l : list float) : float :=
  fold_left Math_max l neg_infinity.

(** [Math.pow(x, 2)]: the square, [x * x]. *)
Definition Math_pow2 (x : float) : float := (x * x)%float.

(** The integer [ceil] of a finite float, read off its mantissa and
    exponent. *)
Definition ceilZ (x : float) : option Z :=
  match Prim2SF x with
  | S754_zero _ => Some 0%Z
  | S754_finite s m e =>
      let n := if s then Z.neg m else Z.pos m in
      Some (if (0 <=? e)%Z then n * 2 ^ e else - ((- n) / 2 ^ (- e)))%Z
  | _ => None
  end.

(** [Math.ceil(x)]: NaN, the infinities and the zeros are returned as they
    are; a negative value above [-1] gives [-0]. *)
Definition Math_ceil (x : float) : float :=
  match ceilZ x with
  | None => x
  | Some z =>
      if is_zero x then x
      else if (z =? 0)%Z then (if get_sign x then neg_zero else zero)
      else SF2Prim (binary_normalize prec emax z 0 false)
  end.

(** The number of times the body of [for (let i = 0; i < n; i++)] runs,
    for a bound [n] that is a float: none when [n] is NaN or not
    positive.  Beyond 2^53 the counter [i] stops growing ([i + 1 = i])
    and the loop never ends: [None]. *)
Definition loop_count (n : float) : option nat :=
  if (0 <? n)%float then
    match ceilZ n with
    | Some z => if (z <=? 2 ^ 53)%Z then Some (Z.to_nat z) else None
    | None => None
    end
  else Some 0.

(** What [JSON.parse(JSON.stringify(x))] gives back for a number: NaN and
    the infinities are written as [null] ([None]), [-0] is written as
    [0]. *)
Definition json_number (x : float) : option float :=
  if is_finite x then Some (if is_zero x then zero else x) else None.

End JS.

(** ** Rows *)

(** The value of a channel: [number | null], or the key is absent. *)
Inductive cell : Type :=
| Undefined
| Null
| Num (x : float).

(** [typeof c === 'number'], with the number. *)
Definition as_number (c : cell) : option float :=
  match c with Num x => Some x | _ => None end.

(** [c === null] *)
Definition is_null (c : cell) : bool :=
  match c with Null => true | _ => false end.

(** The arithmetic value of a cell ([ToNumber]). *)
Definition to_number (c : cell) : float :=
  match c with Num x => x | Null => zero | Undefined => nan end.

Definition json_cell (c : cell) : cell :=
  match c with
  | Num x => match JS.json_number x with Some y => Num y | None => Null end
  | _ => c
  end.

(** [OUTLIER_COLS]: the primary channels. *)
Inductive Col : Type := VO2 | VCO2 | VE | HR | VT | BF.

Definition OUTLIER_COLS : list Col := [VO2; VCO2; VE; HR; VT; BF].

Definition col_name (c : Col) : string :=
  match c with
  | VO2 => "V'O2" | VCO2 => "V'CO2" | VE => "V'E"
  | HR => "HR" | VT => "VT" | BF => "BF"
  end.

(** [ProcessedDataRow].  The field [timeInSeconds] ([rTimeInSeconds]) is
    typed [number]; it is held as a cell because a JSON copy of a row leaves
    [null] there when the number is NaN or infinite. *)
Record ProcessedDataRow : Type := mkRow {
  t : string;
  rTimeInSeconds : cell;
  rVO2 : cell;
  rVCO2 : cell;
  rVE : cell;
  rHR : cell;
  rVT : cell;
  rBF : cell;
  VO2_kg : cell;
  VO2_HR : cell;
  VE_VO2 : cell;
  VE_VCO2 : cell;
  RER : cell;
  VD_VT_est : cell;
  Load : cell;
  Marker : option string;
  VO2_pct_max : option string
}.

(** [row.timeInSeconds] where the source compares it or computes with it:
    the number the language reads there, which is 0 for [null]. *)
Definition timeInSeconds (r : ProcessedDataRow) : float :=
  to_number (rTimeInSeconds r).

(** [row[col]] *)
Definition get (c : Col) (r : ProcessedDataRow) : cell :=
  match c with
  | VO2 => rVO2 r | VCO2 => rVCO2 r | VE => rVE r
  | HR => rHR r | VT => rVT r | BF => rBF r
  end.

(** [row[col] = v] *)
Definition set (c : Col) (v : cell) (r : ProcessedDataRow) : ProcessedDataRow :=
  match c with
  | VO2 => mkRow (t r) (rTimeInSeconds r) v (rVCO2 r) (rVE r) (rHR r) (rVT r) (rBF r)
             (VO2_kg r) (VO2_HR r) (VE_VO2 r) (VE_VCO2 r) (RER r) (VD_VT_est r)
             (Load r) (Marker r) (VO2_pct_max r)
  | VCO2 => mkRow (t r) (rTimeInSeconds r) (rVO2 r) v (rVE r) (rHR r) (rVT r) (rBF r)
             (VO2_kg r) (VO2_HR r) (VE_VO2 r) (VE_VCO2 r) (RER r) (VD_VT_est r)
             (Load r) (Marker r) (VO2_pct_max r)
  | VE => mkRow (t r) (rTimeInSeconds r) (rVO2 r) (rVCO2 r) v (rHR r) (rVT r) (rBF r)
             (VO2_kg r) (VO2_HR r) (VE_VO2 r) (VE_VCO2 r) (RER r) (VD_VT_est r)
             (Load r) (Marker r) (VO2_pct_max r)
  | HR => mkRow (t r) (rTimeInSeconds r) (rVO2 r) (rVCO2 r) (rVE r) v (rVT r) (rBF r)
             (VO2_kg r) (VO2_HR r) (VE_VO2 r) (VE_VCO2 r) (RER r) (VD_VT_est r)
             (Load r) (Marker r) (VO2_pct_max r)
  | VT => mkRow (t r) (rTimeInSeconds r) (rVO2 r) (rVCO2 r) (rVE r) (rHR r) v (rBF r)
             (VO2_kg r) (VO2_HR r) (VE_VO2 r) (VE_VCO2 r) (RER r) (VD_VT_est r)
             (Load r) (Marker r) (VO2_pct_max r)
  | BF => mkRow (t r) (rTimeInSeconds r) (rVO2 r) (rVCO2 r) (rVE r) (rHR r) (rVT r) v
             (VO2_kg r) (VO2_HR r) (VE_VO2 r) (VE_VCO2 r) (RER r) (VD_VT_est r)
             (Load r) (Marker r) (VO2_pct_max r)
  end.

(** [JSON.parse(JSON.stringify(row))]: every number of the row, the time in
    seconds included, goes through [JSON.stringify]; strings and [null] are
    written as they are, and an absent key stays absent. *)
Definition json_row (r : ProcessedDataRow) : ProcessedDataRow :=
  mkRow (t r) (json_cell (rTimeInSeconds r))
    (json_cell (rVO2 r)) (json_cell (rVCO2 r)) (json_cell (rVE r))
    (json_cell (rHR r)) (json_cell (rVT r)) (json_cell (rBF r))
    (json_cell (VO2_kg r)) (json_cell (VO2_HR r)) (json_cell (VE_VO2 r))
    (json_cell (VE_VCO2 r)) (json_cell (RER r)) (json_cell (VD_VT_est r))
    (json_cell (Load r)) (Marker r) (VO2_pct_max r).

Definition json_copy (data : list ProcessedDataRow) : list ProcessedDataRow :=
  map json_row data.

(** ** Derived channels *)

Definition recalculateDerivedMetrics (row : ProcessedDataRow) (bodyWeight : float)
  : ProcessedDataRow :=
  let vo2 := rVO2 row in
  let vco2 := rVCO2 row in
  let ve := rVE row in
  let hr := rHR row in
  let vo2_kg :=
    match vo2 with
    | Num v => if (0 <? bodyWeight)%float then Num (v * 1000 / bodyWeight)%float else Null
    | _ => Null
    end in
  let vo2_hr :=
    match vo2, hr with
    | Num v, Num h => if (0 <? h)%float then Num (v * 1000 / h)%float else Null
    | _, _ => Null
    end in
  let ve_vo2 :=
    match ve, vo2 with
    | Num e, Num v => if (0 <? v)%float then Num (e / v)%float else Null
    | _, _ => Null
    end in
  let ve_vco2 :=
    match ve, vco2 with
    | Num e, Num c => if (0 <? c)%float then Num (e / c)%float else Null
    | _, _ => Null
    end in
  let rer_vd :=
    match vco2, vo2 with
    | Num c, Num v =>
        if (0 <? v)%float then
          let rer := (c / v)%float in
          (Num rer, Num (JS.Math_max 0 (0.25 * rer - 0.05)%float))
        else (Null, Null)
    | _, _ => (Null, Null)
    end in
  mkRow (t row) (rTimeInSeconds row)
    (rVO2 row) (rVCO2 row) (rVE row) (rHR row) (rVT row) (rBF row)
    vo2_kg vo2_hr ve_vo2 ve_vco2 (fst rer_vd) (snd rer_vd)
    (Load row) (Marker row) (VO2_pct_max row).

(** ** Cleaning: outlier detection and gap interpolation *)

Inductive Action : Type := REMOVED | INTERPOLATED.

(** The [reason] of an audit entry.  The source renders it as a sentence
    holding the 1-based stage number and, with [toFixed], the numbers below;
    the model keeps the stage number and the numbers. *)
Inductive Reason : Type :=
| ThreeSD (stage : nat) (mean stdDev : float)
| HROutOfRange (stage : nat)
| HRSpike (stage : nat) (hrIncrease : float).

(** [AuditLogEntry] *)
Record AuditLogEntry : Type := mkEntry {
  time : string;
  column : string;
  originalValue : float;
  reason : Reason;
  action : Action;
  newValue : option float
}.

(** [CleaningStats] *)
Record CleaningStats : Type := mkStats {
  stats_outliersRemoved : Z;
  stats_pointsInterpolated : Z
}.

(** The mutable variables of [cleanAndInterpolateData]: the rows at hand
    ([stageData] inside a stage, [tempCleanedData] outside), the audit map
    and the two counters. *)
Record CleanState : Type := mkState {
  rows : list ProcessedDataRow;
  auditMap : gmap string AuditLogEntry;
  outliersRemoved : Z;
  pointsInterpolated : Z
}.

Definition STAGE_ROWS : nat := 18.

(** [`${time}-${col}`] *)
Definition logKey (time col : string) : string :=
  String.append time (String.append "-" col).

(** [l.slice(start, end)] for [start <= end] *)
Definition slice {A} (start end_ : nat) (l : list A) : list A :=
  take (end_ - start) (drop start l).

(** [l.splice(start, n, ...items)], the array after the call *)
Definition splice {A} (start n : nat) (items l : list A) : list A :=
  take start l ++ items ++ drop (start + n) l.

(** [l.reduce((a, b) => a + b, 0)] *)
Definition sum (l : list float) : float := fold_left PrimFloat.add l 0%float.

(** [stageData.slice(3).map(row => row[col]).filter(v => typeof v === 'number')] *)
Definition stage_values (col : Col) (stageData : list ProcessedDataRow) : list float :=
  omap (fun row => as_number (get col row)) (drop 3 stageData).

Definition mean_of (values : list float) : float :=
  (sum values / JS.of_nat (length values))%float.

Definition stdDev_of (values : list float) : float :=
  let mean := mean_of values in
  sqrt (sum (map (fun x => JS.Math_pow2 (x - mean)%float) values)
        / JS.of_nat (length values))%float.

(** [originalValue < lowerBound || originalValue > upperBound] *)
Definition outside_band (mean stdDev originalValue : float) : bool :=
  let lowerBound := (mean - 3 * stdDev)%float in
  let upperBound := (mean + 3 * stdDev)%float in
  ((originalValue <? lowerBound)%float || (upperBound <? originalValue)%float)%bool.

(** The body of the scan [for (let j = 3; j < stageData.length; j++)] of the
    3SD rule, for stage [i] (0-based) and channel [col]. *)
Definition sd_scan_step (i : nat) (col : Col) (mean stdDev : float)
    (st : CleanState) (j : nat) : CleanState :=
  match rows st !! j with
  | Some row =>
      match get col row with
      | Num originalValue =>
          if outside_band mean stdDev originalValue then
            mkState
              (<[j := set col Null row]> (rows st))
              (<[logKey (t row) (col_name col) :=
                   mkEntry (t row) (col_name col) originalValue
                     (ThreeSD (i + 1) mean stdDev) REMOVED None]> (auditMap st))
              (outliersRemoved st + 1)
              (pointsInterpolated st)
          else st
      | _ => st
      end
  | None => st
  end.

(** The body of [for (const col of OUTLIER_COLS)] inside a stage. *)
Definition sd_col (i : nat) (st : CleanState) (col : Col) : CleanState :=
  let values := stage_values col (rows st) in
  if length values <? 2 then st
  else
    let mean := mean_of values in
    let stdDev := stdDev_of values in
    fold_left (sd_scan_step i col mean stdDev)
      (seq 3 (length (rows st) - 3)) st.

(** The reason, if any, for which the heart-rate pass rejects row [j]. *)
Definition hr_reason (i : nat) (stageData : list ProcessedDataRow) (j : nat)
    (currentRow : ProcessedDataRow) (hr : float) : option Reason :=
  if ((hr <=? 0)%float || (250 <? hr)%float)%bool then Some (HROutOfRange (i + 1))
  else if 0 <? j then
    match stageData !! (j - 1) with
    | Some prevRow =>
        match rHR prevRow, rVO2 currentRow, rVO2 prevRow, rVE currentRow, rVE prevRow with
        | Num prevHr, Num currentVo2, Num prevVo2, Num currentVe, Num prevVe =>
            let hrIncrease := (hr - prevHr)%float in
            if ((20 <? hrIncrease)%float && (currentVo2 <=? prevVo2)%float
                && (currentVe <=? prevVe)%float)%bool
            then Some (HRSpike (i + 1) hrIncrease)
            else None
        | _, _, _, _, _ => None
        end
    | None => None
    end
  else None.

(** The body of the heart-rate pass [for (let j = 0; j < stageData.length; j++)]. *)
Definition hr_step (i : nat) (st : CleanState) (j : nat) : CleanState :=
  match rows st !! j with
  | Some currentRow =>
      match rHR currentRow with
      | Num hr =>
          match hr_reason i (rows st) j currentRow hr with
          | Some rs =>
              mkState
                (<[j := set HR Null currentRow]> (rows st))
                (<[logKey (t currentRow) "HR" :=
                     mkEntry (t currentRow) "HR" hr rs REMOVED None]> (auditMap st))
                (outliersRemoved st + 1)
                (pointsInterpolated st)
          | None => st
          end
      | _ => st
      end
  | None => st
  end.

Definition hr_pass (i : nat) (st : CleanState) : CleanState :=
  fold_left (hr_step i) (seq 0 (length (rows st))) st.

(** [Math.ceil(tempCleanedData.length / STAGE_ROWS)]: the quotient of two
    array-size integers, rounded up. *)
Definition numStages_of (len : nat) : nat := (len + (STAGE_ROWS - 1)) / STAGE_ROWS.

(** What the two passes of a stage, the 3SD rule on every channel and then
    the heart-rate pass, leave of [stageData], of the audit map and of the
    counter. *)
Definition stage_passes (i : nat) (st : CleanState) : CleanState :=
  hr_pass i (fold_left (sd_col i) OUTLIER_COLS st).

(** The body of the stage loop [for (let i = 0; i < numStages; i++)].  The rows
    of [stageData] are the row objects of [tempCleanedData]; writing the
    stage back with [splice] stores what the two passes left in them. *)
Definition detect_stage (numStages : nat) (st : CleanState) (i : nat) : CleanState :=
  let tempCleanedData := rows st in
  let start := i * STAGE_ROWS in
  let end_ := Nat.min ((i + 1) * STAGE_ROWS) (length tempCleanedData) in
  let stageData := slice start end_ tempCleanedData in
  if ((length stageData <? STAGE_ROWS) && (i =? numStages - 1))%bool then st
  else
    let st' := stage_passes i
                 (mkState stageData (auditMap st) (outliersRemoved st)
                    (pointsInterpolated st)) in
    mkState (splice start (length stageData) (rows st') tempCleanedData)
      (auditMap st') (outliersRemoved st') (pointsInterpolated st').

(** The detection phase: the whole stage loop. *)
Definition detect (st : CleanState) : CleanState :=
  let numStages := numStages_of (length (rows st)) in
  fold_left (detect_stage numStages) (seq 0 numStages) st.

(** [tempCleanedData[j][col] !== null]; an absent channel is not [null]. *)
Definition not_null_at (data : list ProcessedDataRow) (col : Col) (j : nat) : bool :=
  match data !! j with
  | Some row => negb (is_null (get col row))
  | None => false
  end.

(** [for (let j = lo + n - 1; j >= lo; j--) if (P j) { found = j; break; }] *)
Fixpoint search_down (P : nat -> bool) (lo n : nat) : option nat :=
  match n with
  | 0 => None
  | S n' => if P (lo + n') then Some (lo + n') else search_down P lo n'
  end.

(** [for (let j = from; j < to; j++) if (P j) { found = j; break; }] *)
Definition search_up (P : nat -> bool) (from to : nat) : option nat :=
  List.find P (seq from (to - from)).

(** [tempCleanedData[j][col] as number], as arithmetic reads it. *)
Definition value_at (data : list ProcessedDataRow) (col : Col) (j : nat) : float :=
  match data !! j with
  | Some row => to_number (get col row)
  | None => nan
  end.

(** [prevValue + (nextValue - prevValue) * ((i - prevIndex) / gapSize)] *)
Definition interpolate (prevValue nextValue : float) (i prevIndex gapSize : nat) : float :=
  (prevValue + (nextValue - prevValue)
               * (JS.of_nat (i - prevIndex) / JS.of_nat gapSize))%float.

(** The nearest non-null neighbours of index [i] inside its 18-row stage. *)
Definition prevIndex_of (data : list ProcessedDataRow) (col : Col) (i : nat) : option nat :=
  let currentStageIndex := i / STAGE_ROWS in
  search_down (not_null_at data col) (currentStageIndex * STAGE_ROWS)
    (i - currentStageIndex * STAGE_ROWS).

Definition nextIndex_of (data : list ProcessedDataRow) (col : Col) (i : nat) : option nat :=
  let currentStageIndex := i / STAGE_ROWS in
  search_up (not_null_at data col) (i + 1)
    (Nat.min ((currentStageIndex + 1) * STAGE_ROWS) (length data)).

(** The body of the interpolation loop, for channel [col] and index [i]. *)
Definition interp_step (col : Col) (st : CleanState) (i : nat) : CleanState :=
  let tempCleanedData := rows st in
  match tempCleanedData !! i with
  | Some row =>
      if is_null (get col row) then
        match prevIndex_of tempCleanedData col i, nextIndex_of tempCleanedData col i with
        | Some prevIndex, Some nextIndex =>
            let gapSize := nextIndex - prevIndex in
            if gapSize <=? 3 then
              let prevValue := value_at tempCleanedData col prevIndex in
              let nextValue := value_at tempCleanedData col nextIndex in
              let interpolatedValue := interpolate prevValue nextValue i prevIndex gapSize in
              let key := logKey (t row) (col_name col) in
              match auditMap st !! key with
              | Some logEntry =>
                  if (abs (originalValue logEntry - interpolatedValue) <? 1e-6)%float then
                    mkState
                      (<[i := set col (Num (originalValue logEntry)) row]> tempCleanedData)
                      (delete key (auditMap st))
                      (outliersRemoved st - 1)
                      (pointsInterpolated st)
                  else
                    mkState
                      (<[i := set col (Num interpolatedValue) row]> tempCleanedData)
                      (<[key := mkEntry (time logEntry) (column logEntry)
                                  (originalValue logEntry) (reason logEntry)
                                  INTERPOLATED (Some interpolatedValue)]> (auditMap st))
                      (outliersRemoved st)
                      (pointsInterpolated st + 1)
              | None =>
                  mkState
                    (<[i := set col (Num interpolatedValue) row]> tempCleanedData)
                    (auditMap st) (outliersRemoved st) (pointsInterpolated st)
              end
            else st
        | _, _ => st
        end
      else st
  | None => st
  end.

Definition interp_col (st : CleanState) (col : Col) : CleanState :=
  fold_left (interp_step col) (seq 0 (length (rows st))) st.

(** The interpolation phase: [for (const col of OUTLIER_COLS)]. *)
Definition interpolate_all (st : CleanState) : CleanState :=
  fold_left interp_col OUTLIER_COLS st.

(** The state of the function when its last statements run. *)
Definition clean_state (data : list ProcessedDataRow) : CleanState :=
  interpolate_all (detect (mkState (json_copy data) ∅ 0 0)).

Record CleanResult : Type := mkResult {
  cleanedData : list ProcessedDataRow;
  auditLog : list AuditLogEntry;
  stats : CleaningStats
}.

(** [cleanAndInterpolateData].  The source lists the values of the audit map
    and sorts them with [time.localeCompare], an order that depends on the
    locale; here [auditLog] holds the same entries, in the order of
    [map_to_list]. *)
Definition cleanAndInterpolateData (data : list ProcessedDataRow) (bodyWeight : float)
  : CleanResult :=
  let st := clean_state data in
  mkResult
    (map (fun row => recalculateDerivedMetrics row bodyWeight) (rows st))
    ((map_to_list (auditMap st)).*2)
    (mkStats (outliersRemoved st) (pointsInterpolated st)).

(** ** Smoothing *)

Definition colsToSmooth : list Col := [VO2; VCO2; VE; HR; VT; BF].

(** [(val1 + val2 + val3) / 3] when the three are numbers, else [null] *)
Definition smooth_cell (val1 val2 val3 : cell) : cell :=
  match val1, val2, val3 with
  | Num a, Num b, Num c => Num ((a + b + c) / 3)%float
  | _, _, _ => Null
  end.

(** [data[j][col]]; only read at indices inside the array. *)
Definition cell_at (data : list ProcessedDataRow) (col : Col) (j : nat) : cell :=
  match data !! j with
  | Some row => get col row
  | None => Undefined
  end.

Definition smooth_col (data : list ProcessedDataRow) (i : nat)
    (newSmoothedData : list ProcessedDataRow) (col : Col) : list ProcessedDataRow :=
  match newSmoothedData !! i with
  | Some row =>
      <[i := set col (smooth_cell (cell_at data col (i - 2)) (cell_at data col (i - 1))
                        (cell_at data col i)) row]> newSmoothedData
  | None => newSmoothedData
  end.

Definition smooth_row (data : list ProcessedDataRow)
    (newSmoothedData : list ProcessedDataRow) (i : nat) : list ProcessedDataRow :=
  fold_left (smooth_col data i) colsToSmooth newSmoothedData.

Definition applySmoothing (data : list ProcessedDataRow) (bodyWeight : float)
  : list ProcessedDataRow :=
  let newSmoothedData := json_copy data in
  if length data <? 3 then newSmoothedData
  else
    let newSmoothedData :=
      fold_left (smooth_row data) (seq 2 (length data - 2)) newSmoothedData in
    map (fun row => recalculateDerivedMetrics row bodyWeight) newSmoothedData.

(** ** Key metrics and plateau analysis *)

(** [PlateauStageSummary] *)
Record PlateauStageSummary : Type := mkSummary {
  stage : nat;
  duration : float;
  avgVo2 : float;
  deltaVo2 : option float;
  isPartial : bool
}.

Record PlateauComparison : Type := mkComparison {
  prevStageAvg : float;
  lastStageAvg : float
}.

(** [KeyMetrics]; the optional [duration] is never set by this module. *)
Record KeyMetrics : Type := mkMetrics {
  vo2max : float;
  vo2max_kg : float;
  vemax : float;
  hrmax : float;
  rermax : float;
  plateauReached : bool;
  isPeak : bool;
  plateauTime : option string;
  plateauComparison : option PlateauComparison;
  plateauStageSummary : option (list PlateauStageSummary)
}.

Record Stage : Type := mkStage {
  startTime : float;
  endTime : float
}.

Definition STAGE_DURATION_SECONDS : float := 180%float.

(** [data.map(r => r[c]).filter(v => v !== null && typeof v === 'number')] *)
Definition valid_values (f : ProcessedDataRow -> cell) (data : list ProcessedDataRow)
  : list float :=
  omap (fun r => as_number (f r)) data.

(** [valid.length > 0 ? Math.max(...valid) : 0] *)
Definition max_or_zero (valid : list float) : float :=
  if 0 <? length valid then JS.Math_max_list valid else 0%float.

(** The body of the loop that builds [stages], for the counter value [i]. *)
Definition stage_at (totalDuration : float) (i : nat) : list Stage :=
  let startTime := (JS.of_nat i * STAGE_DURATION_SECONDS)%float in
  let endTime :=
    JS.Math_min ((JS.of_nat i + 1) * STAGE_DURATION_SECONDS)%float totalDuration in
  if (startTime <? endTime)%float then [mkStage startTime endTime] else [].

(** [stages] after the loop has run [n] times. *)
Definition build_stages (totalDuration : float) (n : nat) : list Stage :=
  flat_map (stage_at totalDuration) (seq 0 n).

(** [data.filter(r => r.timeInSeconds >= stage.startTime && r.timeInSeconds < stage.endTime)] *)
Definition stageData_of (data : list ProcessedDataRow) (stage : Stage)
  : list ProcessedDataRow :=
  List.filter (fun r => ((startTime stage <=? timeInSeconds r)%float
                         && (timeInSeconds r <? endTime stage)%float)%bool) data.

(** The rows whose V'O2 is averaged for a stage, and [isPartial]. *)
Definition window_rows (data : list ProcessedDataRow) (stage : Stage) (isLastStage : bool)
  : list ProcessedDataRow * bool :=
  let stageData := stageData_of data stage in
  let actualDuration := (endTime stage - startTime stage)%float in
  if (isLastStage && (actualDuration <? STAGE_DURATION_SECONDS)%float)%bool then
    if (30 <? actualDuration)%float then
      let thirtySecondsBeforeEnd := (endTime stage - 30)%float in
      (List.filter (fun r => (thirtySecondsBeforeEnd <=? timeInSeconds r)%float) stageData,
       false)
    else (stageData, true)
  else
    let thirtySecondsBeforeEnd := (endTime stage - 30)%float in
    (List.filter (fun r => ((thirtySecondsBeforeEnd <=? timeInSeconds r)%float
                            && (timeInSeconds r <? endTime stage)%float)%bool) data,
     false).

(** [avgVo2] and [isPartial] of a stage. *)
Definition stage_average (data : list ProcessedDataRow) (stage : Stage) (isLastStage : bool)
  : float * bool :=
  if 0 <? length (stageData_of data stage) then
    let (window, isPartial) := window_rows data stage isLastStage in
    let validVo2Values := omap (fun r => as_number (rVO2 r)) window in
    (if 0 <? length validVo2Values
     then (sum validVo2Values / JS.of_nat (length validVo2Values))%float
     else 0%float,
     isPartial)
  else (0%float, false).

(** [stages.map((stage, index) => ...)], from position [index] on, with the
    value the variable [previousAvgVo2] holds there; [numStages] is
    [stages.length]. *)
Fixpoint summarize (data : list ProcessedDataRow) (numStages : nat) (index : nat)
    (previousAvgVo2 : float) (stages : list Stage) : list PlateauStageSummary :=
  match stages with
  | [] => []
  | stage :: rest =>
      let actualDuration := (endTime stage - startTime stage)%float in
      let (avgVo2, isPartial) := stage_average data stage (index =? numStages - 1) in
      let deltaVo2 :=
        if ((0 <? index) && (0 <? avgVo2)%float && (0 <? previousAvgVo2)%float)%bool
        then Some (avgVo2 - previousAvgVo2)%float
        else None in
      mkSummary (index + 1) actualDuration avgVo2 deltaVo2 isPartial
        :: summarize data numStages (S index) avgVo2 rest
  end.

(** [stages], when the loop that builds it ends. *)
Definition stages_of (data : list ProcessedDataRow) : option (list Stage) :=
  match last data with
  | Some lastRow =>
      let totalDuration := timeInSeconds lastRow in
      let numStages := JS.Math_ceil (totalDuration / STAGE_DURATION_SECONDS)%float in
      n ← JS.loop_count numStages; Some (build_stages totalDuration n)
  | None => Some []
  end.

Definition summary_of (data : list ProcessedDataRow) (stages : list Stage)
  : list PlateauStageSummary :=
  summarize data (length stages) 0 0%float stages.

(** [plateauDataPoint?.t || data[data.length - 1].t]: the label of the found
    row unless there is none or its label is the empty string. *)
Definition plateauTime_of (data : list ProcessedDataRow) (lastStageStartTime : float)
  : option string :=
  match List.find (fun d => (lastStageStartTime <=? timeInSeconds d)%float) data with
  | Some plateauDataPoint =>
      if String.eqb (t plateauDataPoint) "" then t <$> last data
      else Some (t plateauDataPoint)
  | None => t <$> last data
  end.

(** The plateau decision on the stage summaries:
    [(plateauReached, plateauTime, plateauComparison)]. *)
Definition plateau_of (data : list ProcessedDataRow) (stages : list Stage)
    (plateauStageSummary : list PlateauStageSummary)
  : bool * option string * option PlateauComparison :=
  if 2 <=? length plateauStageSummary then
    match last plateauStageSummary,
          plateauStageSummary !! (length plateauStageSummary - 2),
          last stages with
    | Some lastStageInfo, Some secondLastStageInfo, Some lastStage =>
        match deltaVo2 lastStageInfo with
        | Some vo2_increase =>
            if (vo2_increase <? 0.15)%float then
              (true,
               plateauTime_of data (startTime lastStage),
               Some (mkComparison (avgVo2 secondLastStageInfo) (avgVo2 lastStageInfo)))
            else (false, None, None)
        | None => (false, None, None)
        end
    | _, _, _ => (false, None, None)
    end
  else (false, None, None).

(** [calculateKeyMetricsForData]; [None] when the loop that builds the stages
    does not end. *)
Definition calculateKeyMetricsForData (data : list ProcessedDataRow) : option KeyMetrics :=
  if length data =? 0 then
    Some (mkMetrics 0 0 0 0 0 false true None None None)
  else
    stages ← stages_of data;
    let plateauStageSummary := summary_of data stages in
    let '(plateauReached, plateauTime, plateauComparison) :=
      plateau_of data stages plateauStageSummary in
    Some (mkMetrics
            (max_or_zero (valid_values rVO2 data))
            (max_or_zero (valid_values VO2_kg data))
            (max_or_zero (valid_values rVE data))
            (max_or_zero (valid_values rHR data))
            (max_or_zero (valid_values RER data))
            plateauReached (negb plateauReached)
            plateauTime plateauComparison (Some plateauStageSummary)).

(** ** Percentile extraction *)

(** [data.findIndex(P)]; [None] for [-1]. *)
Fixpoint findIndex {A} (P : A -> bool) (l : list A) : option nat :=
  match l with
  | [] => None
  | x :: l' => if P x then Some 0 else S <$> findIndex P l'
  end.

(** [row["V'O2"] !== null && typeof row["V'O2"] === 'number' && row["V'O2"] >= threshold] *)
Definition reaches (threshold : float) (row : ProcessedDataRow) : bool :=
  match rVO2 row with
  | Num v => (threshold <=? v)%float
  | _ => false
  end.

(** [`${i}%`] *)
Definition percent_label (i : nat) : string :=
  String.append (NilEmpty.string_of_uint (Nat.to_uint i)) "%".

(** [{ ...row, 'VO2_%max': label }] *)
Definition with_percentage (row : ProcessedDataRow) (label : string) : ProcessedDataRow :=
  mkRow (t row) (rTimeInSeconds row)
    (rVO2 row) (rVCO2 row) (rVE row) (rHR row) (rVT row) (rBF row)
    (VO2_kg row) (VO2_HR row) (VE_VO2 row) (VE_VCO2 row) (RER row) (VD_VT_est row)
    (Load row) (Marker row) (Some label).

(** [vo2max * (i / 100)] *)
Definition threshold_of (vo2max : float) (i : nat) : float :=
  (vo2max * (JS.of_nat i / 100))%float.

(** The values of [i] in [for (let i = 10; i <= 100; i += 10)]. *)
Definition percentages : list nat := map (fun k => 10 * k) (seq 1 10).

(** The body of that loop on [(result, seenPercentages)]; the model keeps,
    next to each pushed row, the [i] it was pushed for. *)
Definition percentage_step (data : list ProcessedDataRow) (vo2max : float)
    (acc : list (nat * ProcessedDataRow) * gset nat) (i : nat)
  : list (nat * ProcessedDataRow) * gset nat :=
  let '(result, seenPercentages) := acc in
  let threshold := threshold_of vo2max i in
  match findIndex (reaches threshold) data with
  | Some foundIndex =>
      if negb (bool_decide (i ∈ seenPercentages)) then
        match data !! foundIndex with
        | Some row =>
            (result ++ [(i, with_percentage row (percent_label i))],
             {[i]} ∪ seenPercentages)
        | None => acc
        end
      else acc
  | None => acc
  end.

(** The pushed rows, each with the percentage it stands for. *)
Definition percentage_rows (data : list ProcessedDataRow) (metrics : KeyMetrics)
  : list (nat * ProcessedDataRow) :=
  if length data =? 0 then []
  else fst (fold_left (percentage_step data (vo2max metrics)) percentages ([], ∅)).

Definition extractPercentageDataForMetrics (data : list ProcessedDataRow)
    (metrics : KeyMetrics) : list ProcessedDataRow :=
  (percentage_rows data metrics).*2.

(** ** Area under the curve *)

(** [AucResult] *)
Record AucResult : Type := mkAuc {
  auc_value : float;
  auc_startTime : cell;
  auc_endTime : cell;
  auc_startVo2 : float;
  auc_endVo2 : float
}.

(** [typeof vo2 === 'number' && vo2 <= endVo2] at index [i] *)
Definition below_at (data : list ProcessedDataRow) (endVo2 : float) (i : nat) : bool :=
  match data !! i with
  | Some row => match rVO2 row with Num vo2 => (vo2 <=? endVo2)%float | _ => false end
  | None => false
  end.

(** The body of the integration loop. *)
Definition auc_step (data : list ProcessedDataRow) (auc : float) (i : nat) : float :=
  match data !! i, data !! (i + 1) with
  | Some row1, Some row2 =>
      match rVO2 row1, rVO2 row2 with
      | Num vo2_1, Num vo2_2 =>
          let avgVo2 := ((vo2_1 + vo2_2) / 2)%float in
          let timeDelta := (timeInSeconds row2 - timeInSeconds row1)%float in
          (auc + avgVo2 * (timeDelta / 60))%float
      | _, _ => auc
      end
  | _, _ => auc
  end.

(** [calculateAuc]; [None] for [null]. *)
Definition calculateAuc (data : list ProcessedDataRow) (vo2max startPercent endPercent : float)
  : option AucResult :=
  let startVo2 := (vo2max * (startPercent / 100))%float in
  let endVo2 := (vo2max * (endPercent / 100))%float in
  let startIndex := findIndex (reaches startVo2) data in
  let endIndex := search_down (below_at data endVo2) 0 (length data) in
  match startIndex, endIndex with
  | Some startIndex, Some endIndex =>
      if endIndex <=? startIndex then None
      else
        match data !! startIndex, data !! endIndex with
        | Some startRow, Some endRow =>
            Some (mkAuc
                    (fold_left (auc_step data) (seq startIndex (endIndex - startIndex)) 0%float)
                    (rTimeInSeconds startRow) (rTimeInSeconds endRow) startVo2 endVo2)
        | _, _ => None
        end
  | _, _ => None
  end.

(** ** Time labels *)

Module JSString.

(** The white space [parseInt] skips, among the code units below 256: tab,
    line feed, vertical tab, form feed, carriage return, space and no-break
    space. *)
Definition is_white_space (c : ascii) : bool :=
  let n := nat_of_ascii c in
  ((n =? 9) || (n =? 10) || (n =? 11) || (n =? 12) || (n =? 13) || (n =? 32)
   || (n =? 160))%bool.

Fixpoint trim_start (s : string) : string :=
  match s with
  | String c s' => if is_white_space c then trim_start s' else s
  | EmptyString => s
  end.

Definition digit_of (c : ascii) : option nat :=
  let n := nat_of_ascii c in
  if ((48 <=? n) && (n <=? 57))%bool then Some (n - 48) else None.

(** The decimal digits a string starts with. *)
Fixpoint leading_digits (s : string) : list nat :=
  match s with
  | String c s' =>
      match digit_of c with
      | Some d => d :: leading_digits s'
      | None => []
      end
  | EmptyString => []
  end.

(** The integer a list of decimal digits stands for. *)
Definition decimal_value (ds : list nat) : Z :=
  fold_left (fun a d => 10 * a + Z.of_nat d)%Z ds 0%Z.

(** [parseInt(s, 10)]: white space is skipped, then a sign, then the longest
    run of decimal digits is read; NaN when there is no digit.  The integer
    is rounded to the nearest float. *)
Definition parseInt10 (s : string) : float :=
  let trimmed := trim_start s in
  let '(negative, unsigned) :=
    match trimmed with
    | String "-"%char rest => (true, rest)
    | String "+"%char rest => (false, rest)
    | _ => (false, trimmed)
    end in
  let digits := leading_digits unsigned in
  if length digits =? 0 then nan
  else
    let mathInt := decimal_value digits in
    SF2Prim (binary_normalize prec emax (if negative then (- mathInt)%Z else mathInt)
               0 negative).

(** [x || 0] for a number [x]: NaN and the zeros give [0]. *)
Definition or_zero (x : float) : float :=
  if (is_nan x || is_zero x)%bool then 0%float else x.

(** [s.split(sep)] for a pattern [sep] that matches one character. *)
Fixpoint split (sep : ascii -> bool) (s : string) : list string :=
  match s with
  | EmptyString => [EmptyString]
  | String c s' =>
      if sep c then EmptyString :: split sep s'
      else
        match split sep s' with
        | part :: parts => String c part :: parts
        | [] => [String c EmptyString]
        end
  end.

End JSString.

(** [/[:.]/] *)
Definition time_separator (c : ascii) : bool :=
  ((c =? ":")%char || (c =? ".")%char)%bool.

Definition timeStringToSeconds (timeStr : string) : float :=
  let parts := JSString.split time_separator timeStr in
  if length parts <? 3 then 0%float
  else
    let h := JSString.or_zero (JSString.parseInt10 (nth 0 parts EmptyString)) in
    let m := JSString.or_zero (JSString.parseInt10 (nth 1 parts EmptyString)) in
    let s := JSString.or_zero (JSString.parseInt10 (nth 2 parts EmptyString)) in
    let ms :=
      if 3 <? length parts
      then JSString.or_zero (JSString.parseInt10 (nth 3 parts EmptyString))
      else 0%float in
    (h * 3600 + m * 60 + s + ms / 1000)%float.

(** ** Threshold estimation ([src/components/ThresholdAnalyzer.tsx]) *)

(** [Math.min(...l)]: [Infinity] on the empty list. *)
Definition Math_min_list (l : list float) : float :=
  fold_left JS.Math_min l infinity.

(** The [reason] of an estimated threshold: the nadir of [V'E/V'O2] (first
    ventilatory threshold), or the nadir of [V'E/V'CO2] after it (second
    ventilatory threshold).  The source holds a sentence for each. *)
Inductive ThresholdReason : Type := ReasonVT1 | ReasonVT2.

(** [Threshold], when it is not [null] *)
Record Threshold : Type := mkThreshold {
  th_vo2 : float;
  th_reason : ThresholdReason
}.

(** The two keys [findNadir] is called with. *)
Inductive NadirKey : Type := KeyVE_VO2 | KeyVE_VCO2.

(** [row[key]] *)
Definition key_cell (key : NadirKey) (row : ProcessedDataRow) : cell :=
  match key with
  | KeyVE_VO2 => VE_VO2 row
  | KeyVE_VCO2 => VE_VCO2 row
  end.

(** [typeof row[key] === 'number' && typeof row["V'O2"] === 'number'] *)
Definition nadir_candidate (key : NadirKey) (row : ProcessedDataRow) : bool :=
  match key_cell key row, rVO2 row with
  | Num _, Num _ => true
  | _, _ => false
  end.

(** [row[key] === minValue] *)
Definition at_minimum (key : NadirKey) (minValue : float) (row : ProcessedDataRow) : bool :=
  match key_cell key row with
  | Num x => (x =? minValue)%float
  | _ => false
  end.

(** [a === b] on the values of a field that holds a number or [null], or is
    absent. *)
Definition strict_eq (a b : cell) : bool :=
  match a, b with
  | Num x, Num y => (x =? y)%float
  | Null, Null => true
  | Undefined, Undefined => true
  | _, _ => false
  end.

(** [findNadir]: the point and its [originalIndex] ([None] for [-1]). *)
Definition findNadir (d : list ProcessedDataRow) (key : NadirKey) (startIndex : nat)
  : option (ProcessedDataRow * option nat) :=
  let dataSlice := List.filter (nadir_candidate key) (drop startIndex d) in
  if length dataSlice =? 0 then None
  else
    let minValue :=
      Math_min_list (omap (fun row => as_number (key_cell key row)) dataSlice) in
    match List.find (at_minimum key minValue) dataSlice with
    | Some nadirPoint =>
        Some (nadirPoint,
              findIndex (fun originalRow =>
                           strict_eq (rTimeInSeconds originalRow)
                             (rTimeInSeconds nadirPoint)) d)
    | None => None
    end.

(** [estimateInitialThresholds]: [(lt, rcp)], [None] for [null]. *)
Definition estimateInitialThresholds (data : list ProcessedDataRow)
  : option Threshold * option Threshold :=
  if length data <? 5 then (None, None)
  else
    match findNadir data KeyVE_VO2 0 with
    | None => (None, None)
    | Some (ltPoint, originalIndex) =>
        let lt := mkThreshold (to_number (rVO2 ltPoint)) ReasonVT1 in
        let startIndex := match originalIndex with Some k => k + 1 | None => 0 end in
        match findNadir data KeyVE_VCO2 startIndex with
        | None => (Some lt, None)
        | Some (rcpPoint, _) =>
            if (to_number (rVO2 rcpPoint) <=? th_vo2 lt)%float then (Some lt, None)
            else (Some lt, Some (mkThreshold (to_number (rVO2 rcpPoint)) ReasonVT2))
        end
    end.

(** * Vocabulary of the properties *)

(** A cell that [JSON.stringify] writes as it is: [null], an absent channel,
    or a finite number other than [-0]. *)
Definition json_plain (c : cell) : bool :=
  match c with
  | Num x => is_finite x && negb (is_zero x && get_sign x)
  | _ => true
  end.

(** A row whose time and channels are all written as they are. *)
Definition json_plain_row (r : ProcessedDataRow) : bool :=
  json_plain (rTimeInSeconds r)
  && json_plain (rVO2 r) && json_plain (rVCO2 r) && json_plain (rVE r)
  && json_plain (rHR r) && json_plain (rVT r) && json_plain (rBF r)
  && json_plain (VO2_kg r) && json_plain (VO2_HR r) && json_plain (VE_VO2 r)
  && json_plain (VE_VCO2 r) && json_plain (RER r) && json_plain (VD_VT_est r)
  && json_plain (Load r).

(** The row the inner loop of [applySmoothing] leaves at index [i]. *)
Definition smoothed_row (data : list ProcessedDataRow) (i : nat) (row : ProcessedDataRow)
  : ProcessedDataRow :=
  fold_left
    (fun r col =>
       set col (smooth_cell (cell_at data col (i - 2)) (cell_at data col (i - 1))
                  (cell_at data col i)) r)
    colsToSmooth row.

(** [k] is the first index of [l] whose element satisfies [P]. *)
Definition first_index {A} (P : A → bool) (l : list A) (k : nat) : Prop :=
  (∃ x, l !! k = Some x ∧ P x = true)
  ∧ ∀ j y, j < k → l !! j = Some y → P y = false.

(** [k] is the last index below [n] that satisfies [P]. *)
Definition last_index_below (P : nat → bool) (n k : nat) : Prop :=
  k < n ∧ P k = true ∧ ∀ j, k < j < n → P j = false.

(** The trapezoid between rows [i] and [i + 1], when both hold a V'O2:
    [(vo2_i + vo2_{i+1}) / 2 * (Δt / 60)]. *)
Definition trapezoid_at (data : list ProcessedDataRow) (i : nat) : option float :=
  match data !! i, data !! (i + 1) with
  | Some row1, Some row2 =>
      match rVO2 row1, rVO2 row2 with
      | Num vo2_1, Num vo2_2 =>
          Some ((vo2_1 + vo2_2) / 2
                * ((timeInSeconds row2 - timeInSeconds row1) / 60))%float
      | _, _ => None
      end
  | _, _ => None
  end.

(** The trapezoids of the adjacent pairs [i, i + 1] for [s <= i < e], in
    order, and their sum from the left. *)
Definition trapezoids (data : list ProcessedDataRow) (s e : nat) : list float :=
  omap (trapezoid_at data) (seq s (e - s)).

Definition trapezoidal_integral (data : list ProcessedDataRow) (s e : nat) : float :=
  sum (trapezoids data s e).

(** What the loop pushes for the percentage [i]: the first row whose V'O2
    reaches [vo2max * (i / 100)], labelled, if there is one. *)
Definition emitted (data : list ProcessedDataRow) (vo2max : float) (i : nat)
  : option (nat * ProcessedDataRow) :=
  foundIndex ← findIndex (reaches (threshold_of vo2max i)) data;
  row ← data !! foundIndex;
  Some (i, with_percentage row (percent_label i)).

(** The delta of a summary: the difference with the average of the stage
    before, when there is one and both averages are strictly positive. *)
Definition delta_of (prev : option float) (avg : float) : option float :=
  match prev with
  | Some previousAvgVo2 =>
      if ((0 <? avg)%float && (0 <? previousAvgVo2)%float)%bool
      then Some (avg - previousAvgVo2)%float
      else None
  | None => None
  end.

(** What both passes do to a rejected value: null it, log it as [REMOVED],
    count it. *)
Definition log_removal (j : nat) (col : Col) (row : ProcessedDataRow) (v : float)
    (rs : Reason) (st : CleanState) : CleanState :=
  mkState
    (<[j := set col Null row]> (rows st))
    (<[logKey (t row) (col_name col) :=
         mkEntry (t row) (col_name col) v rs REMOVED None]> (auditMap st))
    (outliersRemoved st + 1)
    (pointsInterpolated st).

(** An entry the 3SD scan of stage [i] and channel [col] has written under
    [key]. *)
Definition scan_entry (i : nat) (col : Col) (mean stdDev : float)
    (key : string) (e : AuditLogEntry) : Prop :=
  action e = REMOVED
  ∧ reason e = ThreeSD (i + 1) mean stdDev
  ∧ column e = col_name col
  ∧ logKey (time e) (column e) = key.

(** [p] is the nearest index before [i], inside the 18-row stage of [i],
    whose value is not [null]. *)
Definition nearest_prev (data : list ProcessedDataRow) (col : Col) (i p : nat) : Prop :=
  i / STAGE_ROWS * STAGE_ROWS ≤ p < i
  ∧ not_null_at data col p = true
  ∧ ∀ j, p < j < i → not_null_at data col j = false.

(** [n] is the nearest index after [i], inside the 18-row stage of [i] and
    inside the series, whose value is not [null]. *)
Definition nearest_next (data : list ProcessedDataRow) (col : Col) (i n : nat) : Prop :=
  i < n < Nat.min ((i / STAGE_ROWS + 1) * STAGE_ROWS) (length data)
  ∧ not_null_at data col n = true
  ∧ ∀ j, i < j < n → not_null_at data col j = false.

(** The three things the loop body can do with an interpolated value. *)
Definition restore_original (col : Col) (i : nat) (row : ProcessedDataRow)
    (logEntry : AuditLogEntry) (st : CleanState) : CleanState :=
  mkState
    (<[i := set col (Num (originalValue logEntry)) row]> (rows st))
    (delete (logKey (t row) (col_name col)) (auditMap st))
    (outliersRemoved st - 1)
    (pointsInterpolated st).

Definition upgrade_entry (col : Col) (i : nat) (row : ProcessedDataRow)
    (logEntry : AuditLogEntry) (interpolatedValue : float) (st : CleanState) : CleanState :=
  mkState
    (<[i := set col (Num interpolatedValue) row]> (rows st))
    (<[logKey (t row) (col_name col) :=
         mkEntry (time logEntry) (column logEntry) (originalValue logEntry)
           (reason logEntry) INTERPOLATED (Some interpolatedValue)]> (auditMap st))
    (outliersRemoved st)
    (pointsInterpolated st + 1).

Definition fill_unlogged (col : Col) (i : nat) (row : ProcessedDataRow)
    (interpolatedValue : float) (st : CleanState) : CleanState :=
  mkState
    (<[i := set col (Num interpolatedValue) row]> (rows st))
    (auditMap st) (outliersRemoved st) (pointsInterpolated st).

(** The value the loop body computes for a bridged gap. *)
Definition interpolated_at (data : list ProcessedDataRow) (col : Col)
    (i prevIndex nextIndex : nat) : float :=
  interpolate (value_at data col prevIndex) (value_at data col nextIndex)
    i prevIndex (nextIndex - prevIndex).

#[global] Instance Action_eq_dec : EqDecision Action.
Proof. solve_decision. Defined.

#[global] Instance Col_eq_dec : EqDecision Col.
Proof. solve_decision. Defined.

(** The number of entries of the log with a given action. *)
Definition count_action (a : Action) (log : list AuditLogEntry) : nat :=
  length (filter (λ e, action e = a) log).

(** The entries of the audit map, as [cleanAndInterpolateData] lists them. *)
Definition log_of (m : gmap string AuditLogEntry) : list AuditLogEntry :=
  (map_to_list m).*2.

(** During detection every entry is [REMOVED] and stands for a cell of the
    series that is [null]. *)
Definition logged_as_null (G : list ProcessedDataRow)
    (m : gmap string AuditLogEntry) : Prop :=
  ∀ k e, m !! k = Some e →
    action e = REMOVED
    ∧ ∃ idx r c, G !! idx = Some r ∧ k = logKey (t r) (col_name c) ∧ get c r = Null.

(** The invariant of the detection phase on a series [G] with distinct time
    labels: the counter of removed outliers is the size of the audit map. *)
Record det_inv (G : list ProcessedDataRow) (st : CleanState) : Prop := mkDetInv {
  det_labels : NoDup (t <$> G);
  det_count : outliersRemoved st = Z.of_nat (size (auditMap st));
  det_points : pointsInterpolated st = 0%Z;
  det_logged : logged_as_null G (auditMap st)
}.

(** The invariant seen from inside a stage whose rows are [rows st], with
    the rows [pre] before it and [post] after it. *)
Definition stage_inv (pre post : list ProcessedDataRow) (st : CleanState) : Prop :=
  det_inv (pre ++ rows st ++ post) st.

(** During interpolation an [INTERPOLATED] entry stands for a cell that is
    no longer [null]. *)
Definition interpolated_filled (G : list ProcessedDataRow)
    (m : gmap string AuditLogEntry) : Prop :=
  ∀ k e, m !! k = Some e → action e = INTERPOLATED →
    ∃ idx r c, G !! idx = Some r ∧ k = logKey (t r) (col_name c) ∧ get c r ≠ Null.

(** The invariant of the interpolation phase on a series with distinct time
    labels: the counter of removed outliers is the number of entries, and
    the counter of interpolated points the number of [INTERPOLATED] ones. *)
Record int_inv (st : CleanState) : Prop := mkIntInv {
  int_labels : NoDup (t <$> rows st);
  int_count : outliersRemoved st = Z.of_nat (length (log_of (auditMap st)));
  int_points :
    pointsInterpolated st = Z.of_nat (count_action INTERPOLATED (log_of (auditMap st)));
  int_logged : interpolated_filled (rows st) (auditMap st)
}.

(** [G'] is [G] with some cells nulled, all of them among the cells (index,
    channel) that [may] allows. *)
Definition nulled_from (may : nat → Col → Prop) (G G' : list ProcessedDataRow) : Prop :=
  length G' = length G
  ∧ ∀ gi r, G !! gi = Some r →
      ∃ r', G' !! gi = Some r' ∧ t r' = t r
            ∧ ∀ c, get c r' = get c r ∨ (may gi c ∧ get c r' = Null).

(** Every [REMOVED] entry of [m] is still a [REMOVED] entry in [m']. *)
Definition removed_kept (m m' : gmap string AuditLogEntry) : Prop :=
  ∀ k e, m !! k = Some e → action e = REMOVED →
    ∃ e', m' !! k = Some e' ∧ action e' = REMOVED.

(** The two facts about a step of the detection phase, seen from inside a
    stage with the rows [pre] before it and [post] after it. *)
Definition stage_step (may : nat → Col → Prop) (pre post : list ProcessedDataRow)
    (st st' : CleanState) : Prop :=
  nulled_from may (pre ++ rows st ++ post) (pre ++ rows st' ++ post)
  ∧ removed_kept (auditMap st) (auditMap st').

(** The cells the 3SD rule may null in a stage that starts at [lo] and ends
    before [hi], for the channels [cols]; the cells the heart-rate pass may
    null; the cells both passes may null. *)
Definition sd_cells (lo hi : nat) (cols : list Col) : nat → Col → Prop :=
  λ g c, lo + 3 ≤ g < hi ∧ c ∈ cols.

Definition hr_cells (lo hi : nat) : nat → Col → Prop :=
  λ g c, lo ≤ g < hi ∧ c = HR.

Definition stage_cells (lo hi : nat) : nat → Col → Prop :=
  λ g c, lo ≤ g < hi ∧ (c = HR ∨ lo + 3 ≤ g).

(** The same two facts for a step of the stage loop, on the whole series. *)
Definition phase_step (may : nat → Col → Prop) (st st' : CleanState) : Prop :=
  nulled_from may (rows st) (rows st') ∧ removed_kept (auditMap st) (auditMap st').

(** A step that keeps the invariant of a stage and every entry of the audit
    map. *)
Definition grows (pre post : list ProcessedDataRow) (st st' : CleanState) : Prop :=
  stage_inv pre post st → stage_inv pre post st' ∧ auditMap st ⊆ auditMap st'.

(** The state of the whole series, seen from inside a stage whose rows are
    [rows st], with the rows [pre] before it and [post] after it. *)
Definition embed (pre post : list ProcessedDataRow) (st : CleanState) : CleanState :=
  mkState (pre ++ rows st ++ post) (auditMap st) (outliersRemoved st)
    (pointsInterpolated st).

(** What the cleaning never changes in a row: its label, its time, [Load],
    [Marker], and which primary channels are absent. *)
Definition kept_fields (r r' : ProcessedDataRow) : Prop :=
  t r' = t r ∧ rTimeInSeconds r' = rTimeInSeconds r
  ∧ Load r' = Load r ∧ Marker r' = Marker r
  ∧ ∀ c, get c r' = Undefined ↔ get c r = Undefined.

(** The counters are at least the number of entries, and of [INTERPOLATED]
    entries, of the audit map. *)
Definition counters_cover (st : CleanState) : Prop :=
  (Z.of_nat (length (log_of (auditMap st))) ≤ outliersRemoved st)%Z
  ∧ (Z.of_nat (count_action INTERPOLATED (log_of (auditMap st)))
     ≤ pointsInterpolated st)%Z.

(** The entry [e] stands for the value that channel [c] has in the row [r0]
    of the copied input. *)
Definition entry_for (r0 : ProcessedDataRow) (c : Col) (e : AuditLogEntry) : Prop :=
  time e = t r0 ∧ column e = col_name c ∧ get c r0 = Num (originalValue e).

(** What an entry says of the present value [v] of its cell: a [REMOVED]
    value is [null] and the entry has no [newValue]; an [INTERPOLATED] one
    holds the [newValue] of the entry. *)
Definition entry_shows (e : AuditLogEntry) (v : cell) : Prop :=
  match action e with
  | REMOVED => newValue e = None ∧ v = Null
  | INTERPOLATED => ∃ x, newValue e = Some x ∧ v = Num x
  end.

(** The audit map [auditMap st] accounts for the difference between the
    copied input [G0] and the rows of [st].  During detection ([gaps] is
    [false]) every entry is [REMOVED] and every changed cell has an entry;
    during interpolation a cell that was [null] in the input may have
    changed without one. *)
Record audited (gaps : bool) (G0 : list ProcessedDataRow) (st : CleanState) : Prop :=
  mkAudited {
    aud_labels : Forall2 (λ r0 r, t r = t r0) G0 (rows st);
    aud_sound : ∀ k e, auditMap st !! k = Some e →
      ∃ i r0 r c, G0 !! i = Some r0 ∧ rows st !! i = Some r
        ∧ k = logKey (t r0) (col_name c) ∧ entry_for r0 c e ∧ entry_shows e (get c r);
    aud_complete : ∀ i r0 r c, G0 !! i = Some r0 → rows st !! i = Some r →
      get c r = get c r0
      ∨ (gaps = true ∧ get c r0 = Null)
      ∨ is_Some (auditMap st !! logKey (t r0) (col_name c));
    aud_removed : gaps = false → ∀ k e, auditMap st !! k = Some e → action e = REMOVED
  }.

(** Every heart rate left in the rows [l] passes the two tests of the
    heart-rate pass of stage [i]. *)
Definition hr_accepted (i : nat) (l : list ProcessedDataRow) : Prop :=
  ∀ j row hr, l !! j = Some row → rHR row = Num hr → hr_reason i l j row hr = None.

(** The channel [c] is [null] at index [g] of [l]. *)
Definition null_at (l : list ProcessedDataRow) (c : Col) (g : nat) : Prop :=
  ∃ r, l !! g = Some r ∧ get c r = Null.

(** The cell has no neighbour before it in its stage, or none after it. *)
Definition at_stage_edge (len g : nat) : Prop :=
  g `mod` STAGE_ROWS = 0 ∨ g `mod` STAGE_ROWS = STAGE_ROWS - 1 ∨ g + 1 = len.

(** The gap at index [i] of channel [c] can be bridged: its nearest non-null
    neighbours inside the stage are at most 3 rows apart. *)
Definition bridgeable (l : list ProcessedDataRow) (c : Col) (i : nat) : Prop :=
  ∃ p n, nearest_prev l c i p ∧ nearest_next l c i n ∧ n - p ≤ 3.

(** No gap of [c] in [l] can be bridged. *)
Definition gaps_closed (l : list ProcessedDataRow) (c : Col) : Prop :=
  ∀ i, null_at l c i → ¬ bridgeable l c i.

(** [v] is what [valid.length > 0 ? Math.max(...valid) : 0] should be: 0 for
    no value; otherwise one of the values, NaN or at least every value. *)
Definition greatest_or_zero (valid : list float) (v : float) : Prop :=
  (valid = [] → v = 0%float)
  ∧ (valid ≠ [] →
     v ∈ valid ∧ (is_nan v = true ∨ ∀ x, x ∈ valid → (x <=? v)%float = true)).

(** [row["V'O2"]] is a number equal to [v]. *)
Definition attains (v : float) (row : ProcessedDataRow) : bool :=
  match rVO2 row with
  | Num x => (x =? v)%float
  | _ => false
  end.

(** The string of the decimal digits [ds]. *)
Definition numeral (ds : list nat) : string :=
  string_of_list_ascii (map (fun d => ascii_of_nat (48 + d)) ds).

(** A numeral: at least one digit, every digit below 10. *)
Definition is_numeral (ds : list nat) : Prop :=
  ds ≠ [] ∧ Forall (fun d => d < 10) ds.

(** The number of characters of [s] that satisfy [P]. *)
Definition count_chars (P : ascii -> bool) (s : string) : nat :=
  length (List.filter P (list_ascii_of_string s)).

(** Where [findNadir] is told to start after the point [row]: behind the
    first row of [d] that has the time of [row], or at the start when no row
    has (a time that is NaN). *)
Definition index_after (d : list ProcessedDataRow) (row : ProcessedDataRow) : nat :=
  match findIndex (fun originalRow =>
                     strict_eq (rTimeInSeconds originalRow) (rTimeInSeconds row)) d with
  | Some k => k + 1
  | None => 0
  end.

(** [row] is a row of [l] where the channel [key] is lowest among the rows
    of [l] that hold a number there and in V'O2. *)
Definition is_nadir (key : NadirKey) (l : list ProcessedDataRow) (row : ProcessedDataRow)
  : Prop :=
  row ∈ l
  ∧ ∃ x v, key_cell key row = Num x ∧ rVO2 row = Num v
    ∧ ∀ row' x' v', row' ∈ l → key_cell key row' = Num x' → rVO2 row' = Num v' →
        (x <=? x')%float = true.

(** * Sample series *)

Module Sample.

(** A row with the given label, time and V'O2, every other channel [null]. *)
Definition row (label : string) (seconds : float) (vo2 : cell) : ProcessedDataRow :=
  mkRow label (Num seconds) vo2 Null Null Null Null Null
    Null Null Null Null Null Null Null None None.

(** A row with V'O2, V'E and HR. *)
Definition row3 (label : string) (seconds : float) (vo2 ve hr : cell)
  : ProcessedDataRow :=
  mkRow label (Num seconds) vo2 Null ve hr Null Null
    Null Null Null Null Null Null Null None None.

Definition label (n : nat) : string := NilEmpty.string_of_uint (Nat.to_uint n).

(** One row every ten seconds, labelled by its index, with these V'O2. *)
Definition series (vs : list cell) : list ProcessedDataRow :=
  imap (fun n v => row (label n) (JS.of_nat (10 * n)) v) vs.

End Sample.

(** V'O2 of 1, 3, 2.5, 2.7 and 3 L/min, one row every ten seconds. *)
Definition auc_sample : list ProcessedDataRow :=
  Sample.series [Num 1; Num 3; Num 2.5; Num 2.7; Num 3].

(** V'O2 of 2 then 4 L/min, and metrics whose [vo2max] is 4. *)
Definition percentile_sample : list ProcessedDataRow :=
  Sample.series [Num 2; Num 4].

Definition percentile_metrics : KeyMetrics :=
  mkMetrics 4 0 0 0 0 false true None None None.

(** Forty rows, ten seconds apart, with a V'O2 of 2 L/min: two full stages
    and a third of 30 s, whose averages are equal. *)
Definition plateau_sample : list ProcessedDataRow :=
  Sample.series (repeat (Num 2) 40).

(** Eighteen rows with a V'O2 of 2 L/min, but 1000 at index 10. *)
Definition outlier_sample : list ProcessedDataRow :=
  Sample.series (repeat (Num 2) 10 ++ [Num 1000] ++ repeat (Num 2) 7).

(** Eighteen rows with a V'O2 of 2 L/min, but 1000 in the first row. *)
Definition early_outlier_sample : list ProcessedDataRow :=
  Sample.series (Num 1000 :: repeat (Num 2) 17).

(** Fourteen rows with a V'O2 of 2 L/min and a heart rate of 100 bpm, but
    300 bpm at index 1 and 1000 L/min at index 10; the labels and the times
    start at row [first]. *)
Definition suspect_rows (first : nat) : list ProcessedDataRow :=
  imap (fun n v => Sample.row3 (Sample.label (first + n)) (JS.of_nat (10 * (first + n)))
                     (Num v.1) (Num 50) (Num v.2))
    ([(2, 100); (2, 300)] ++ repeat (2, 100) 8 ++ [(1000, 100)]
     ++ repeat (2, 100) 3)%float.

(** Four ordinary rows. *)
Definition plain_rows (first : nat) : list ProcessedDataRow :=
  imap (fun n v => Sample.row3 (Sample.label (first + n)) (JS.of_nat (10 * (first + n)))
                     (Num v.1) (Num 50) (Num v.2))
    (repeat (2, 100) 4)%float.

(** The fourteen [suspect_rows] and four ordinary rows: one full stage. *)
Definition suspect_stage : list ProcessedDataRow :=
  suspect_rows 0 ++ plain_rows 14.

(** Thirty-two rows: the full stage of [outlier_sample], then the fourteen
    [suspect_rows] as a partial stage. *)
Definition partial_sample : list ProcessedDataRow :=
  outlier_sample ++ suspect_rows 18.

(** A single row whose V'O2 is [Infinity], and one whose V'O2 is [-0]. *)
Definition unwritable_sample : list ProcessedDataRow :=
  [Sample.row "0" 0 (Num infinity); Sample.row "1" 10 (Num (-0))].

(** Eighteen rows with constant V'O2 and V'E, and a heart rate that goes
    from 100 to 130 to 160 bpm around index 5. *)
Definition hr_spike_sample : list ProcessedDataRow :=
  imap (fun n hr => Sample.row3 (Sample.label n) (JS.of_nat (10 * n))
                      (Num 2) (Num 50) (Num hr))
    (repeat 100%float 5 ++ [130%float] ++ repeat 160%float 12).

(** Eighteen rows with a V'O2 of 2 L/min, none at index 5 in the file. *)
Definition missing_sample : list ProcessedDataRow :=
  Sample.series (repeat (Num 2) 5 ++ [Null] ++ repeat (Num 2) 12).

(** Five rows with a value far from the others and a gap: the value stays,
    the gap is filled, nothing is logged. *)
Definition short_sample : list ProcessedDataRow :=
  Sample.series [Num 2; Num 1000; Null; Num 2; Num 2].

(** Eighteen rows with a V'O2 of 2 L/min, none in the first row and none
    in the rows 5, 6 and 7. *)
Definition gap_sample : list ProcessedDataRow :=
  Sample.series ([Null] ++ repeat (Num 2) 4 ++ [Null; Null; Null] ++ repeat (Num 2) 10).

(** A row whose V'CO2 is a tenth of its V'O2. *)
Definition low_rer_row : ProcessedDataRow :=
  mkRow "0" (Num 0) (Num 2) (Num 0.2) Null Null Null Null
    Null Null Null Null Null Null Null None None.

(** A single row, at time 0. *)
Definition instant_sample : list ProcessedDataRow := Sample.series [Num 2].

(** Six rows with V'O2, V'CO2 and V'E, and the channels derived from them:
    [V'E/V'O2] is lowest in row 2 and [V'E/V'CO2] in row 4. *)
Definition threshold_sample : list ProcessedDataRow :=
  imap (fun n v =>
          recalculateDerivedMetrics
            (mkRow (Sample.label n) (Num (JS.of_nat (10 * n)))
               (Num v.1.1) (Num v.1.2) (Num v.2) Null Null Null
               Null Null Null Null Null Null Null None None) 70)
    [(1, 0.8, 30); (1.5, 1.3, 39); (2, 1.9, 48); (2.5, 2.6, 62.5);
     (3, 3.3, 78); (3.5, 4, 100)]%float.

(** * Properties *)

(** ** The order of floats *)

Module FloatOrder.

Ltac sf_cases :=
  repeat match goal with
  | s : bool |- _ => destruct s
  end;
  simpl; try done;
  change (Pos.compare_cont Eq) with Pos.compare;
  repeat match goal with
  | |- context [Z.compare ?a ?b] => destruct (Z.compare_spec a b); subst
  | |- context [Pos.compare ?a ?b] => destruct (Pos.compare_spec a b); subst
  end;
  simpl; try done; try lia.

Lemma SFleb_trans x y z :
  SFleb x y = true → SFleb y z = true → SFleb x z = true.
Proof.
  unfold SFleb, SFcompare.
  destruct x as [sx|sx| |sx mx ex], y as [sy|sy| |sy my ey],
           z as [sz|sz| |sz mz ez]; sf_cases.
Qed.

Lemma SFltb_asym x y : SFltb x y = true → SFltb y x = false.
Proof.
  unfold SFltb, SFcompare.
  destruct x as [sx|sx| |sx mx ex], y as [sy|sy| |sy my ey]; sf_cases.
Qed.

Lemma SFltb_irrefl x : SFltb x x = false.
Proof.
  unfold SFltb, SFcompare. destruct x as [sx|sx| |sx mx ex]; sf_cases.
Qed.

Lemma SFltb_nan_r x : SFltb x S754_nan = false.
Proof. by destruct x. Qed.

Lemma ltb_irrefl x : (x <? x)%float = false.
Proof. rewrite ltb_spec. apply SFltb_irrefl. Qed.

Lemma ltb_asym x y : (x <? y)%float = true → (y <? x)%float = false.
Proof. rewrite !ltb_spec. apply SFltb_asym. Qed.

Lemma ltb_nan_r x : (x <? nan)%float = false.
Proof. rewrite ltb_spec. apply SFltb_nan_r. Qed.

Lemma leb_trans x y z :
  (x <=? y)%float = true → (y <=? z)%float = true → (x <=? z)%float = true.
Proof. rewrite !leb_spec. apply SFleb_trans. Qed.

(** [Math.min(a, b)] is never above [b]. *)
Lemma Math_min_not_above a b : (b <? JS.Math_min a b)%float = false.
Proof.
  unfold JS.Math_min.
  destruct (is_nan a || is_nan b)%bool; [apply ltb_nan_r|].
  destruct (a <? b)%float eqn:Hab; [by apply ltb_asym|].
  destruct (b <? a)%float eqn:Hba; [apply ltb_irrefl|].
  destruct (get_sign a); [done | apply ltb_irrefl].
Qed.

(** The only zero that is not negative is [0]. *)
Lemma SFeqb_zero f : SFeqb f (S754_zero false) = true → ∃ s, f = S754_zero s.
Proof. unfold SFeqb, SFcompare. destruct f as [s|[]| |[] m e]; try done. by exists s. Qed.

Lemma positive_zero x : is_zero x = true → get_sign x = false → x = zero.
Proof.
  unfold is_zero. rewrite FloatAxioms.eqb_spec. intros [s Hs]%SFeqb_zero Hsign.
  rewrite <- (SF2Prim_Prim2SF x), Hs in Hsign |- *.
  destruct s; [done | reflexivity].
Qed.

End FloatOrder.

(** ** Rows and channels *)

Lemma get_set_eq c v r : get c (set c v r) = v.
Proof. by destruct c. Qed.

Lemma get_set_ne c c' v r : c ≠ c' → get c (set c' v r) = get c r.
Proof. by destruct c, c'. Qed.

Lemma t_set c v r : t (set c v r) = t r.
Proof. by destruct c. Qed.

Lemma timeInSeconds_set c v r : timeInSeconds (set c v r) = timeInSeconds r.
Proof. by destruct c. Qed.

Lemma t_json_row r : t (json_row r) = t r.
Proof. done. Qed.

Lemma get_json_row c r : get c (json_row r) = json_cell (get c r).
Proof. by destruct c. Qed.

Lemma get_recalculate c r w : get c (recalculateDerivedMetrics r w) = get c r.
Proof. by destruct c. Qed.

Lemma t_recalculate r w : t (recalculateDerivedMetrics r w) = t r.
Proof. done. Qed.

(** The derived channels are a function of the primary channels and of the
    body weight: recomputing them twice changes nothing. *)
Lemma recalculate_idempotent r w :
  recalculateDerivedMetrics (recalculateDerivedMetrics r w) w
  = recalculateDerivedMetrics r w.
Proof. done. Qed.

Lemma json_copy_length data : length (json_copy data) = length data.
Proof. apply length_map. Qed.

Lemma json_copy_lookup data i :
  json_copy data !! i = json_row <$> data !! i.
Proof. apply list_lookup_fmap. Qed.

(** The deep copy changes nothing in rows that [JSON] can write. *)
Lemma json_cell_plain c : json_plain c = true → json_cell c = c.
Proof.
  destruct c as [| |x]; try done. unfold json_plain, json_cell, JS.json_number.
  intros [-> Hzero%negb_true_iff]%andb_true_iff.
  destruct (is_zero x) eqn:Hz; [|done].
  destruct (get_sign x) eqn:Hs; [done|]. by rewrite (FloatOrder.positive_zero x).
Qed.

Lemma json_row_plain r : json_plain_row r = true → json_row r = r.
Proof.
  unfold json_plain_row, json_row. rewrite !andb_true_iff.
  intros H. destruct_and!. destruct r; cbn in *.
  by rewrite !json_cell_plain.
Qed.

Lemma json_copy_plain data :
  Forall (λ r, json_plain_row r = true) data → json_copy data = data.
Proof.
  unfold json_copy. induction 1 as [|r data Hr _ IH]; [done|].
  cbn. by rewrite json_row_plain, IH.
Qed.

(** ** Smoothing *)

Lemma smooth_cols_insert data i cols nsd row :
  nsd !! i = Some row →
  fold_left (smooth_col data i) cols nsd
  = <[i := fold_left
             (fun r col =>
                set col (smooth_cell (cell_at data col (i - 2)) (cell_at data col (i - 1))
                           (cell_at data col i)) r) cols row]> nsd.
Proof.
  revert nsd row. induction cols as [|col cols IH]; intros nsd row Hi; simpl.
  - by rewrite list_insert_id.
  - unfold smooth_col at 2. rewrite Hi.
    erewrite IH; [by rewrite list_insert_insert_eq|].
    apply list_lookup_insert_eq. by eapply lookup_lt_Some.
Qed.

Lemma smooth_cols_none data i cols nsd :
  nsd !! i = None → fold_left (smooth_col data i) cols nsd = nsd.
Proof.
  intros Hi. induction cols as [|col cols IH]; simpl; [done|].
  unfold smooth_col at 2. by rewrite Hi.
Qed.

Lemma smooth_row_lookup data nsd i j :
  smooth_row data nsd i !! j
  = if decide (i = j) then smoothed_row data i <$> nsd !! i else nsd !! j.
Proof.
  unfold smooth_row. destruct (nsd !! i) as [row|] eqn:Hi.
  - rewrite (smooth_cols_insert _ _ _ _ _ Hi). case_decide as Hij.
    + subst j. rewrite list_lookup_insert_eq; [done|]. by eapply lookup_lt_Some.
    + by rewrite list_lookup_insert_ne.
  - rewrite smooth_cols_none by done. case_decide; by subst.
Qed.

Lemma smooth_fold_lookup data k a nsd j :
  fold_left (smooth_row data) (seq a k) nsd !! j
  = if decide (a ≤ j < a + k) then smoothed_row data j <$> nsd !! j else nsd !! j.
Proof.
  revert a nsd. induction k as [|k IH]; intros a nsd; simpl.
  - case_decide; [lia | done].
  - rewrite IH, !smooth_row_lookup.
    repeat case_decide; subst; try lia; try done.
Qed.

Lemma get_smoothed_row data i row c :
  get c (smoothed_row data i row)
  = smooth_cell (cell_at data c (i - 2)) (cell_at data c (i - 1)) (cell_at data c i).
Proof. by destruct c. Qed.

Lemma t_smoothed_row data i row : t (smoothed_row data i row) = t row.
Proof. done. Qed.

(** C7, as amended.  At every index [i] of the input, [applySmoothing] returns
    a row with the label of the input row in which every smoothed channel
    holds: the JSON copy of the input value when the series has fewer than
    3 rows or [i < 2]; otherwise the mean [(v[i-2] + v[i-1] + v[i]) / 3] of
    the input values when the three are numbers, and [null] when one of
    them is not.  A series of fewer than 3 rows comes back as its deep copy,
    derived channels untouched; from 3 rows on, the derived channels of
    every returned row are the ones recomputed from its primary channels and
    the body weight. *)
Theorem applySmoothing_window (data : list ProcessedDataRow) (bodyWeight : float)
    (i : nat) (row : ProcessedDataRow) :
  data !! i = Some row →
  ∃ out,
    applySmoothing data bodyWeight !! i = Some out
    ∧ t out = t row
    ∧ (∀ c, get c out =
            if ((length data <? 3) || (i <? 2))%bool then json_cell (get c row)
            else smooth_cell (cell_at data c (i - 2)) (cell_at data c (i - 1)) (get c row))
    ∧ (if length data <? 3 then applySmoothing data bodyWeight = json_copy data
       else out = recalculateDerivedMetrics out bodyWeight).
Proof.
  intros Hi. unfold applySmoothing.
  destruct (length data <? 3) eqn:Hlen; simpl.
  - exists (json_row row). rewrite json_copy_lookup, Hi. simpl.
    repeat split; auto using get_json_row.
  - rewrite list_lookup_fmap, smooth_fold_lookup, json_copy_lookup, Hi. simpl.
    apply Nat.ltb_ge in Hlen. pose proof (lookup_lt_Some _ _ _ Hi) as Hlt.
    case_decide as Hrange.
    + eexists. split; [done|]. split; [done|]. split; [|done].
      intros c. rewrite get_recalculate, get_smoothed_row.
      destruct (i <? 2) eqn:Hi2; [apply Nat.ltb_lt in Hi2; lia|].
      unfold cell_at at 3. by rewrite Hi.
    + eexists. split; [done|]. split; [done|]. split; [|done].
      intros c. rewrite get_recalculate, get_json_row.
      destruct (i <? 2) eqn:Hi2; [done|]. apply Nat.ltb_ge in Hi2. lia.
Qed.

(** A three-row series: the third row is averaged. *)
Lemma applySmoothing_window_witness :
  ∃ out,
    applySmoothing (Sample.series [Num 1; Num 2; Num 6]) 70 !! 2 = Some out
    ∧ get VO2 out = Num 3.
Proof.
  destruct (applySmoothing_window (Sample.series [Num 1; Num 2; Num 6]) 70 2
              (Sample.row "2" 20 (Num 6)) eq_refl) as (out & Hout & _ & Hget & _).
  exists out. split; [exact Hout|]. rewrite (Hget VO2). reflexivity.
Defined.

(** C7 as stated fails on a short series: it comes back as the plain copy,
    and its derived channels are not recomputed. *)
Lemma applySmoothing_short_not_recomputed :
  let data := [Sample.row "0" 0 (Num 2)] in
  applySmoothing data 70 = data
  ∧ applySmoothing data 70
    ≠ map (fun row => recalculateDerivedMetrics row 70) (applySmoothing data 70).
Proof. split; [reflexivity|]. vm_compute. discriminate. Qed.

(** ** Searching an array *)

Lemma findIndex_Some {A} (P : A → bool) l k :
  findIndex P l = Some k ↔ first_index P l k.
Proof.
  revert k. induction l as [|x l IH]; intros k; simpl.
  - split; [done|]. intros [(y & Hy & _) _]. by rewrite lookup_nil in Hy.
  - destruct (P x) eqn:Hx.
    + split.
      * intros [= <-]. split; [by exists x|]. intros; lia.
      * intros [_ Hmin]. destruct k as [|k]; [done|].
        specialize (Hmin 0 x). simpl in Hmin. rewrite Hx in Hmin.
        discriminate Hmin; [lia | done].
    + destruct (findIndex P l) as [k'|] eqn:Hf; simpl.
      * split.
        -- intros [= <-]. destruct (proj1 (IH k') eq_refl) as [Hex Hmin].
           split; [done|].
           intros [|j] y Hj Hy; simpl in Hy; [by simplify_eq|].
           eapply Hmin; [|done]. lia.
        -- intros [Hex Hmin]. destruct k as [|k].
           { destruct Hex as (y & Hy & HP). simpl in Hy. simplify_eq; congruence. }
           f_equal. assert (first_index P l k) as Hk.
           { split; [done|]. intros j y Hj Hy. apply (Hmin (S j) y); [lia | done]. }
           apply IH in Hk. by simplify_eq.
      * split; [done|]. intros [Hex Hmin]. destruct k as [|k].
        { destruct Hex as (y & Hy & HP). simpl in Hy. simplify_eq; congruence. }
        assert (first_index P l k) as Hk.
        { split; [done|]. intros j y Hj Hy. apply (Hmin (S j) y); [lia | done]. }
        apply IH in Hk. done.
Qed.

Lemma findIndex_None {A} (P : A → bool) l :
  findIndex P l = None ↔ ∀ x, x ∈ l → P x = false.
Proof.
  induction l as [|x l IH]; simpl.
  - split; [|done]. intros _ y Hy. by apply elem_of_nil in Hy.
  - destruct (P x) eqn:Hx.
    + split; [done|]. intros H. specialize (H x). rewrite Hx in H.
      discriminate H. left.
    + destruct (findIndex P l); simpl.
      * split; [done|]. intros H. assert (Some n = None); [|done].
        apply IH. intros y Hy. apply H. by right.
      * split; [|done]. intros _ y [->|Hy]%elem_of_cons; [done|]. by apply IH.
Qed.

Lemma search_down_Some P lo n k :
  search_down P lo n = Some k ↔
  lo ≤ k < lo + n ∧ P k = true ∧ ∀ j, k < j < lo + n → P j = false.
Proof.
  induction n as [|n IH]; simpl.
  - split; [done | lia].
  - destruct (P (lo + n)) eqn:Hn.
    + split.
      * intros [= <-]. split; [lia|]. split; [done|]. intros; lia.
      * intros (Hk & HP & Hmax). f_equal.
        destruct (decide (k = lo + n)) as [|Hne]; [done|].
        rewrite Hmax in Hn; [done | lia].
    + rewrite IH. split.
      * intros (Hk & HP & Hmax). split; [lia|]. split; [done|].
        intros j Hj. destruct (decide (j = lo + n)) as [->|]; [done|].
        apply Hmax. lia.
      * intros (Hk & HP & Hmax).
        assert (k ≠ lo + n) by (intros ->; congruence).
        split; [lia|]. split; [done|]. intros j Hj. apply Hmax. lia.
Qed.

Lemma search_down_None P lo n :
  search_down P lo n = None ↔ ∀ j, lo ≤ j < lo + n → P j = false.
Proof.
  induction n as [|n IH]; simpl.
  - split; [intros; lia | done].
  - destruct (P (lo + n)) eqn:Hn.
    + split; [done|]. intros H. rewrite H in Hn; [done | lia].
    + rewrite IH. split.
      * intros H j Hj. destruct (decide (j = lo + n)) as [->|]; [done|].
        apply H. lia.
      * intros H j Hj. apply H. lia.
Qed.

Lemma search_up_Some P from to k :
  search_up P from to = Some k ↔
  from ≤ k < to ∧ P k = true ∧ ∀ j, from ≤ j < k → P j = false.
Proof.
  unfold search_up. remember (to - from) as n eqn:Hn.
  revert from Hn. induction n as [|n IH]; intros from Hn; simpl.
  - split; [done | lia].
  - destruct (P from) eqn:Hf.
    + split.
      * intros [= <-]. split; [lia|]. split; [done|]. intros; lia.
      * intros (Hk & HP & Hmin). f_equal.
        destruct (decide (k = from)) as [|Hne]; [done|].
        rewrite Hmin in Hf; [done | lia].
    + rewrite IH by lia. split.
      * intros (Hk & HP & Hmin). split; [lia|]. split; [done|].
        intros j Hj. destruct (decide (j = from)) as [->|]; [done|].
        apply Hmin. lia.
      * intros (Hk & HP & Hmin).
        assert (k ≠ from) by (intros ->; congruence).
        split; [lia|]. split; [done|]. intros j Hj. apply Hmin. lia.
Qed.

Lemma search_up_None P from to :
  search_up P from to = None ↔ ∀ j, from ≤ j < to → P j = false.
Proof.
  unfold search_up. remember (to - from) as n eqn:Hn.
  revert from Hn. induction n as [|n IH]; intros from Hn; simpl.
  - split; [intros; lia | done].
  - destruct (P from) eqn:Hf.
    + split; [done|]. intros H. rewrite H in Hf; [done | lia].
    + rewrite IH by lia. split.
      * intros H j Hj. destruct (decide (j = from)) as [->|]; [done|].
        apply H. lia.
      * intros H j Hj. apply H. lia.
Qed.

Lemma search_down_last P n k :
  search_down P 0 n = Some k ↔ last_index_below P n k.
Proof.
  rewrite search_down_Some. unfold last_index_below. simpl.
  split; intros (? & ? & ?); (split; [lia|]); done.
Qed.

Lemma first_index_unique {A} (P : A → bool) l k k' :
  first_index P l k → first_index P l k' → k = k'.
Proof. intros H H'. apply findIndex_Some in H, H'. congruence. Qed.

Lemma last_index_below_unique P n k k' :
  last_index_below P n k → last_index_below P n k' → k = k'.
Proof. intros H H'. apply search_down_last in H, H'. congruence. Qed.

(** ** Area under the curve *)

Lemma auc_fold_trapezoids data l acc :
  fold_left (auc_step data) l acc
  = fold_left PrimFloat.add (omap (trapezoid_at data) l) acc.
Proof.
  revert acc. induction l as [|i l IH]; intros acc; simpl; [done|].
  rewrite IH. unfold auc_step, trapezoid_at.
  destruct (data !! i) as [row1|]; [|done].
  destruct (data !! (i + 1)) as [row2|]; [|done].
  destruct (rVO2 row1), (rVO2 row2); done.
Qed.

(** C8, as amended.  [calculateAuc] returns [null] exactly when there is no
    first index whose V'O2 reaches the start threshold, or no last index
    whose V'O2 is at most the end threshold, or the first is not before the
    last.  Otherwise it returns the sum of the trapezoids of the adjacent
    pairs inside the bracket whose two V'O2 are numbers, the [timeInSeconds]
    fields of the two bracketing rows as they are, and the two requested
    thresholds
    [vo2max * (startPercent / 100)] and [vo2max * (endPercent / 100)]. *)
Theorem calculateAuc_bracket (data : list ProcessedDataRow)
    (vo2max startPercent endPercent : float) :
  let startVo2 := (vo2max * (startPercent / 100))%float in
  let endVo2 := (vo2max * (endPercent / 100))%float in
  let is_start := first_index (reaches startVo2) data in
  let is_end := last_index_below (below_at data endVo2) (length data) in
  (calculateAuc data vo2max startPercent endPercent = None ↔
     (∀ s, ¬ is_start s) ∨ (∀ e, ¬ is_end e) ∨ (∃ s e, is_start s ∧ is_end e ∧ e ≤ s))
  ∧ (∀ s e, is_start s → is_end e → s < e →
       ∃ startRow endRow,
         data !! s = Some startRow ∧ data !! e = Some endRow
         ∧ calculateAuc data vo2max startPercent endPercent
           = Some (mkAuc (trapezoidal_integral data s e)
                     (rTimeInSeconds startRow) (rTimeInSeconds endRow) startVo2 endVo2)).
Proof.
  intros startVo2 endVo2 is_start is_end.
  assert (∀ s e, is_start s → is_end e → s < e →
       ∃ startRow endRow,
         data !! s = Some startRow ∧ data !! e = Some endRow
         ∧ calculateAuc data vo2max startPercent endPercent
           = Some (mkAuc (trapezoidal_integral data s e)
                     (rTimeInSeconds startRow) (rTimeInSeconds endRow) startVo2 endVo2))
    as Hsome.
  { intros s e Hs He Hlt.
    pose proof Hs as [(startRow & Hsr & _) _].
    pose proof He as (Hen & _ & _).
    destruct (lookup_lt_is_Some_2 data e Hen) as [endRow Her].
    exists startRow, endRow. split; [done|]. split; [done|].
    apply findIndex_Some in Hs. apply search_down_last in He.
    unfold calculateAuc. fold startVo2 endVo2. rewrite Hs, He, Hsr, Her.
    destruct (e <=? s) eqn:Hle; [apply Nat.leb_le in Hle; lia|].
    unfold trapezoidal_integral, trapezoids, sum.
    by rewrite auc_fold_trapezoids. }
  split; [|exact Hsome].
  split.
  - intros Hnone.
    destruct (findIndex (reaches startVo2) data) as [s|] eqn:Hs.
    2:{ left. intros s Hs'. apply findIndex_Some in Hs'.
        unfold is_start in *. congruence. }
    destruct (search_down (below_at data endVo2) 0 (length data)) as [e|] eqn:He.
    2:{ right. left. intros e He'. apply search_down_last in He'. congruence. }
    right. right. exists s, e.
    apply findIndex_Some in Hs. apply search_down_last in He.
    split; [done|]. split; [done|].
    destruct (decide (e ≤ s)) as [|Hlt]; [done|].
    destruct (Hsome s e Hs He) as (? & ? & _ & _ & Heq); [lia | congruence].
  - unfold calculateAuc. fold startVo2 endVo2.
    intros [Hns | [Hne | (s & e & Hs & He & Hle)]].
    + destruct (findIndex (reaches startVo2) data) as [s|] eqn:Hs; [|done].
      apply findIndex_Some in Hs. by destruct (Hns s).
    + destruct (findIndex (reaches startVo2) data) as [s|]; [|done].
      destruct (search_down (below_at data endVo2) 0 (length data)) as [e|] eqn:He;
        [|done].
      apply search_down_last in He. by destruct (Hne e).
    + apply findIndex_Some in Hs. apply search_down_last in He. rewrite Hs, He.
      by apply Nat.leb_le in Hle as ->.
Qed.

(** From 50% to 70% of a [vo2max] of 4 the bracket of [auc_sample] runs from
    row 1 to row 3. *)
Lemma calculateAuc_bracket_witness :
  ∃ startRow endRow,
    auc_sample !! 1 = Some startRow ∧ auc_sample !! 3 = Some endRow
    ∧ calculateAuc auc_sample 4 50 70
      = Some (mkAuc (trapezoidal_integral auc_sample 1 3)
                (rTimeInSeconds startRow) (rTimeInSeconds endRow)
                (4 * (50 / 100))%float (4 * (70 / 100))%float).
Proof.
  apply (proj2 (calculateAuc_bracket auc_sample 4 50 70)).
  - split; [eexists; split; reflexivity|].
    intros [|j] y Hj Hy; [|lia]. by injection Hy as <-.
  - split; [simpl; lia|]. split; [reflexivity|].
    intros j Hj. simpl in Hj. assert (j = 4) as -> by lia. reflexivity.
  - lia.
Defined.

(** C8 as stated fails on [auc_sample]: the V'O2 bounds of the result are the
    two requested thresholds (2 and 2.8 L/min), while the V'O2 of the rows
    that bracket the integral are 3 and 2.7 L/min. *)
Lemma calculateAuc_returns_requested_bounds :
  ∃ result startRow endRow,
    calculateAuc auc_sample 4 50 70 = Some result
    ∧ first_index (reaches (4 * (50 / 100))%float) auc_sample 1
    ∧ auc_sample !! 1 = Some startRow
    ∧ auc_sample !! 3 = Some endRow
    ∧ auc_startTime result = rTimeInSeconds startRow
    ∧ auc_endTime result = rTimeInSeconds endRow
    ∧ rVO2 startRow = Num 3
    ∧ rVO2 endRow = Num 2.7
    ∧ auc_startVo2 result = 2%float
    ∧ auc_endVo2 result = (4 * (70 / 100))%float
    ∧ Num (auc_startVo2 result) ≠ rVO2 startRow
    ∧ Num (auc_endVo2 result) ≠ rVO2 endRow.
Proof.
  eexists _, _, _. split; [vm_compute; reflexivity|].
  split.
  { split; [eexists; split; reflexivity|].
    intros [|j] y Hj Hy; [|lia]. by injection Hy as <-. }
  repeat (split; [reflexivity|]).
  split; vm_compute; intros [= H]; revert H; apply Bool.eq_true_false_abs;
    vm_compute; reflexivity.
Qed.

(** ** Percentile extraction *)

Lemma percentage_fold data v ps result seen :
  NoDup ps → (∀ i, i ∈ ps → i ∉ seen) →
  (fold_left (percentage_step data v) ps (result, seen)).1
  = result ++ omap (emitted data v) ps.
Proof.
  revert result seen. induction ps as [|i ps IH]; intros result seen Hnd Hseen; simpl.
  - by rewrite app_nil_r.
  - apply NoDup_cons in Hnd as [Hi Hnd].
    assert (i ∉ seen) as Hfresh by (apply Hseen; left).
    unfold emitted at 1.
    destruct (findIndex (reaches (threshold_of v i)) data) as [k|] eqn:Hk; simpl.
    + rewrite bool_decide_eq_false_2 by done. simpl.
      destruct (data !! k) as [row|] eqn:Hrow; simpl.
      * rewrite IH; [by rewrite <- app_assoc | done |].
        intros j Hj. assert (j ≠ i) by (intros ->; done).
        specialize (Hseen j (list_elem_of_further _ _ _ Hj)).
        rewrite elem_of_union, elem_of_singleton. by intros [?|?].
      * apply IH; [done|]. intros j Hj. apply Hseen. by right.
    + apply IH; [done|]. intros j Hj. apply Hseen. by right.
Qed.

Lemma percentages_sorted : StronglySorted lt percentages.
Proof. repeat constructor; lia. Qed.

Lemma percentages_NoDup : NoDup percentages.
Proof.
  assert (∀ l, StronglySorted lt l → NoDup l) as H.
  { induction 1 as [|x l Hs IH Hall]; constructor; [|done].
    intros Hx. rewrite Forall_forall in Hall. specialize (Hall x Hx). lia. }
  apply H, percentages_sorted.
Qed.

Lemma percentage_rows_emitted data metrics :
  percentage_rows data metrics = omap (emitted data (vo2max metrics)) percentages.
Proof.
  unfold percentage_rows. destruct data as [|r data]; simpl length.
  - simpl. by induction percentages.
  - change (S (length data) =? 0) with false. cbv iota.
    rewrite percentage_fold; [done | apply percentages_NoDup | set_solver].
Qed.

Lemma emitted_fst data v i p : emitted data v i = Some p → p.1 = i.
Proof.
  unfold emitted. intros H.
  destruct (findIndex _ data) as [k|]; simpl in H; [|done].
  destruct (data !! k); simpl in H; by simplify_eq.
Qed.

Lemma omap_fst_sorted {B} (f : nat → option (nat * B)) l :
  (∀ i p, f i = Some p → p.1 = i) →
  StronglySorted lt l → StronglySorted lt (omap f l).*1.
Proof.
  intros Hf. induction 1 as [|x l Hs IH Hall]; simpl; [constructor|].
  destruct (f x) as [p|] eqn:Hp; simpl; [|done].
  constructor; [done|]. rewrite (Hf _ _ Hp).
  rewrite Forall_forall in Hall. apply Forall_forall. intros j Hj.
  apply list_elem_of_fmap in Hj as (q & -> & Hq).
  apply list_elem_of_omap in Hq as (i & Hi & Hq).
  rewrite (Hf _ _ Hq). by apply Hall.
Qed.

Lemma StronglySorted_lookup {A} (R : A → A → Prop) l a b x y :
  StronglySorted R l → a < b → l !! a = Some x → l !! b = Some y → R x y.
Proof.
  intros Hs. revert a b. induction Hs as [|z l Hs IH Hall]; intros a b Hab Ha Hb.
  - by rewrite lookup_nil in Ha.
  - destruct b as [|b]; [lia|]. simpl in Hb. destruct a as [|a]; simpl in Ha.
    + simplify_eq. rewrite Forall_forall in Hall. apply Hall.
      by eapply list_elem_of_lookup_2.
    + eapply IH; [|done..]. lia.
Qed.

Lemma emitted_elem data v i row :
  (i, row) ∈ omap (emitted data v) percentages ↔
  i ∈ percentages ∧ ∃ k r,
    first_index (reaches (threshold_of v i)) data k ∧ data !! k = Some r
    ∧ row = with_percentage r (percent_label i).
Proof.
  rewrite list_elem_of_omap. split.
  - intros (j & Hj & Hem). pose proof (emitted_fst _ _ _ _ Hem) as Hfst.
    simpl in Hfst. subst j. split; [done|]. unfold emitted in Hem.
    destruct (findIndex _ data) as [k|] eqn:Hk; simpl in Hem; [|done].
    destruct (data !! k) as [r|] eqn:Hr; simpl in Hem; [|done].
    exists k, r. apply findIndex_Some in Hk. by simplify_eq.
  - intros (Hi & k & r & Hk & Hr & ->). exists i. split; [done|].
    unfold emitted. apply findIndex_Some in Hk. rewrite Hk. simpl. by rewrite Hr.
Qed.

Lemma timeInSeconds_with_percentage r l :
  timeInSeconds (with_percentage r l) = timeInSeconds r.
Proof. done. Qed.

(** C9, as amended.  The rows the percentile extractor returns stand for
    strictly increasing percentages out of 10, 20, ..., 100, so at most one
    row per percentage, in ascending order.  The row for the percentage [i]
    is the first row whose V'O2 reaches [vo2max * (i / 100)], labelled
    [i%]; a percentage that no row reaches is skipped.  [timeInSeconds] need
    not increase from one returned row to the next; it does not decrease
    when the rows of the series are in time order and the thresholds do not
    decrease with [i]. *)
Theorem percentile_rows_ordered (data : list ProcessedDataRow) (metrics : KeyMetrics) :
  let v := vo2max metrics in
  let es := percentage_rows data metrics in
  extractPercentageDataForMetrics data metrics = es.*2
  ∧ StronglySorted lt es.*1
  ∧ (∀ i row, (i, row) ∈ es ↔
       i ∈ percentages ∧ ∃ k r,
         first_index (reaches (threshold_of v i)) data k ∧ data !! k = Some r
         ∧ row = with_percentage r (percent_label i))
  ∧ (∀ i, (∀ r, r ∈ data → reaches (threshold_of v i) r = false) → i ∉ es.*1)
  ∧ ((∀ a b ra rb, a ≤ b → data !! a = Some ra → data !! b = Some rb →
        (timeInSeconds ra <=? timeInSeconds rb)%float = true) →
     (∀ i j, i ∈ percentages → j ∈ percentages → i ≤ j →
        (threshold_of v i <=? threshold_of v j)%float = true) →
     ∀ a b p q, a < b → es !! a = Some p → es !! b = Some q →
       (timeInSeconds p.2 <=? timeInSeconds q.2)%float = true).
Proof.
  intros v es.
  assert (es = omap (emitted data v) percentages) as Hes
    by apply percentage_rows_emitted.
  assert (StronglySorted lt es.*1) as Hsorted.
  { rewrite Hes. apply omap_fst_sorted; [apply emitted_fst | apply percentages_sorted]. }
  assert (∀ i row, (i, row) ∈ es ↔
       i ∈ percentages ∧ ∃ k r,
         first_index (reaches (threshold_of v i)) data k ∧ data !! k = Some r
         ∧ row = with_percentage r (percent_label i)) as Helem.
  { intros i row. rewrite Hes. apply emitted_elem. }
  split; [done|]. split; [done|]. split; [done|]. split.
  - intros i Hnone Hi. apply list_elem_of_fmap in Hi as ([i' row] & -> & Hin).
    apply Helem in Hin as (_ & k & r & [(x & Hx & Hreach) _] & _).
    rewrite Hnone in Hreach; [done|]. by eapply list_elem_of_lookup_2.
  - intros Htime Hth a b [i ri] [j rj] Hab Ha Hb. simpl.
    assert (i < j) as Hij.
    { eapply (StronglySorted_lookup lt es.*1 a b); [done..| |].
      - by rewrite list_lookup_fmap, Ha.
      - by rewrite list_lookup_fmap, Hb. }
    apply list_elem_of_lookup_2, Helem in Ha as (Hi & ki & r1 & Hki & Hr1 & ->).
    apply list_elem_of_lookup_2, Helem in Hb as (Hj & kj & r2 & Hkj & Hr2 & ->).
    rewrite !timeInSeconds_with_percentage.
    apply (Htime ki kj); [|done..].
    destruct (decide (ki ≤ kj)) as [|Hgt]; [done|].
    destruct Hki as [_ Hmin]. destruct Hkj as [(x & Hx & Hreach) _].
    assert (x = r2) as -> by congruence.
    specialize (Hmin kj r2 ltac:(lia) Hr2).
    unfold reaches in *. destruct (rVO2 r2) as [| |vo2]; try done.
    rewrite (FloatOrder.leb_trans _ (threshold_of v j) _) in Hmin; [done| |done].
    apply Hth; [done..|lia].
Qed.

(** On [percentile_sample] the rows for 50% and 60% are rows 0 and 1. *)
Lemma percentile_rows_ordered_witness :
  ∃ p q,
    percentage_rows percentile_sample percentile_metrics !! 4 = Some p
    ∧ percentage_rows percentile_sample percentile_metrics !! 5 = Some q
    ∧ (timeInSeconds p.2 <=? timeInSeconds q.2)%float = true.
Proof.
  eexists _, _. split; [reflexivity|]. split; [reflexivity|].
  eapply (proj2 (proj2 (proj2 (proj2
            (percentile_rows_ordered percentile_sample percentile_metrics)))))
    with (a := 4) (b := 5); [| |lia|reflexivity|reflexivity].
  - intros a b ra rb Hab Ha Hb.
    destruct a as [|[|a]], b as [|[|b]]; simpl in Ha, Hb; simplify_eq;
      (lia || reflexivity).
  - intros i j Hi Hj Hij. unfold percentages in Hi, Hj. simpl in Hi, Hj.
    rewrite !elem_of_cons, elem_of_nil in Hi, Hj.
    destruct_or!; subst; (lia || done || reflexivity).
Defined.

(** C9 as stated fails on [percentile_sample]: the rows for 10% and 20% are
    both the first row of the series, so [timeInSeconds] does not increase
    from one to the next. *)
Lemma percentile_rows_time_not_strict :
  ∃ r10 r20,
    extractPercentageDataForMetrics percentile_sample percentile_metrics !! 0 = Some r10
    ∧ extractPercentageDataForMetrics percentile_sample percentile_metrics !! 1 = Some r20
    ∧ VO2_pct_max r10 = Some "10%"%string
    ∧ VO2_pct_max r20 = Some "20%"%string
    ∧ (timeInSeconds r10 <? timeInSeconds r20)%float = false.
Proof. eexists _, _. repeat split; reflexivity. Qed.

(** ** Stage summaries and the plateau decision *)

Lemma summarize_length data n index previousAvgVo2 stages :
  length (summarize data n index previousAvgVo2 stages) = length stages.
Proof.
  revert index previousAvgVo2.
  induction stages as [|stage rest IH]; intros index previousAvgVo2; simpl; [done|].
  destruct (stage_average data stage (index =? n - 1)). simpl. by rewrite IH.
Qed.

(** The summary at position [k] is the one of the stage at position [k]: its
    number, its duration, and the average of its terminal window. *)
Lemma summarize_lookup data n index previousAvgVo2 stages k s :
  summarize data n index previousAvgVo2 stages !! k = Some s →
  ∃ stage_k,
    stages !! k = Some stage_k
    ∧ stage s = index + k + 1
    ∧ duration s = (endTime stage_k - startTime stage_k)%float
    ∧ (avgVo2 s, isPartial s) = stage_average data stage_k (index + k =? n - 1).
Proof.
  revert index previousAvgVo2 k.
  induction stages as [|st rest IH]; intros index previousAvgVo2 k; simpl; [done|].
  destruct (stage_average data st (index =? n - 1)) as [avg partial] eqn:Havg.
  destruct k as [|k]; simpl.
  - intros [= <-]. exists st. simpl. rewrite !Nat.add_0_r. by rewrite Havg.
  - intros Hk. apply IH in Hk as (stage_k & ? & ? & ? & ?).
    exists stage_k. replace (index + S k) with (S index + k) by lia.
    repeat split; [done | lia | done | done].
Qed.

Lemma summarize_delta_first data n index previousAvgVo2 stages s :
  summarize data n index previousAvgVo2 stages !! 0 = Some s →
  deltaVo2 s = delta_of (if 0 <? index then Some previousAvgVo2 else None) (avgVo2 s).
Proof.
  destruct stages as [|st rest]; simpl; [done|].
  destruct (stage_average data st (index =? n - 1)) as [avg partial].
  intros [= <-]. simpl. by destruct (0 <? index).
Qed.

Lemma summarize_delta_next data n index previousAvgVo2 stages k prev cur :
  summarize data n index previousAvgVo2 stages !! k = Some prev →
  summarize data n index previousAvgVo2 stages !! S k = Some cur →
  deltaVo2 cur = delta_of (Some (avgVo2 prev)) (avgVo2 cur).
Proof.
  revert index previousAvgVo2 k.
  induction stages as [|st rest IH]; intros index previousAvgVo2 k; simpl; [done|].
  destruct (stage_average data st (index =? n - 1)) as [avg partial].
  destruct k as [|k]; simpl.
  - intros [= <-] Hcur. apply summarize_delta_first in Hcur. by rewrite Hcur.
  - apply IH.
Qed.

Lemma last_lookup_length {A} (l : list A) : last l = l !! (length l - 1).
Proof. rewrite last_lookup. f_equal. lia. Qed.

(** [data.find(P)] is the row at the first index that satisfies [P]. *)
Lemma find_first_index {A} (P : A → bool) l :
  match List.find P l with
  | Some x => ∃ k, first_index P l k ∧ l !! k = Some x
  | None => ∀ k, ¬ first_index P l k
  end.
Proof.
  induction l as [|y l IH]; simpl.
  - intros k [(x & Hx & _) _]. by rewrite lookup_nil in Hx.
  - destruct (P y) eqn:Hy.
    + exists 0. split; [|done]. split; [by exists y|]. intros; lia.
    + destruct (List.find P l) as [x|].
      * destruct IH as (k & [Hex Hmin] & Hk). exists (S k). split; [|done].
        split; [done|]. intros [|j] z Hj Hz; simpl in Hz; [by simplify_eq|].
        eapply Hmin; [|done]. lia.
      * intros [|k] [(x & Hx & HPx) Hmin]; simpl in Hx; [simplify_eq; congruence|].
        apply (IH k). split; [by exists x|].
        intros j z Hj Hz. apply (Hmin (S j) z); [lia | done].
Qed.

Lemma plateauTime_of_first data lastStageStartTime :
  let P := fun d => (lastStageStartTime <=? timeInSeconds d)%float in
  (∀ k row, first_index P data k → data !! k = Some row → t row ≠ ""%string →
     plateauTime_of data lastStageStartTime = Some (t row))
  ∧ ((∀ k row, first_index P data k → data !! k = Some row → t row = ""%string) →
     plateauTime_of data lastStageStartTime = t <$> last data).
Proof.
  intros P. unfold plateauTime_of. fold P.
  pose proof (find_first_index P data) as Hfind.
  destruct (List.find P data) as [point|].
  - destruct Hfind as (k0 & Hk0 & Hpoint). split.
    + intros k row Hk Hrow Hne.
      assert (k = k0) as -> by eauto using first_index_unique.
      assert (row = point) as -> by congruence.
      by apply String.eqb_neq in Hne as ->.
    + intros Hempty. rewrite (Hempty k0 point Hk0 Hpoint). done.
  - split; [|done]. intros k row Hk. by destruct (Hfind k).
Qed.

Lemma plateau_of_spec data stages summ :
  length summ = length stages →
  ∃ reached ptime comp,
    plateau_of data stages summ = (reached, ptime, comp)
    ∧ (reached = true ↔
         2 ≤ length summ ∧ ∃ lst d,
           last summ = Some lst ∧ deltaVo2 lst = Some d ∧ (d <? 0.15)%float = true)
    ∧ (reached = true →
         ∃ prev lst lastStage,
           summ !! (length summ - 2) = Some prev ∧ last summ = Some lst
           ∧ last stages = Some lastStage
           ∧ ptime = plateauTime_of data (startTime lastStage)
           ∧ comp = Some (mkComparison (avgVo2 prev) (avgVo2 lst)))
    ∧ (reached = false → ptime = None ∧ comp = None).
Proof.
  intros Hlen. unfold plateau_of.
  destruct (2 <=? length summ) eqn:H2.
  2:{ apply Nat.leb_gt in H2. exists false, None, None.
      repeat split; try done. intros [? _]. lia. }
  apply Nat.leb_le in H2.
  destruct (lookup_lt_is_Some_2 summ (length summ - 1) ltac:(lia)) as [lst Hlst].
  destruct (lookup_lt_is_Some_2 summ (length summ - 2) ltac:(lia)) as [prev Hprev].
  destruct (lookup_lt_is_Some_2 stages (length stages - 1) ltac:(lia))
    as [lastStage Hstage].
  rewrite !last_lookup_length, Hlst, Hprev, Hstage.
  destruct (deltaVo2 lst) as [d|] eqn:Hd.
  - destruct (d <? 0.15)%float eqn:Hlt.
    + eexists true, _, _. split; [done|]. split; [|split; [|done]].
      * split; [|done]. intros _. split; [done|]. by exists lst, d.
      * intros _. by exists prev, lst, lastStage.
    + exists false, None, None. repeat split; try done.
      intros (_ & lst' & d' & [= <-] & Hd' & Hlt'). congruence.
  - exists false, None, None. repeat split; try done.
    intros (_ & lst' & d' & [= <-] & Hd' & _). congruence.
Qed.

(** [calculateKeyMetricsForData] returns unless the loop that builds the
    stages never ends, which takes a bound above 2^53 stages. *)
Lemma calculateKeyMetricsForData_returns data :
  calculateKeyMetricsForData data = None ↔
  ∃ lastRow,
    last data = Some lastRow
    ∧ JS.loop_count
        (JS.Math_ceil (timeInSeconds lastRow / STAGE_DURATION_SECONDS)%float) = None.
Proof.
  unfold calculateKeyMetricsForData, stages_of.
  destruct data as [|r data]; [split; [done | by intros (? & ? & _)]|].
  change (length (r :: data) =? 0) with false. cbv iota.
  destruct (last (r :: data)) as [lastRow|] eqn:Hlast.
  - destruct (JS.loop_count _) as [n|] eqn:Hn; simpl.
    + destruct (plateau_of _ _ _) as [[? ?] ?]. split; [done|].
      intros (? & [= <-] & ?). congruence.
    + split; [|done]. intros _. by exists lastRow.
  - by apply last_None in Hlast.
Qed.

(** C3.  [plateauReached] is true exactly when there are at least two stage
    summaries and the delta of the last one is not null and below 0.15.  That
    delta is the difference of the last two averages when both are strictly
    positive, and null otherwise; each average is the one of the terminal
    window of its stage.  [isPeak] is the negation of [plateauReached].  On a
    plateau, [plateauTime] is the label of the first row at or after the start
    of the last stage, or the label of the final row when there is no such
    row or its label is empty, and [plateauComparison] holds the last two
    averages. *)
Theorem plateau_decision (data : list ProcessedDataRow) (m : KeyMetrics) :
  calculateKeyMetricsForData data = Some m →
  isPeak m = negb (plateauReached m)
  ∧ (plateauReached m = true ↔
       ∃ summ lst d,
         plateauStageSummary m = Some summ ∧ 2 ≤ length summ
         ∧ last summ = Some lst ∧ deltaVo2 lst = Some d ∧ (d <? 0.15)%float = true)
  ∧ (∀ summ prev lst,
       plateauStageSummary m = Some summ → 2 ≤ length summ →
       summ !! (length summ - 2) = Some prev → last summ = Some lst →
       deltaVo2 lst = delta_of (Some (avgVo2 prev)) (avgVo2 lst)
       ∧ (plateauReached m = true →
          plateauComparison m = Some (mkComparison (avgVo2 prev) (avgVo2 lst))))
  ∧ (∀ summ k s,
       plateauStageSummary m = Some summ → summ !! k = Some s →
       ∃ stages stage_k,
         stages_of data = Some stages ∧ length summ = length stages
         ∧ stages !! k = Some stage_k
         ∧ (avgVo2 s, isPartial s)
           = stage_average data stage_k (k =? length stages - 1))
  ∧ (plateauReached m = true →
       ∃ stages lastStage,
         stages_of data = Some stages ∧ last stages = Some lastStage
         ∧ let at_or_after := fun d => (startTime lastStage <=? timeInSeconds d)%float in
           (∀ k row, first_index at_or_after data k → data !! k = Some row →
              t row ≠ ""%string → plateauTime m = Some (t row))
           ∧ ((∀ k row, first_index at_or_after data k → data !! k = Some row →
                 t row = ""%string) →
              plateauTime m = t <$> last data)).
Proof.
  unfold calculateKeyMetricsForData.
  destruct data as [|r0 data0].
  { intros [= <-]. simpl. split; [done|]. split.
    - split; [done|]. by intros (? & ? & ? & ? & _).
    - repeat split; try done. }
  change (length (r0 :: data0) =? 0) with false. cbv iota.
  set (data := r0 :: data0).
  destruct (stages_of data) as [stages|] eqn:Hstages; simpl; [|done].
  assert (length (summary_of data stages) = length stages) as Hlen
    by apply summarize_length.
  destruct (plateau_of_spec data stages _ Hlen)
    as (reached & ptime & comp & -> & Hiff & Htrue & Hfalse).
  intros [= <-]. simpl.
  split; [done|]. split; [|split; [|split]].
  - rewrite Hiff. split.
    + intros (H2 & lst & d & ? & ? & ?). by exists (summary_of data stages), lst, d.
    + intros (summ & lst & d & [= <-] & ? & ? & ? & ?). split; [done|]. by exists lst, d.
  - intros summ prev lst [= <-] H2 Hprev Hlst. split.
    + rewrite last_lookup_length in Hlst.
      replace (length (summary_of data stages) - 1)
        with (S (length (summary_of data stages) - 2)) in Hlst by lia.
      by eapply summarize_delta_next.
    + intros Hr. destruct (Htrue Hr) as (prev' & lst' & ? & Hprev' & Hlst' & _ & _ & ->).
      congruence.
  - intros summ k s [= <-] Hs. apply summarize_lookup in Hs as (stage_k & ? & _ & _ & ?).
    by exists stages, stage_k.
  - intros Hr. destruct (Htrue Hr) as (_ & _ & lastStage & _ & _ & ? & -> & _).
    exists stages, lastStage. split; [done|]. split; [done|].
    apply plateauTime_of_first.
Qed.

Lemma plateau_decision_witness :
  ∃ m, calculateKeyMetricsForData plateau_sample = Some m
       ∧ plateauReached m = true ∧ isPeak m = false
       ∧ plateauTime m = Some "36"%string.
Proof.
  assert (∃ m, calculateKeyMetricsForData plateau_sample = Some m
               ∧ plateauReached m = true ∧ plateauTime m = Some "36"%string)
    as (m & Hm & Hreached & Htime)
    by (vm_compute; eexists; repeat split; reflexivity).
  exists m. pose proof (plateau_decision plateau_sample m Hm) as (Hpeak & _).
  repeat split; [done..| |done]. by rewrite Hpeak, Hreached.
Defined.

(** ** The final row and the stage averages *)

(** No stage ends after the total duration. *)
Lemma build_stages_endTime totalDuration n stage :
  stage ∈ build_stages totalDuration n →
  (totalDuration <? endTime stage)%float = false.
Proof.
  unfold build_stages. rewrite list_elem_of_In, in_flat_map.
  intros (i & _ & Hin). unfold stage_at in Hin.
  destruct (_ <? _)%float; [|done].
  destruct Hin as [<-|[]]. simpl. apply FloatOrder.Math_min_not_above.
Qed.

Lemma stages_of_endTime init lastRow stages stage :
  stages_of (init ++ [lastRow]) = Some stages → stage ∈ stages →
  (timeInSeconds lastRow <? endTime stage)%float = false.
Proof.
  unfold stages_of. rewrite last_snoc.
  destruct (JS.loop_count _) as [n|]; simpl; [|done].
  intros [= <-]. apply build_stages_endTime.
Qed.

Lemma filter_snoc_false {A} (P : A → bool) l x :
  P x = false → List.filter P (l ++ [x]) = List.filter P l.
Proof. intros HP. rewrite List.filter_app. simpl. rewrite HP. apply app_nil_r. Qed.

Section final_row.
Context (init : list ProcessedDataRow) (lastRow : ProcessedDataRow) (stage : Stage).
Hypothesis Hend : (timeInSeconds lastRow <? endTime stage)%float = false.

Lemma stageData_of_snoc :
  stageData_of (init ++ [lastRow]) stage = stageData_of init stage.
Proof.
  unfold stageData_of. apply filter_snoc_false. rewrite Hend. apply andb_false_r.
Qed.

Lemma window_rows_snoc isLastStage :
  window_rows (init ++ [lastRow]) stage isLastStage
  = window_rows init stage isLastStage.
Proof.
  unfold window_rows. rewrite stageData_of_snoc.
  rewrite filter_snoc_false; [done|]. rewrite Hend. apply andb_false_r.
Qed.

Lemma stage_average_snoc isLastStage :
  stage_average (init ++ [lastRow]) stage isLastStage
  = stage_average init stage isLastStage.
Proof. unfold stage_average. by rewrite stageData_of_snoc, window_rows_snoc. Qed.
End final_row.

Lemma summarize_snoc init lastRow n index previousAvgVo2 stages :
  (∀ stage, stage ∈ stages →
     (timeInSeconds lastRow <? endTime stage)%float = false) →
  summarize (init ++ [lastRow]) n index previousAvgVo2 stages
  = summarize init n index previousAvgVo2 stages.
Proof.
  revert index previousAvgVo2.
  induction stages as [|stage rest IH]; intros index previousAvgVo2 Hend; simpl; [done|].
  rewrite stage_average_snoc by (apply Hend; left).
  destruct (stage_average init stage (index =? n - 1)) as [avg partial].
  rewrite IH; [done|]. intros st Hst. apply Hend. by right.
Qed.

(** Every row whose V'O2 enters the average of a stage is strictly before
    the end of the stage. *)
Lemma window_rows_before_end data stage isLastStage r :
  r ∈ (window_rows data stage isLastStage).1 →
  r ∈ data ∧ (timeInSeconds r <? endTime stage)%float = true.
Proof.
  unfold window_rows, stageData_of. rewrite list_elem_of_In.
  destruct (isLastStage && _)%bool; [destruct (30 <? _)%float|]; simpl;
    rewrite ?filter_In, <- ?list_elem_of_In; intros H; destruct_and!;
    repeat match goal with H : (_ && _)%bool = true |- _ =>
             apply andb_true_iff in H as [? ?] end; done.
Qed.

(** C10.  On a non-empty series [init ++ [lastRow]], no stage ends after the
    time of the final row, every row averaged for a stage is strictly before
    the end of that stage, and so the final row is in no averaging window:
    the average of every stage, and the whole list of stage summaries, are
    the ones computed from the rows before the final row. *)
Theorem final_row_excluded (init : list ProcessedDataRow) (lastRow : ProcessedDataRow)
    (stages : list Stage) :
  let data := init ++ [lastRow] in
  stages_of data = Some stages →
  (∀ stage, stage ∈ stages →
     (timeInSeconds lastRow <? endTime stage)%float = false
     ∧ ∀ isLastStage,
         (∀ r, r ∈ (window_rows data stage isLastStage).1 →
            (timeInSeconds r <? endTime stage)%float = true
            ∧ timeInSeconds r ≠ timeInSeconds lastRow)
         ∧ window_rows data stage isLastStage = window_rows init stage isLastStage
         ∧ stage_average data stage isLastStage = stage_average init stage isLastStage)
  ∧ summary_of data stages = summary_of init stages.
Proof.
  intros data Hstages. split.
  - intros stage Hstage.
    pose proof (stages_of_endTime _ _ _ _ Hstages Hstage) as Hend.
    split; [done|]. intros isLastStage. split; [|split].
    + intros r [_ Hr]%window_rows_before_end. split; [done|].
      intros Heq. rewrite Heq in Hr. congruence.
    + by apply window_rows_snoc.
    + by apply stage_average_snoc.
  - apply summarize_snoc. intros stage Hstage. by eapply stages_of_endTime.
Qed.

(** On [plateau_sample] the final row, at 390 s, is not averaged; the last
    stage ends at 390 s. *)
Lemma final_row_excluded_witness :
  ∃ stages,
    stages_of plateau_sample = Some stages
    ∧ endTime <$> last stages = Some 390%float
    ∧ summary_of plateau_sample stages
      = summary_of (Sample.series (repeat (Num 2) 39)) stages.
Proof.
  assert (∃ stages, stages_of plateau_sample = Some stages
                    ∧ endTime <$> last stages = Some 390%float)
    as (stages & Hstages & Hend)
    by (vm_compute; eexists; split; reflexivity).
  exists stages. split; [done|]. split; [done|].
  apply (final_row_excluded (Sample.series (repeat (Num 2) 39))
           (Sample.row "39" 390 (Num 2)) stages Hstages).
Defined.

(** ** Outlier detection: the 3SD scan of one channel *)

Lemma sd_scan_step_cases i col mean stdDev st j :
  (sd_scan_step i col mean stdDev st j = st
   ∧ ∀ row v, rows st !! j = Some row → get col row = Num v →
       outside_band mean stdDev v = false)
  ∨ ∃ row v,
      rows st !! j = Some row ∧ get col row = Num v
      ∧ outside_band mean stdDev v = true
      ∧ sd_scan_step i col mean stdDev st j
        = log_removal j col row v (ThreeSD (i + 1) mean stdDev) st.
Proof.
  unfold sd_scan_step.
  destruct (rows st !! j) as [row|] eqn:Hrow; [|by left].
  destruct (get col row) as [| |v] eqn:Hv; [left; split; [done|]; congruence..|].
  destruct (outside_band mean stdDev v) eqn:Hout.
  - right. by exists row, v.
  - left. split; [done|]. congruence.
Qed.

Lemma hr_step_cases i st j :
  hr_step i st j = st
  ∨ ∃ row hr rs,
      rows st !! j = Some row ∧ get HR row = Num hr
      ∧ hr_reason i (rows st) j row hr = Some rs
      ∧ hr_step i st j = log_removal j HR row hr rs st.
Proof.
  unfold hr_step.
  destruct (rows st !! j) as [row|] eqn:Hrow; [|by left].
  destruct (rHR row) as [| |hr] eqn:Hhr; [by left..|].
  destruct (hr_reason i (rows st) j row hr) as [rs|] eqn:Hrs; [|by left].
  right. by exists row, hr, rs.
Qed.

Section three_sd_scan.
Context (i : nat) (col : Col) (mean stdDev : float).

Lemma sd_scan_step_other st j j' :
  j ≠ j' → rows (sd_scan_step i col mean stdDev st j) !! j' = rows st !! j'.
Proof.
  intros Hne. destruct (sd_scan_step_cases i col mean stdDev st j)
    as [[-> _]|(row & v & _ & _ & _ & ->)]; [done|].
  simpl. by rewrite list_lookup_insert_ne.
Qed.

Lemma sd_scan_step_entry st j key e :
  auditMap st !! key = Some e → scan_entry i col mean stdDev key e →
  ∃ e', auditMap (sd_scan_step i col mean stdDev st j) !! key = Some e'
        ∧ scan_entry i col mean stdDev key e'.
Proof.
  intros He Hgood. destruct (sd_scan_step_cases i col mean stdDev st j)
    as [[-> _]|(row & v & _ & _ & _ & ->)]; [by exists e|].
  simpl. destruct (decide (logKey (t row) (col_name col) = key)) as [<-|Hne].
  - rewrite lookup_insert_eq. eexists. split; [done|]. by repeat split.
  - rewrite lookup_insert_ne by done. by exists e.
Qed.

Lemma sd_scan_fold_entry l st key e :
  auditMap st !! key = Some e → scan_entry i col mean stdDev key e →
  ∃ e', auditMap (fold_left (sd_scan_step i col mean stdDev) l st) !! key = Some e'
        ∧ scan_entry i col mean stdDev key e'.
Proof.
  revert st e. induction l as [|j l IH]; intros st e He Hgood; simpl; [by exists e|].
  destruct (sd_scan_step_entry st j key e He Hgood) as (e1 & He1 & Hgood1).
  by eapply IH.
Qed.

Lemma sd_scan_fold_other l st j :
  j ∉ l → rows (fold_left (sd_scan_step i col mean stdDev) l st) !! j = rows st !! j.
Proof.
  revert st. induction l as [|j0 l IH]; intros st Hj; simpl; [done|].
  apply not_elem_of_cons in Hj as [Hne Hj].
  rewrite IH by done. by apply sd_scan_step_other.
Qed.

(** The scan over distinct indices: a number outside the band is nulled and
    logged, everything else is kept. *)
Lemma sd_scan_fold_at l st j row :
  NoDup l → j ∈ l → rows st !! j = Some row →
  let st' := fold_left (sd_scan_step i col mean stdDev) l st in
  match get col row with
  | Num v =>
      if outside_band mean stdDev v then
        rows st' !! j = Some (set col Null row)
        ∧ ∃ e, auditMap st' !! logKey (t row) (col_name col) = Some e
               ∧ scan_entry i col mean stdDev (logKey (t row) (col_name col)) e
      else rows st' !! j = Some row
  | _ => rows st' !! j = Some row
  end.
Proof.
  revert st. induction l as [|j0 l IH]; intros st Hnd Hj Hrow; simpl.
  { by apply elem_of_nil in Hj. }
  apply NoDup_cons in Hnd as [Hj0 Hnd].
  destruct (decide (j = j0)) as [->|Hne].
  - rewrite sd_scan_fold_other by done.
    destruct (sd_scan_step_cases i col mean stdDev st j0)
      as [[Heq Hin]|(row' & v & Hrow' & Hv & Hout & Heq)].
    + rewrite Heq, Hrow. destruct (get col row) as [| |v] eqn:Hv; try done.
      by rewrite (Hin row v).
    + assert (row' = row) as -> by congruence. rewrite Hv, Hout. split.
      * rewrite Heq. simpl. apply list_lookup_insert_eq. by eapply lookup_lt_Some.
      * apply (sd_scan_fold_entry l _ _
                 (mkEntry (t row) (col_name col) v (ThreeSD (i + 1) mean stdDev)
                    REMOVED None)).
        -- rewrite Heq. simpl. apply lookup_insert_eq.
        -- by repeat split.
  - apply elem_of_cons in Hj as [?|Hj]; [done|].
    apply IH; [done..|]. by rewrite sd_scan_step_other.
Qed.

End three_sd_scan.

(** The 3SD rule on one channel of a stage [stageData] with at least 2
    numbers among the rows after the first 3: a number at a row from index 3
    on that lies below [mean - 3 * stdDev] or above [mean + 3 * stdDev] is
    set to [null] and logged under its (time, channel) key as [REMOVED], with
    a reason holding the 1-based stage number, the mean and the standard
    deviation; every other value of those rows stays, and so do the first 3
    rows. *)
Lemma three_sd_rule (i : nat) (col : Col) (st : CleanState) :
  let stageData := rows st in
  let values := stage_values col stageData in
  let mean := mean_of values in
  let stdDev := stdDev_of values in
  let st' := sd_col i st col in
  2 ≤ length values →
  (∀ j, j < 3 → rows st' !! j = stageData !! j)
  ∧ (∀ j row, 3 ≤ j → stageData !! j = Some row →
       match get col row with
       | Num v =>
           if outside_band mean stdDev v then
             rows st' !! j = Some (set col Null row)
             ∧ ∃ e, auditMap st' !! logKey (t row) (col_name col) = Some e
                    ∧ action e = REMOVED
                    ∧ reason e = ThreeSD (i + 1) mean stdDev
                    ∧ column e = col_name col
                    ∧ logKey (time e) (column e) = logKey (t row) (col_name col)
           else rows st' !! j = Some row
       | _ => rows st' !! j = Some row
       end).
Proof.
  intros stageData values mean stdDev st' Hlen.
  assert (st' = fold_left (sd_scan_step i col mean stdDev)
                  (seq 3 (length stageData - 3)) st) as ->.
  { unfold st', sd_col. fold stageData values.
    destruct (length values <? 2) eqn:Hlt; [apply Nat.ltb_lt in Hlt; lia | done]. }
  split.
  - intros j Hj. apply sd_scan_fold_other. rewrite elem_of_seq. lia.
  - intros j row Hj Hrow.
    pose proof (lookup_lt_Some _ _ _ Hrow) as Hlt.
    pose proof (sd_scan_fold_at i col mean stdDev (seq 3 (length stageData - 3))
                  st j row (NoDup_seq _ _)) as Hat.
    simpl in Hat. apply Hat; [|done]. rewrite elem_of_seq. lia.
Qed.


(** ** The detection phase and the final partial stage *)

Lemma fold_left_preserves {A B} (f : A → B → A) (P : A → Prop) l a :
  (∀ a b, P a → P (f a b)) → P a → P (fold_left f l a).
Proof.
  intros Hf. revert a. induction l as [|b l IH]; intros a Ha; simpl; [done|].
  by apply IH, Hf.
Qed.

Lemma log_removal_length j col row v rs st :
  length (rows (log_removal j col row v rs st)) = length (rows st).
Proof. apply length_insert. Qed.

Lemma sd_scan_step_length i col mean stdDev st j :
  length (rows (sd_scan_step i col mean stdDev st j)) = length (rows st).
Proof.
  destruct (sd_scan_step_cases i col mean stdDev st j)
    as [[-> _]|(row & v & _ & _ & _ & ->)]; [done | apply log_removal_length].
Qed.

Lemma sd_col_length i st col : length (rows (sd_col i st col)) = length (rows st).
Proof.
  unfold sd_col. destruct (_ <? 2); [done|].
  apply (fold_left_preserves _ (fun s => length (rows s) = length (rows st))); [|done].
  intros s j Hs. by rewrite sd_scan_step_length.
Qed.

Lemma hr_step_length i st j : length (rows (hr_step i st j)) = length (rows st).
Proof.
  destruct (hr_step_cases i st j) as [->|(row & hr & rs & _ & _ & _ & ->)];
    [done | apply log_removal_length].
Qed.

Lemma hr_pass_length i st : length (rows (hr_pass i st)) = length (rows st).
Proof.
  unfold hr_pass.
  apply (fold_left_preserves _ (fun s => length (rows s) = length (rows st))); [|done].
  intros s j Hs. by rewrite hr_step_length.
Qed.

Lemma stage_passes_length i st : length (rows (stage_passes i st)) = length (rows st).
Proof.
  unfold stage_passes. rewrite hr_pass_length.
  apply (fold_left_preserves _ (fun s => length (rows s) = length (rows st))); [|done].
  intros s c Hs. by rewrite sd_col_length.
Qed.

Lemma slice_length {A} start end_ (l : list A) :
  end_ ≤ length l → length (slice start end_ l) = end_ - start.
Proof. intros. unfold slice. rewrite length_take, length_drop. lia. Qed.

Lemma detect_stage_length n st i :
  length (rows (detect_stage n st i)) = length (rows st).
Proof.
  unfold detect_stage. destruct (_ && _)%bool; [done|]. cbn [rows].
  unfold splice. rewrite !length_app, stage_passes_length. cbn [rows].
  rewrite length_take, length_drop, slice_length by lia. lia.
Qed.

(** A full stage of a series followed by more rows is processed as in the
    series alone; the rows that follow are kept. *)
Lemma detect_stage_app n n' st tail i :
  (i + 1) * STAGE_ROWS ≤ length (rows st) →
  detect_stage n (mkState (rows st ++ tail) (auditMap st) (outliersRemoved st)
                    (pointsInterpolated st)) i
  = let st' := detect_stage n' st i in
    mkState (rows st' ++ tail) (auditMap st') (outliersRemoved st')
      (pointsInterpolated st').
Proof.
  intros Hfull. unfold detect_stage. cbn [rows auditMap outliersRemoved pointsInterpolated].
  rewrite length_app.
  rewrite !Nat.min_l by lia.
  assert (slice (i * STAGE_ROWS) ((i + 1) * STAGE_ROWS) (rows st ++ tail)
          = slice (i * STAGE_ROWS) ((i + 1) * STAGE_ROWS) (rows st)) as ->.
  { unfold slice. rewrite drop_app_le by lia.
    rewrite take_app_le; [done|]. rewrite length_drop. lia. }
  rewrite slice_length by lia.
  replace ((i + 1) * STAGE_ROWS - i * STAGE_ROWS) with STAGE_ROWS by lia.
  rewrite Nat.ltb_irrefl. cbn [andb]. cbv zeta.
  cbn [rows auditMap outliersRemoved pointsInterpolated].
  f_equal. unfold splice.
  rewrite take_app_le by lia. rewrite drop_app_le by lia.
  by rewrite <- !app_assoc.
Qed.

Lemma detect_fold_app n n' k st tail :
  k * STAGE_ROWS ≤ length (rows st) →
  fold_left (detect_stage n) (seq 0 k)
    (mkState (rows st ++ tail) (auditMap st) (outliersRemoved st) (pointsInterpolated st))
  = let st' := fold_left (detect_stage n') (seq 0 k) st in
    mkState (rows st' ++ tail) (auditMap st') (outliersRemoved st')
      (pointsInterpolated st').
Proof.
  induction k as [|k IH]; intros Hk.
  - cbn [seq fold_left]. by destruct st.
  - rewrite seq_S, !fold_left_app. cbn [fold_left].
    rewrite IH by lia. cbv zeta.
    set (st1 := fold_left (detect_stage n') (seq 0 k) st).
    assert (length (rows st1) = length (rows st)) as Hlen.
    { unfold st1. apply (fold_left_preserves _
                           (fun s => length (rows s) = length (rows st))); [|done].
      intros s j Hs. by rewrite detect_stage_length. }
    apply detect_stage_app. lia.
Qed.

Lemma numStages_of_partial k r :
  0 < r < STAGE_ROWS → numStages_of (k * STAGE_ROWS + r) = k + 1.
Proof.
  intros Hr. unfold numStages_of, STAGE_ROWS in *.
  symmetry. apply (Nat.div_unique _ _ _ (r - 1)); lia.
Qed.

Lemma numStages_of_full k : numStages_of (k * STAGE_ROWS) = k.
Proof.
  unfold numStages_of, STAGE_ROWS. symmetry.
  apply (Nat.div_unique _ _ _ 17); lia.
Qed.

(** The detection phase on full stages followed by a partial one. *)
Lemma detect_app_partial st tail k :
  length (rows st) = k * STAGE_ROWS → 0 < length tail < STAGE_ROWS →
  detect (mkState (rows st ++ tail) (auditMap st) (outliersRemoved st)
            (pointsInterpolated st))
  = let st' := detect st in
    mkState (rows st' ++ tail) (auditMap st') (outliersRemoved st')
      (pointsInterpolated st').
Proof.
  intros Hfull Htail. unfold detect. cbn [rows].
  rewrite length_app, Hfull, numStages_of_partial, numStages_of_full by done.
  rewrite Nat.add_1_r, seq_S, fold_left_app. cbn [fold_left].
  rewrite (detect_fold_app (S k) k) by lia. cbv zeta.
  set (st1 := fold_left (detect_stage k) (seq 0 k) st).
  assert (length (rows st1) = k * STAGE_ROWS) as Hlen.
  { unfold st1. apply (fold_left_preserves _
                         (fun s => length (rows s) = k * STAGE_ROWS)); [|done].
    intros s j Hs. by rewrite detect_stage_length. }
  unfold detect_stage at 1. cbn [rows auditMap outliersRemoved pointsInterpolated].
  rewrite length_app, Hlen.
  assert (slice ((0 + k) * STAGE_ROWS)
            (Nat.min ((0 + k + 1) * STAGE_ROWS) (k * STAGE_ROWS + length tail))
            (rows st1 ++ tail) = tail) as ->.
  { unfold slice. rewrite drop_app_length' by done.
    apply take_ge. lia. }
  replace (0 + k =? S k - 1) with true by (symmetry; apply Nat.eqb_eq; lia).
  destruct Htail as [_ Htail]. apply Nat.ltb_lt in Htail. by rewrite Htail.
Qed.

(** C6, as amended.  When the number of rows is not a multiple of 18, the
    detection phase of [cleanAndInterpolateData] leaves the rows of the final
    partial stage as the deep copy at the head of the function made them:
    the input rows written to JSON and read back, so that NaN and the
    infinities are [null] and [-0] is [0].  A channel that holds [null], no
    value or a finite number other than [-0] holds the same after the
    detection phase, and the rows are the input rows themselves when they
    hold nothing else.  And nothing else depends on them: the rows of
    the full stages, the audit map and the counter of removed outliers are
    the ones the detection phase gives on the series cut before the partial
    stage.  No pass scans these rows and no statistic reads them. *)
Theorem partial_stage_untouched (data : list ProcessedDataRow) :
  length data `mod` STAGE_ROWS ≠ 0 →
  let k := length data / STAGE_ROWS in
  let full := take (k * STAGE_ROWS) data in
  let partial := drop (k * STAGE_ROWS) data in
  let st := detect (mkState (json_copy data) ∅ 0 0) in
  let st_full := detect (mkState (json_copy full) ∅ 0 0) in
  rows st = rows st_full ++ json_copy partial
  ∧ drop (k * STAGE_ROWS) (rows st) = json_copy partial
  ∧ (∀ j r c, partial !! j = Some r →
       ∃ r', rows st !! (k * STAGE_ROWS + j) = Some r'
             ∧ t r' = t r
             ∧ get c r' = json_cell (get c r)
             ∧ (json_plain (get c r) = true → get c r' = get c r))
  ∧ (Forall (λ r, json_plain_row r = true) partial →
     drop (k * STAGE_ROWS) (rows st) = partial)
  ∧ auditMap st = auditMap st_full
  ∧ outliersRemoved st = outliersRemoved st_full.
Proof.
  intros Hmod k full partial st st_full.
  pose proof (Nat.div_mod_eq (length data) STAGE_ROWS) as Hdiv. fold k in Hdiv.
  pose proof (Nat.mod_upper_bound (length data) STAGE_ROWS ltac:(done)) as Hlt.
  assert (length full = k * STAGE_ROWS) as Hfull
    by (unfold full; rewrite length_take; lia).
  assert (st = mkState (rows st_full ++ json_copy partial) (auditMap st_full)
                 (outliersRemoved st_full) (pointsInterpolated st_full)) as Hst.
  { unfold st, st_full.
    rewrite <- (detect_app_partial (mkState (json_copy full) ∅ 0 0)
                  (json_copy partial) k).
    - cbn [rows auditMap outliersRemoved pointsInterpolated].
      unfold json_copy, full, partial. by rewrite <- map_app, take_drop.
    - cbn [rows]. by rewrite json_copy_length.
    - rewrite json_copy_length. unfold partial. rewrite length_drop. lia. }
  assert (drop (k * STAGE_ROWS) (rows st) = json_copy partial) as Hdrop.
  { rewrite Hst. cbn [rows]. rewrite drop_app_length'; [done|]. symmetry.
    unfold st_full, detect. cbn [rows].
    apply (fold_left_preserves _ (fun s => length (rows s) = k * STAGE_ROWS)).
    - intros s j Hs. by rewrite detect_stage_length.
    - cbn [rows]. by rewrite json_copy_length. }
  split; [by rewrite Hst|]. split; [done|]. split; [|split].
  - intros j r c Hr. exists (json_row r).
    rewrite <- lookup_drop, Hdrop, json_copy_lookup, Hr.
    split; [done|]. split; [done|]. rewrite get_json_row.
    split; [done | apply json_cell_plain].
  - intros Hplain. by rewrite Hdrop, json_copy_plain.
  - by rewrite Hst.
Qed.

(** On [partial_sample] the fourteen rows of the partial stage come out as
    they went in, the 300 bpm of row 19 and the 1000 L/min of row 28
    included, and the only entry of the audit map is the one of row 10, in
    the full stage.  The same fourteen rows are not left alone when four
    more rows make a full stage of them ([suspect_stage]): the heart-rate
    pass nulls the 300 bpm and the 3SD rule the 1000 L/min. *)
Lemma partial_stage_untouched_witness :
  let st := detect (mkState (json_copy partial_sample) ∅ 0 0) in
  let scanned := detect (mkState (json_copy suspect_stage) ∅ 0 0) in
  (length partial_sample = 32
   ∧ drop 18 (rows st) = suspect_rows 18
   ∧ get HR <$> rows st !! 19 = Some (Num 300)
   ∧ get VO2 <$> rows st !! 28 = Some (Num 1000)
   ∧ get VO2 <$> rows st !! 10 = Some Null
   ∧ dom (auditMap st) = {[logKey "10" "V'O2"]})
  ∧ (length suspect_stage = 18
     ∧ get HR <$> rows scanned !! 1 = Some Null
     ∧ get VO2 <$> rows scanned !! 10 = Some Null).
Proof.
  assert (length partial_sample `mod` STAGE_ROWS ≠ 0) as Hmod
    by (vm_compute; lia).
  pose proof (partial_stage_untouched partial_sample Hmod)
    as (_ & _ & _ & Hsame & Hlog & _).
  split.
  - split; [reflexivity|]. split.
    { apply Hsame. apply (bool_decide_unpack _). vm_compute. reflexivity. }
    split; [vm_compute; reflexivity|]. split; [vm_compute; reflexivity|].
    split; [vm_compute; reflexivity|].
    rewrite Hlog. vm_compute. reflexivity.
  - split; [reflexivity|]. split; vm_compute; reflexivity.
Defined.

(** C6 as stated fails on [unwritable_sample], a series of two rows, which
    are a partial stage: the V'O2 of the first row is [Infinity] in the input
    and [null] after the detection phase, and the [-0] of the second row is
    [0]; neither is logged. *)
Lemma partial_stage_unwritable_values :
  let st := detect (mkState (json_copy unwritable_sample) ∅ 0 0) in
  length unwritable_sample `mod` STAGE_ROWS = 2
  ∧ get VO2 <$> unwritable_sample !! 0 = Some (Num infinity)
  ∧ get VO2 <$> rows st !! 0 = Some Null
  ∧ get VO2 <$> unwritable_sample !! 1 = Some (Num (-0))
  ∧ get VO2 <$> rows st !! 1 = Some (Num 0)
  ∧ auditMap st = ∅
  ∧ get VO2 <$> cleanedData (cleanAndInterpolateData unwritable_sample 70) !! 0
    = Some Null.
Proof. vm_compute. repeat split; reflexivity. Qed.

(** ** Gap interpolation: one null value *)

Lemma stage_start_le i : i / STAGE_ROWS * STAGE_ROWS ≤ i.
Proof. rewrite Nat.mul_comm. apply Nat.Div0.mul_div_le. Qed.

Lemma prevIndex_of_nearest data col i p :
  prevIndex_of data col i = Some p ↔ nearest_prev data col i p.
Proof.
  unfold prevIndex_of, nearest_prev. rewrite search_down_Some.
  pose proof (stage_start_le i) as Hle.
  replace (i / STAGE_ROWS * STAGE_ROWS + (i - i / STAGE_ROWS * STAGE_ROWS)) with i
    by lia.
  done.
Qed.

Lemma nextIndex_of_nearest data col i n :
  nextIndex_of data col i = Some n ↔ nearest_next data col i n.
Proof.
  unfold nextIndex_of, nearest_next. rewrite search_up_Some.
  split; intros (Hr & Hn & Hmin); (split; [lia|]); (split; [done|]);
    intros j Hj; apply Hmin; lia.
Qed.

Lemma interp_step_bridged col st i row prevIndex nextIndex :
  rows st !! i = Some row → get col row = Null →
  nearest_prev (rows st) col i prevIndex →
  nearest_next (rows st) col i nextIndex →
  nextIndex - prevIndex ≤ 3 →
  let v := interpolated_at (rows st) col i prevIndex nextIndex in
  interp_step col st i =
    match auditMap st !! logKey (t row) (col_name col) with
    | Some logEntry =>
        if (abs (originalValue logEntry - v) <? 1e-6)%float
        then restore_original col i row logEntry st
        else upgrade_entry col i row logEntry v st
    | None => fill_unlogged col i row v st
    end.
Proof.
  intros Hrow Hnull Hprev%prevIndex_of_nearest Hnext%nextIndex_of_nearest Hgap v.
  unfold interp_step. rewrite Hrow, Hnull. cbn [is_null]. rewrite Hprev, Hnext.
  apply Nat.leb_le in Hgap as ->. done.
Qed.

(** A gap that cannot be bridged is left as it is. *)
Lemma interp_step_unbridged col st i :
  (∀ row, rows st !! i = Some row → get col row ≠ Null)
  ∨ prevIndex_of (rows st) col i = None
  ∨ nextIndex_of (rows st) col i = None
  ∨ (∃ p n, prevIndex_of (rows st) col i = Some p
            ∧ nextIndex_of (rows st) col i = Some n ∧ 3 < n - p) →
  interp_step col st i = st.
Proof.
  unfold interp_step. intros H.
  destruct (rows st !! i) as [row|] eqn:Hrow; [|done].
  destruct (is_null (get col row)) eqn:Hnull; [|done].
  destruct H as [H|[->|[H|(p & n & -> & -> & Hgap)]]].
  - specialize (H row eq_refl). by destruct (get col row).
  - done.
  - rewrite H. by destruct (prevIndex_of _ _ _).
  - by apply Nat.leb_gt in Hgap as ->.
Qed.

(** C4.  When the interpolation loop reaches a [null] whose nearest non-null
    neighbours in its stage are at most 3 apart, and the audit map holds an
    entry for its (time, channel) key whose original value is within 1e-6 of
    the interpolated value, the original value is written back into the row,
    the entry is deleted and the counter of removed outliers goes down by
    one; the counter of interpolated points does not move. *)
Theorem noop_reversal (col : Col) (st : CleanState) (i : nat) (row : ProcessedDataRow)
    (prevIndex nextIndex : nat) (logEntry : AuditLogEntry) :
  rows st !! i = Some row → get col row = Null →
  nearest_prev (rows st) col i prevIndex →
  nearest_next (rows st) col i nextIndex →
  nextIndex - prevIndex ≤ 3 →
  auditMap st !! logKey (t row) (col_name col) = Some logEntry →
  (abs (originalValue logEntry
        - interpolated_at (rows st) col i prevIndex nextIndex) <? 1e-6)%float = true →
  let st' := interp_step col st i in
  rows st' = <[i := set col (Num (originalValue logEntry)) row]> (rows st)
  ∧ get col <$> rows st' !! i = Some (Num (originalValue logEntry))
  ∧ auditMap st' = delete (logKey (t row) (col_name col)) (auditMap st)
  ∧ auditMap st' !! logKey (t row) (col_name col) = None
  ∧ outliersRemoved st' = (outliersRemoved st - 1)%Z
  ∧ pointsInterpolated st' = pointsInterpolated st.
Proof.
  intros Hrow Hnull Hprev Hnext Hgap Hentry Hclose st'.
  unfold st'. rewrite (interp_step_bridged col st i row prevIndex nextIndex) by done.
  cbv zeta. rewrite Hentry, Hclose. unfold restore_original. cbn.
  repeat split.
  - rewrite list_lookup_insert_eq by (by eapply lookup_lt_Some).
    cbn. by rewrite get_set_eq.
  - apply lookup_delete_eq.
Qed.

(** The heart-rate pass rejects the 130 bpm of row 5 as an isolated spike;
    interpolating between 100 and 160 gives 130 again, and the rejection is
    reverted. *)
Lemma noop_reversal_witness :
  let st := detect (mkState (json_copy hr_spike_sample) ∅ 0 0) in
  get HR <$> rows st !! 5 = Some Null
  ∧ outliersRemoved st = 1%Z
  ∧ get HR <$> rows (interp_step HR st 5) !! 5 = Some (Num 130)
  ∧ auditMap (interp_step HR st 5) !! logKey "5" "HR" = None
  ∧ outliersRemoved (interp_step HR st 5) = 0%Z.
Proof.
  set (st := detect (mkState (json_copy hr_spike_sample) ∅ 0 0)).
  assert (rows st !! 5
          = Some (Sample.row3 "5" 50 (Num 2) (Num 50) Null)) as Hrow
    by (vm_compute; reflexivity).
  assert (auditMap st !! logKey "5" "HR"
          = Some (mkEntry "5" "HR" 130 (HRSpike 1 30) REMOVED None)) as Hentry
    by (vm_compute; reflexivity).
  pose proof (noop_reversal HR st 5 _ 4 6 _ Hrow eq_refl
                ltac:(apply prevIndex_of_nearest; vm_compute; reflexivity)
                ltac:(apply nextIndex_of_nearest; vm_compute; reflexivity)
                ltac:(lia) Hentry ltac:(vm_compute; reflexivity))
    as (_ & Hval & _ & Hnone & Hcount & _).
  split; [by rewrite Hrow|]. split; [vm_compute; reflexivity|].
  split; [exact Hval|]. split; [exact Hnone|].
  rewrite Hcount. vm_compute. reflexivity.
Defined.

(** C5, as amended.  When the interpolation loop reaches a [null] whose
    nearest non-null neighbours in its 18-row stage are at most 3 apart, it
    computes [prev + (next - prev) * ((i - prevIndex) / gap)].  With no audit
    entry for the (time, channel) key, the value is written and the audit map
    and both counters stay as they are: no entry is created.  With an entry
    whose original value is not within 1e-6 of the computed value, the value
    is written, the entry becomes [INTERPOLATED] with this new value, and the
    counter of interpolated points goes up by one.  With an entry whose
    original value is within 1e-6, the original value is written back and the
    entry deleted.  No other row changes. *)
Theorem gap_interpolation (col : Col) (st : CleanState) (i : nat)
    (row : ProcessedDataRow) (prevIndex nextIndex : nat) :
  rows st !! i = Some row → get col row = Null →
  nearest_prev (rows st) col i prevIndex →
  nearest_next (rows st) col i nextIndex →
  nextIndex - prevIndex ≤ 3 →
  let prevValue := value_at (rows st) col prevIndex in
  let nextValue := value_at (rows st) col nextIndex in
  let v := (prevValue + (nextValue - prevValue)
                        * (JS.of_nat (i - prevIndex)
                           / JS.of_nat (nextIndex - prevIndex)))%float in
  let key := logKey (t row) (col_name col) in
  let st' := interp_step col st i in
  (∀ j, j ≠ i → rows st' !! j = rows st !! j)
  ∧ (∀ k, k ≠ key → auditMap st' !! k = auditMap st !! k)
  ∧ match auditMap st !! key with
    | None =>
        rows st' !! i = Some (set col (Num v) row)
        ∧ auditMap st' !! key = None
        ∧ outliersRemoved st' = outliersRemoved st
        ∧ pointsInterpolated st' = pointsInterpolated st
    | Some logEntry =>
        if (abs (originalValue logEntry - v) <? 1e-6)%float then
          rows st' !! i = Some (set col (Num (originalValue logEntry)) row)
          ∧ auditMap st' !! key = None
          ∧ outliersRemoved st' = (outliersRemoved st - 1)%Z
          ∧ pointsInterpolated st' = pointsInterpolated st
        else
          rows st' !! i = Some (set col (Num v) row)
          ∧ auditMap st' !! key
            = Some (mkEntry (time logEntry) (column logEntry) (originalValue logEntry)
                      (reason logEntry) INTERPOLATED (Some v))
          ∧ outliersRemoved st' = outliersRemoved st
          ∧ pointsInterpolated st' = (pointsInterpolated st + 1)%Z
    end.
Proof.
  intros Hrow Hnull Hprev Hnext Hgap prevValue nextValue v key st'.
  pose proof (lookup_lt_Some _ _ _ Hrow) as Hlt.
  unfold st'. rewrite (interp_step_bridged col st i row prevIndex nextIndex) by done.
  cbv zeta. fold key.
  change (interpolated_at (rows st) col i prevIndex nextIndex) with v.
  destruct (auditMap st !! key) as [logEntry|] eqn:Hentry;
    [destruct (abs (originalValue logEntry - v) <? 1e-6)%float|];
    unfold restore_original, upgrade_entry, fill_unlogged; cbn; fold key.
  - split; [intros j Hj; by rewrite list_lookup_insert_ne|].
    split; [intros k Hk; by rewrite lookup_delete_ne|].
    split; [by apply list_lookup_insert_eq|].
    split; [apply lookup_delete_eq | done].
  - split; [intros j Hj; by rewrite list_lookup_insert_ne|].
    split; [intros k Hk; by rewrite lookup_insert_ne|].
    split; [by apply list_lookup_insert_eq|].
    split; [apply lookup_insert_eq | done].
  - split; [intros j Hj; by rewrite list_lookup_insert_ne|].
    split; [done|].
    split; [by apply list_lookup_insert_eq | done].
Qed.

Lemma gap_interpolation_witness :
  let st := detect (mkState (json_copy missing_sample) ∅ 0 0) in
  rows (interp_step VO2 st 5) !! 5 = Some (Sample.row "5" 50 (Num 2))
  ∧ auditMap (interp_step VO2 st 5) !! logKey "5" "V'O2" = None.
Proof.
  set (st := detect (mkState (json_copy missing_sample) ∅ 0 0)).
  assert (rows st !! 5 = Some (Sample.row "5" 50 Null)) as Hrow
    by (vm_compute; reflexivity).
  pose proof (gap_interpolation VO2 st 5 _ 4 6 Hrow eq_refl
                ltac:(apply prevIndex_of_nearest; vm_compute; reflexivity)
                ltac:(apply nextIndex_of_nearest; vm_compute; reflexivity)
                ltac:(lia)) as (_ & _ & Hcase).
  assert (auditMap st !! logKey (t (Sample.row "5" 50 Null)) (col_name VO2) = None)
    as Hnone by (vm_compute; reflexivity).
  rewrite Hnone in Hcase. destruct Hcase as (Hval & Hlog & _).
  split; [|exact Hlog]. rewrite Hval. vm_compute. reflexivity.
Defined.

(** C5 as stated fails on [missing_sample]: the value missing at index 5 is
    interpolated from its neighbours, and yet the audit log has no
    [INTERPOLATED] entry for it (it is empty) and no point is counted. *)
Lemma interpolation_of_missing_value_not_logged :
  let result := cleanAndInterpolateData missing_sample 70 in
  get VO2 <$> missing_sample !! 5 = Some Null
  ∧ nearest_prev (json_copy missing_sample) VO2 5 4
  ∧ nearest_next (json_copy missing_sample) VO2 5 6
  ∧ get VO2 <$> cleanedData result !! 5 = Some (Num 2)
  ∧ auditLog result = []
  ∧ stats result = mkStats 0 0.
Proof.
  split; [reflexivity|].
  split; [apply prevIndex_of_nearest; vm_compute; reflexivity|].
  split; [apply nextIndex_of_nearest; vm_compute; reflexivity|].
  vm_compute. repeat split; reflexivity.
Qed.

(** ** Audit keys *)

(** No channel name holds a dash: a key splits in one way only. *)
Lemma col_name_no_dash c1 c2 s :
  col_name c1 ≠ String.append s (String.append "-" (col_name c2)).
Proof.
  intros H. destruct c1; cbn in H;
    repeat (destruct s as [|? s]; cbn in H; [discriminate H|];
            injection H as _ H);
    destruct s; discriminate H.
Qed.

Lemma logKey_inj t1 c1 t2 c2 :
  logKey t1 (col_name c1) = logKey t2 (col_name c2) → t1 = t2 ∧ c1 = c2.
Proof.
  unfold logKey. revert t2. induction t1 as [|a t1 IH]; intros [|b t2] H; cbn in H.
  - split; [done|]. injection H as H. by destruct c1, c2.
  - injection H as _ H. by apply col_name_no_dash in H.
  - injection H as _ H. symmetry in H. by apply col_name_no_dash in H.
  - injection H as -> H. apply IH in H as [-> ->]. done.
Qed.

(** ** Counting the audit log *)

#[global] Instance count_action_Permutation a :
  Proper ((≡ₚ) ==> (=)) (count_action a).
Proof. intros l1 l2 H. unfold count_action. by rewrite H. Qed.

Lemma count_action_cons a e log :
  count_action a (e :: log)
  = (if decide (action e = a) then 1 else 0) + count_action a log.
Proof. unfold count_action. rewrite filter_cons. by case_decide. Qed.

Lemma count_action_total log :
  count_action REMOVED log + count_action INTERPOLATED log = length log.
Proof.
  induction log as [|e log IH]; [done|].
  rewrite !count_action_cons. simpl length.
  destruct (action e); repeat case_decide; try done; lia.
Qed.

Lemma log_of_insert_fresh m k e :
  m !! k = None → log_of (<[k := e]> m) ≡ₚ e :: log_of m.
Proof. intros H. unfold log_of. by rewrite map_to_list_insert. Qed.

Lemma log_of_delete m k e :
  m !! k = Some e → log_of m ≡ₚ e :: log_of (delete k m).
Proof. intros H. unfold log_of. by rewrite <- (map_to_list_delete m k e). Qed.

Lemma log_of_insert_over m k e' :
  log_of (<[k := e']> m) ≡ₚ e' :: log_of (delete k m).
Proof.
  rewrite <- insert_delete_eq. apply log_of_insert_fresh, lookup_delete_eq.
Qed.

Lemma log_of_length m : length (log_of m) = size m.
Proof. unfold log_of. by rewrite length_fmap, length_map_to_list. Qed.

Lemma count_interpolated_none log :
  (∀ e, e ∈ log → action e = REMOVED) → count_action INTERPOLATED log = 0.
Proof.
  induction log as [|e log IH]; intros H; [done|].
  rewrite count_action_cons, IH by (intros; apply H; by right).
  rewrite (H e) by left. by case_decide.
Qed.

Lemma elem_of_log_of m e : e ∈ log_of m ↔ ∃ k, m !! k = Some e.
Proof.
  unfold log_of. rewrite list_elem_of_fmap. split.
  - intros ([k e'] & -> & H). exists k. by apply elem_of_map_to_list.
  - intros (k & H). exists (k, e). split; [done|]. by apply elem_of_map_to_list.
Qed.

(** ** The cleaning counters: detection *)

Lemma labels_insert (G : list ProcessedDataRow) gi row row' :
  G !! gi = Some row → t row' = t row → t <$> <[gi := row']> G = t <$> G.
Proof.
  intros Hrow Ht. rewrite list_fmap_insert, Ht.
  apply list_insert_id. by rewrite list_lookup_fmap, Hrow.
Qed.

Lemma labels_lookup_inj (G : list ProcessedDataRow) i j ri rj :
  NoDup (t <$> G) → G !! i = Some ri → G !! j = Some rj → t ri = t rj → i = j.
Proof.
  intros Hnd Hi Hj Ht. eapply (NoDup_lookup _ i j (t ri)) in Hnd; [done| |].
  - by rewrite list_lookup_fmap, Hi.
  - by rewrite list_lookup_fmap, Hj, Ht.
Qed.

(** Rejecting a number keeps the invariant: its key is fresh. *)
Lemma det_inv_removal G st gi row col v e rs :
  det_inv G st → G !! gi = Some row → get col row = Num v → action e = REMOVED →
  auditMap st !! logKey (t row) (col_name col) = None
  ∧ det_inv (<[gi := set col Null row]> G)
      (mkState rs (<[logKey (t row) (col_name col) := e]> (auditMap st))
         (outliersRemoved st + 1) (pointsInterpolated st)).
Proof.
  intros [Hnd Hcount Hpoints Hlogged] Hrow Hv He.
  pose proof (lookup_lt_Some _ _ _ Hrow) as Hlt.
  assert (auditMap st !! logKey (t row) (col_name col) = None) as Hfresh.
  { destruct (auditMap st !! _) as [e0|] eqn:He0; [|done].
    destruct (Hlogged _ _ He0) as (_ & idx & r & c & Hr & Hkey & Hnull).
    apply logKey_inj in Hkey as [Ht <-].
    assert (gi = idx) as <- by eauto using labels_lookup_inj.
    congruence. }
  split; [done|]. constructor; cbn.
  - rewrite (labels_insert G gi row); [done..|apply t_set].
  - rewrite map_size_insert_None by done. lia.
  - done.
  - intros k e' Hk. destruct (decide (logKey (t row) (col_name col) = k)) as [<-|Hne].
    + rewrite lookup_insert_eq in Hk. injection Hk as <-. split; [done|].
      exists gi, (set col Null row), col.
      rewrite list_lookup_insert_eq, t_set, get_set_eq by done. done.
    + rewrite lookup_insert_ne in Hk by done.
      destruct (Hlogged _ _ Hk) as (Hact & idx & r & c & Hr & Hkey & Hnull).
      split; [done|]. destruct (decide (idx = gi)) as [->|Hidx].
      * assert (r = row) as -> by congruence.
        exists gi, (set col Null row), c.
        rewrite list_lookup_insert_eq, t_set by done. repeat split; [done|].
        destruct (decide (c = col)) as [->|Hc];
          [apply get_set_eq | by rewrite get_set_ne].
      * exists idx, r, c. by rewrite list_lookup_insert_ne.
Qed.

Lemma embed_lookup {A} (pre post rs : list A) j :
  j < length rs → (pre ++ rs ++ post) !! (length pre + j) = rs !! j.
Proof.
  intros Hj. rewrite lookup_app_r by lia.
  replace (length pre + j - length pre) with j by lia. by rewrite lookup_app_l.
Qed.

Lemma embed_insert {A} (pre post rs : list A) j x :
  j < length rs →
  pre ++ <[j := x]> rs ++ post = <[length pre + j := x]> (pre ++ rs ++ post).
Proof.
  intros Hj. rewrite insert_app_r_alt by lia.
  replace (length pre + j - length pre) with j by lia. by rewrite insert_app_l.
Qed.

Section detection_stage.
Context (pre post : list ProcessedDataRow).

Lemma log_removal_inv j col row v rs st :
  stage_inv pre post st → rows st !! j = Some row → get col row = Num v →
  stage_inv pre post (log_removal j col row v rs st).
Proof.
  unfold stage_inv. intros Hinv Hrow Hv.
  pose proof (lookup_lt_Some _ _ _ Hrow) as Hlt.
  unfold log_removal. cbn [rows]. rewrite embed_insert by done.
  eapply det_inv_removal; [done| |done..].
  by rewrite embed_lookup.
Qed.

Lemma sd_scan_step_inv i col mean stdDev st j :
  stage_inv pre post st → stage_inv pre post (sd_scan_step i col mean stdDev st j).
Proof.
  intros Hinv. destruct (sd_scan_step_cases i col mean stdDev st j)
    as [[-> _]|(row & v & Hrow & Hv & _ & ->)]; [done|].
  by apply log_removal_inv.
Qed.

Lemma sd_col_inv i st col : stage_inv pre post st → stage_inv pre post (sd_col i st col).
Proof.
  intros Hinv. unfold sd_col. destruct (_ <? 2); [done|].
  apply fold_left_preserves; [|done]. intros s j. apply sd_scan_step_inv.
Qed.

Lemma hr_step_inv i st j : stage_inv pre post st → stage_inv pre post (hr_step i st j).
Proof.
  intros Hinv. destruct (hr_step_cases i st j)
    as [->|(row & hr & rs & Hrow & Hv & _ & ->)]; [done|].
  by apply log_removal_inv.
Qed.

Lemma stage_passes_inv i st : stage_inv pre post st → stage_inv pre post (stage_passes i st).
Proof.
  intros Hinv. unfold stage_passes, hr_pass.
  apply fold_left_preserves; [intros s j; apply hr_step_inv|].
  apply fold_left_preserves; [intros s c; apply sd_col_inv | done].
Qed.

End detection_stage.

Lemma take_drop_length {A} m (l : list A) : take m l ++ drop (length (take m l)) l = l.
Proof.
  rewrite length_take. destruct (decide (m ≤ length l)).
  - rewrite Nat.min_l by done. apply take_drop.
  - rewrite Nat.min_r by lia. rewrite take_ge, drop_all by lia. apply app_nil_r.
Qed.

Lemma slice_embed {A} start end_ (l : list A) :
  take start l ++ slice start end_ l ++ drop (start + length (slice start end_ l)) l = l.
Proof.
  unfold slice. rewrite <- drop_drop, take_drop_length. apply take_drop.
Qed.

Lemma detect_stage_inv n st i :
  det_inv (rows st) st → det_inv (rows (detect_stage n st i)) (detect_stage n st i).
Proof.
  intros Hinv. unfold detect_stage. destruct (_ && _)%bool; [done|].
  set (start := i * STAGE_ROWS).
  set (stageData := slice start _ (rows st)).
  set (st2 := stage_passes i _).
  assert (stage_inv (take start (rows st))
            (drop (start + length stageData) (rows st)) st2) as Hst2.
  { apply stage_passes_inv. unfold stage_inv. cbn [rows].
    unfold stageData. rewrite slice_embed. by destruct Hinv. }
  destruct Hst2. by constructor.
Qed.

Lemma detect_inv data :
  NoDup (t <$> data) →
  let st := detect (mkState (json_copy data) ∅ 0 0) in
  det_inv (rows st) st.
Proof.
  intros Hnd. unfold detect.
  apply (fold_left_preserves _ (fun s => det_inv (rows s) s)).
  - intros s j. apply detect_stage_inv.
  - constructor; cbn; [|done..].
    unfold json_copy. rewrite <- list_fmap_compose.
    by replace (t ∘ json_row) with t by done.
Qed.

(** ** The cleaning counters: interpolation *)

Lemma det_inv_int_inv st : det_inv (rows st) st → int_inv st.
Proof.
  intros [Hnd Hcount Hpoints Hlogged]. constructor; [done| | |].
  - by rewrite log_of_length.
  - rewrite count_interpolated_none; [done|].
    intros e (k & Hk)%elem_of_log_of. by destruct (Hlogged _ _ Hk).
  - intros k e Hk Hact. destruct (Hlogged _ _ Hk) as [? _]. congruence.
Qed.

Lemma interp_step_cases col st i :
  interp_step col st i = st
  ∨ ∃ row v,
      rows st !! i = Some row ∧ get col row = Null
      ∧ match auditMap st !! logKey (t row) (col_name col) with
        | Some logEntry =>
            interp_step col st i = restore_original col i row logEntry st
            ∨ interp_step col st i = upgrade_entry col i row logEntry v st
        | None => interp_step col st i = fill_unlogged col i row v st
        end.
Proof.
  unfold interp_step.
  destruct (rows st !! i) as [row|] eqn:Hrow; [|by left].
  destruct (get col row) as [| |x] eqn:Hcell; cbn [is_null]; [by left| |by left].
  destruct (prevIndex_of _ _ _) as [p|]; [|by left].
  destruct (nextIndex_of _ _ _) as [n|]; [|by left].
  destruct (n - p <=? 3); [|by left].
  right. exists row. eexists. split; [done|]. split; [done|].
  destruct (auditMap st !! _) as [logEntry|]; [|done].
  destruct (_ <? _)%float; [by left | by right].
Qed.

Section interpolation_step.
Context (col : Col) (i : nat) (row : ProcessedDataRow) (st : CleanState).
Hypothesis Hinv : int_inv st.
Hypothesis Hrow : rows st !! i = Some row.
Hypothesis Hnull : get col row = Null.

(** The entry found for a [null] cell is still [REMOVED]. *)
Lemma found_entry_removed logEntry :
  auditMap st !! logKey (t row) (col_name col) = Some logEntry →
  action logEntry = REMOVED.
Proof.
  intros Hentry. destruct (action logEntry) eqn:Hact; [done|].
  destruct (int_logged _ Hinv _ _ Hentry Hact) as (idx & r & c & Hr & Hkey & Hfilled).
  apply logKey_inj in Hkey as [Ht <-].
  assert (i = idx) as <- by eauto using labels_lookup_inj, int_labels.
  congruence.
Qed.

Lemma filled_insert w m :
  interpolated_filled (rows st) m →
  interpolated_filled (<[i := set col (Num w) row]> (rows st)) m.
Proof.
  intros Hfilled k e Hk Hact.
  destruct (Hfilled k e Hk Hact) as (idx & r & c & Hr & Hkey & Hne).
  pose proof (lookup_lt_Some _ _ _ Hrow) as Hlt.
  destruct (decide (idx = i)) as [->|Hidx].
  - assert (r = row) as -> by congruence.
    assert (c ≠ col) by congruence.
    exists i, (set col (Num w) row), c.
    by rewrite list_lookup_insert_eq, t_set, get_set_ne.
  - exists idx, r, c. by rewrite list_lookup_insert_ne.
Qed.

Lemma labels_fill w :
  NoDup (t <$> <[i := set col (Num w) row]> (rows st)).
Proof.
  rewrite (labels_insert _ i row); [apply Hinv | done | apply t_set].
Qed.

Lemma fill_unlogged_inv v : int_inv (fill_unlogged col i row v st).
Proof.
  constructor; cbn; [apply labels_fill | apply Hinv..|].
  apply filled_insert, Hinv.
Qed.

Lemma restore_original_inv logEntry :
  auditMap st !! logKey (t row) (col_name col) = Some logEntry →
  int_inv (restore_original col i row logEntry st).
Proof.
  intros Hentry. pose proof (found_entry_removed _ Hentry) as Hact.
  pose proof (log_of_delete _ _ _ Hentry) as Hperm.
  destruct Hinv as [Hnd Hcount Hpoints Hfilled].
  constructor; cbn.
  - apply labels_fill.
  - rewrite Hcount, Hperm. cbn. lia.
  - rewrite Hpoints, Hperm, count_action_cons, Hact. by case_decide.
  - apply filled_insert. intros k e Hk.
    apply lookup_delete_Some in Hk as [_ Hk]. by apply Hfilled.
Qed.

Lemma upgrade_entry_inv logEntry v :
  auditMap st !! logKey (t row) (col_name col) = Some logEntry →
  int_inv (upgrade_entry col i row logEntry v st).
Proof.
  intros Hentry. pose proof (found_entry_removed _ Hentry) as Hact.
  pose proof (log_of_delete _ _ _ Hentry) as Hperm.
  pose proof (lookup_lt_Some _ _ _ Hrow) as Hlt.
  destruct Hinv as [Hnd Hcount Hpoints Hfilled].
  constructor; cbn.
  - apply labels_fill.
  - rewrite Hcount, Hperm, log_of_insert_over. done.
  - rewrite Hpoints, Hperm, log_of_insert_over, !count_action_cons, Hact. cbn.
    repeat case_decide; try done. lia.
  - intros k e Hk He.
    destruct (decide (logKey (t row) (col_name col) = k)) as [<-|Hne].
    + exists i, (set col (Num v) row), col.
      by rewrite list_lookup_insert_eq, t_set, get_set_eq.
    + rewrite lookup_insert_ne in Hk by done.
      by apply (filled_insert v (auditMap st) Hfilled k e).
Qed.

End interpolation_step.

Lemma interp_step_inv col st i : int_inv st → int_inv (interp_step col st i).
Proof.
  intros Hinv. destruct (interp_step_cases col st i)
    as [->|(row & v & Hrow & Hnull & Hcase)]; [done|].
  destruct (auditMap st !! _) as [logEntry|] eqn:Hentry.
  - destruct Hcase as [-> | ->];
      [by apply restore_original_inv | by apply upgrade_entry_inv].
  - rewrite Hcase. by apply fill_unlogged_inv.
Qed.

Lemma interpolate_all_inv st : int_inv st → int_inv (interpolate_all st).
Proof.
  intros Hinv. unfold interpolate_all.
  apply fold_left_preserves; [|done]. intros s c Hs. unfold interp_col.
  apply fold_left_preserves; [|done]. intros s' j. apply interp_step_inv.
Qed.

Lemma clean_state_inv data : NoDup (t <$> data) → int_inv (clean_state data).
Proof.
  intros Hnd. apply interpolate_all_inv, det_inv_int_inv. by apply detect_inv.
Qed.

(** C2, as amended.  On a series whose time labels are distinct, the audit
    log holds one entry for each rejected value that the no-op rule has not
    reverted, whether it stayed [REMOVED] or became [INTERPOLATED]: the
    number of [REMOVED] plus the number of [INTERPOLATED] entries is
    [stats.outliersRemoved], and the number of [INTERPOLATED] entries is
    [stats.pointsInterpolated]. *)
Theorem audit_counts (data : list ProcessedDataRow) (bodyWeight : float) :
  NoDup (t <$> data) →
  let result := cleanAndInterpolateData data bodyWeight in
  Z.of_nat (count_action REMOVED (auditLog result)
            + count_action INTERPOLATED (auditLog result))
  = stats_outliersRemoved (stats result)
  ∧ Z.of_nat (count_action INTERPOLATED (auditLog result))
    = stats_pointsInterpolated (stats result).
Proof.
  intros Hnd result. destruct (clean_state_inv data Hnd) as [_ Hcount Hpoints _].
  unfold result, cleanAndInterpolateData.
  cbn [auditLog stats stats_outliersRemoved stats_pointsInterpolated].
  fold (log_of (auditMap (clean_state data))).
  by rewrite count_action_total, Hcount, Hpoints.
Qed.

Lemma audit_counts_witness :
  let result := cleanAndInterpolateData outlier_sample 70 in
  Z.of_nat (count_action REMOVED (auditLog result)
            + count_action INTERPOLATED (auditLog result))
  = stats_outliersRemoved (stats result)
  ∧ Z.of_nat (count_action INTERPOLATED (auditLog result))
    = stats_pointsInterpolated (stats result).
Proof.
  apply (audit_counts outlier_sample 70).
  apply (bool_decide_unpack _). vm_compute. reflexivity.
Defined.

(** C2 as stated fails on [outlier_sample]: the one rejected value is
    interpolated, so the log holds a single entry, [INTERPOLATED], while the
    two counters are both 1 and add up to 2. *)
Lemma audit_counts_double :
  let result := cleanAndInterpolateData outlier_sample 70 in
  count_action REMOVED (auditLog result) = 0
  ∧ count_action INTERPOLATED (auditLog result) = 1
  ∧ stats result = mkStats 1 1
  ∧ Z.of_nat (count_action REMOVED (auditLog result)
              + count_action INTERPOLATED (auditLog result))
    ≠ (stats_outliersRemoved (stats result)
       + stats_pointsInterpolated (stats result))%Z.
Proof. vm_compute. repeat split; (reflexivity || discriminate). Qed.

(** The hypothesis of distinct time labels is needed: two rows that share a
    label share their audit keys, and the counters run ahead of the log.
    Here the series is [outlier_sample] twice; both outliers are rejected and
    interpolated under one key. *)
Lemma audit_counts_duplicate_labels :
  let result := cleanAndInterpolateData (outlier_sample ++ outlier_sample) 70 in
  count_action REMOVED (auditLog result) = 0
  ∧ count_action INTERPOLATED (auditLog result) = 1
  ∧ stats result = mkStats 2 2.
Proof. vm_compute. repeat split; reflexivity. Qed.

(** ** The detection phase only nulls cells and only adds entries *)

Lemma nulled_from_refl may G : nulled_from may G G.
Proof. split; [done|]. intros gi r Hr. exists r. repeat split; auto. Qed.

Lemma nulled_from_trans may G1 G2 G3 :
  nulled_from may G1 G2 → nulled_from may G2 G3 → nulled_from may G1 G3.
Proof.
  intros [Hl12 H12] [Hl23 H23]. split; [congruence|].
  intros gi r Hr. destruct (H12 gi r Hr) as (r2 & Hr2 & Ht2 & Hc2).
  destruct (H23 gi r2 Hr2) as (r3 & Hr3 & Ht3 & Hc3).
  exists r3. split; [done|]. split; [congruence|].
  intros c. destruct (Hc3 c) as [Heq|[? ?]]; [|by right].
  rewrite Heq. apply Hc2.
Qed.

Lemma nulled_from_mono (may may' : nat → Col → Prop) G G' :
  (∀ gi c, may gi c → may' gi c) → nulled_from may G G' → nulled_from may' G G'.
Proof.
  intros Hsub [Hl H]. split; [done|]. intros gi r Hr.
  destruct (H gi r Hr) as (r' & Hr' & Ht & Hc). exists r'. repeat split; [done..|].
  intros c. destruct (Hc c) as [?|[? ?]]; auto.
Qed.

Lemma removed_kept_refl m : removed_kept m m.
Proof. intros k e ? ?. by exists e. Qed.

Lemma removed_kept_trans m1 m2 m3 :
  removed_kept m1 m2 → removed_kept m2 m3 → removed_kept m1 m3.
Proof.
  intros H12 H23 k e He Ha. destruct (H12 k e He Ha) as (e2 & He2 & Ha2).
  by apply (H23 k e2).
Qed.

(** A null cell stays null. *)
Lemma nulled_from_null may G G' gi r c :
  nulled_from may G G' → G !! gi = Some r → get c r = Null →
  ∃ r', G' !! gi = Some r' ∧ t r' = t r ∧ get c r' = Null.
Proof.
  intros [_ H] Hr Hnull. destruct (H gi r Hr) as (r' & Hr' & Ht & Hc).
  exists r'. repeat split; [done..|]. destruct (Hc c) as [->|[_ ?]]; done.
Qed.

(** A cell that may not be nulled keeps its value. *)
Lemma nulled_from_frame may G G' gi r c :
  nulled_from may G G' → G !! gi = Some r → ¬ may gi c →
  ∃ r', G' !! gi = Some r' ∧ t r' = t r ∧ get c r' = get c r.
Proof.
  intros [_ H] Hr Hmay. destruct (H gi r Hr) as (r' & Hr' & Ht & Hc).
  exists r'. repeat split; [done..|]. destruct (Hc c) as [?|[? _]]; done.
Qed.

Lemma nulled_from_insert may G gi row col :
  G !! gi = Some row → may gi col →
  nulled_from may G (<[gi := set col Null row]> G).
Proof.
  intros Hrow Hmay. pose proof (lookup_lt_Some _ _ _ Hrow) as Hlt.
  split; [apply length_insert|]. intros g r Hr.
  destruct (decide (g = gi)) as [->|Hne].
  - assert (r = row) as -> by congruence.
    exists (set col Null row). rewrite list_lookup_insert_eq, t_set by done.
    repeat split. intros c. destruct (decide (c = col)) as [->|Hc].
    + right. by rewrite get_set_eq.
    + left. by rewrite get_set_ne.
  - exists r. rewrite list_lookup_insert_ne by done. repeat split; auto.
Qed.

Lemma stage_step_refl may pre post st : stage_step may pre post st st.
Proof. split; [apply nulled_from_refl | apply removed_kept_refl]. Qed.

Lemma stage_step_trans may pre post st1 st2 st3 :
  stage_step may pre post st1 st2 → stage_step may pre post st2 st3 →
  stage_step may pre post st1 st3.
Proof.
  intros [? ?] [? ?]. split;
    [by eapply nulled_from_trans | by eapply removed_kept_trans].
Qed.

Lemma stage_step_mono (may may' : nat → Col → Prop) pre post st st' :
  (∀ gi c, may gi c → may' gi c) →
  stage_step may pre post st st' → stage_step may' pre post st st'.
Proof. intros Hsub [? ?]. split; [by eapply nulled_from_mono | done]. Qed.

Lemma log_removal_step may pre post j col row v rs st :
  rows st !! j = Some row → may (length pre + j) col →
  stage_step may pre post st (log_removal j col row v rs st).
Proof.
  intros Hrow Hmay. pose proof (lookup_lt_Some _ _ _ Hrow) as Hlt. split.
  - unfold log_removal. cbn [rows]. rewrite embed_insert by done.
    apply nulled_from_insert; [by rewrite embed_lookup | done].
  - intros k e He Ha. unfold log_removal. cbn [auditMap].
    destruct (decide (logKey (t row) (col_name col) = k)) as [<-|Hne].
    + rewrite lookup_insert_eq. by eexists.
    + rewrite lookup_insert_ne by done. by exists e.
Qed.

Lemma stage_step_length may pre post st st' :
  stage_step may pre post st st' → length (rows st') = length (rows st).
Proof. intros [[Hlen _] _]. rewrite !length_app in Hlen. lia. Qed.

(** A loop each of whose steps is a [stage_step], as long as the state is one
    the loop can reach. *)
Lemma stage_step_loop {B} may pre post (f : CleanState → B → CleanState) l st :
  (∀ s b, b ∈ l → stage_step may pre post st s → stage_step may pre post s (f s b)) →
  stage_step may pre post st (fold_left f l st).
Proof.
  intros Hf.
  assert (∀ s, stage_step may pre post st s →
               stage_step may pre post st (fold_left f l s)) as Haux.
  { induction l as [|b l IH]; intros s Hs; simpl; [done|].
    apply IH.
    - intros s' b' Hb'. apply Hf. by right.
    - eapply stage_step_trans; [done|]. apply Hf; [left | done]. }
  apply Haux, stage_step_refl.
Qed.

Section stage_steps.
Context (pre post : list ProcessedDataRow) (i : nat).

Lemma sd_scan_step_step may col mean stdDev st j :
  (j < length (rows st) → may (length pre + j) col) →
  stage_step may pre post st (sd_scan_step i col mean stdDev st j).
Proof.
  intros Hmay. destruct (sd_scan_step_cases i col mean stdDev st j)
    as [[-> _]|(row & v & Hrow & _ & _ & ->)]; [apply stage_step_refl|].
  apply log_removal_step; [done|]. apply Hmay. by eapply lookup_lt_Some.
Qed.

Lemma sd_col_step st col :
  stage_step (sd_cells (length pre) (length pre + length (rows st)) [col])
    pre post st (sd_col i st col).
Proof.
  unfold sd_col. destruct (_ <? 2); [apply stage_step_refl|].
  apply stage_step_loop. intros s j Hj Hs.
  apply stage_step_length in Hs. apply elem_of_seq in Hj.
  apply sd_scan_step_step. intros Hlt. split; [lia | by left].
Qed.

Lemma sd_cols_step st cols :
  stage_step (sd_cells (length pre) (length pre + length (rows st)) cols)
    pre post st (fold_left (sd_col i) cols st).
Proof.
  apply stage_step_loop. intros s c Hc Hs. apply stage_step_length in Hs.
  eapply stage_step_mono; [|apply sd_col_step].
  intros g c' [Hg Hc']. apply list_elem_of_singleton in Hc' as ->.
  split; [lia | done].
Qed.

Lemma hr_pass_step st :
  stage_step (hr_cells (length pre) (length pre + length (rows st)))
    pre post st (hr_pass i st).
Proof.
  unfold hr_pass. apply stage_step_loop. intros s j Hj Hs.
  apply elem_of_seq in Hj.
  destruct (hr_step_cases i s j) as [->|(row & hr & rs & Hrow & _ & _ & ->)];
    [apply stage_step_refl|].
  apply log_removal_step; [done|]. split; [lia | done].
Qed.

Lemma stage_passes_step st :
  stage_step (stage_cells (length pre) (length pre + length (rows st)))
    pre post st (stage_passes i st).
Proof.
  unfold stage_passes.
  pose proof (sd_cols_step st OUTLIER_COLS) as Hsd.
  pose proof (stage_step_length _ _ _ _ _ Hsd) as Hlen.
  eapply stage_step_trans.
  - eapply stage_step_mono; [|exact Hsd].
    intros g c [Hg _]. split; [lia | right; lia].
  - eapply stage_step_mono; [|apply hr_pass_step].
    intros g c [Hg ->]. split; [lia | by left].
Qed.

End stage_steps.

Lemma phase_step_refl may st : phase_step may st st.
Proof. split; [apply nulled_from_refl | apply removed_kept_refl]. Qed.

Lemma phase_step_trans may st1 st2 st3 :
  phase_step may st1 st2 → phase_step may st2 st3 → phase_step may st1 st3.
Proof.
  intros [? ?] [? ?]. split;
    [by eapply nulled_from_trans | by eapply removed_kept_trans].
Qed.

Lemma phase_step_mono (may may' : nat → Col → Prop) st st' :
  (∀ gi c, may gi c → may' gi c) → phase_step may st st' → phase_step may' st st'.
Proof. intros Hsub [? ?]. split; [by eapply nulled_from_mono | done]. Qed.

Lemma phase_step_loop {B} may (f : CleanState → B → CleanState) l st :
  (∀ s b, b ∈ l → phase_step may s (f s b)) →
  phase_step may st (fold_left f l st).
Proof.
  revert st. induction l as [|b l IH]; intros st Hf; simpl.
  - apply phase_step_refl.
  - eapply phase_step_trans; [apply Hf; left|]. apply IH.
    intros s b' Hb'. apply Hf. by right.
Qed.

Lemma slice_length_le {A} start end_ (l : list A) :
  length (slice start end_ l) ≤ end_ - start.
Proof. unfold slice. rewrite length_take. lia. Qed.

Lemma detect_stage_step n st i :
  phase_step (stage_cells (i * STAGE_ROWS) ((i + 1) * STAGE_ROWS))
    st (detect_stage n st i).
Proof.
  unfold detect_stage. destruct (_ && _)%bool; [apply phase_step_refl|].
  set (start := i * STAGE_ROWS).
  set (end_ := Nat.min _ _).
  set (stageData := slice start end_ (rows st)).
  set (s0 := mkState stageData _ _ _).
  pose proof (stage_passes_step (take start (rows st))
                (drop (start + length stageData) (rows st)) i s0) as [Hrows Hlog].
  change (rows s0) with stageData in Hrows.
  change (auditMap s0) with (auditMap st) in Hlog.
  assert (take start (rows st) ++ stageData
            ++ drop (start + length stageData) (rows st) = rows st) as Hembed
    by apply slice_embed.
  rewrite Hembed in Hrows.
  split; [|done]. cbn [rows]. unfold splice.
  eapply nulled_from_mono; [|exact Hrows].
  intros g c [Hg Hc]. rewrite length_take in Hg, Hc.
  pose proof (slice_length_le start end_ (rows st)) as Hle. fold stageData in Hle.
  assert (start ≤ length (rows st)) as Hstart.
  { destruct (decide (start ≤ length (rows st))) as [|Hgt]; [done|].
    assert (length stageData = 0); [|lia].
    unfold stageData, slice. rewrite length_take, length_drop. lia. }
  rewrite Nat.min_l in Hg, Hc by done.
  assert (end_ - start ≤ STAGE_ROWS) by (unfold end_, start; lia).
  split; [unfold start in *; lia | done].
Qed.

(** ** With distinct time labels, the detection phase keeps every entry *)

Section growing_steps.
Context (pre post : list ProcessedDataRow).

Lemma grows_refl st : grows pre post st st.
Proof. by intros Hinv. Qed.

Lemma grows_trans st1 st2 st3 :
  grows pre post st1 st2 → grows pre post st2 st3 → grows pre post st1 st3.
Proof.
  intros H12 H23 Hinv. destruct (H12 Hinv) as [Hinv2 Hsub2].
  destruct (H23 Hinv2) as [Hinv3 Hsub3]. split; [done|]. by etrans.
Qed.

Lemma grows_loop {B} (f : CleanState → B → CleanState) l st :
  (∀ s b, grows pre post s (f s b)) → grows pre post st (fold_left f l st).
Proof.
  intros Hf. revert st. induction l as [|b l IH]; intros st; simpl.
  - apply grows_refl.
  - eapply grows_trans; [apply Hf | apply IH].
Qed.

Lemma log_removal_grows j col row v rs st :
  rows st !! j = Some row → get col row = Num v →
  grows pre post st (log_removal j col row v rs st).
Proof.
  intros Hrow Hv Hinv. split; [by apply log_removal_inv|].
  pose proof (lookup_lt_Some _ _ _ Hrow) as Hlt.
  unfold log_removal. cbn [auditMap]. apply insert_subseteq.
  eapply (det_inv_removal _ st (length pre + j) row col v
            (mkEntry (t row) (col_name col) v rs REMOVED None) []);
    [exact Hinv | by rewrite embed_lookup | done..].
Qed.

Lemma sd_scan_step_grows i col mean stdDev st j :
  grows pre post st (sd_scan_step i col mean stdDev st j).
Proof.
  destruct (sd_scan_step_cases i col mean stdDev st j)
    as [[-> _]|(row & v & Hrow & Hv & _ & ->)]; [apply grows_refl|].
  by apply log_removal_grows.
Qed.

Lemma sd_col_grows i st col : grows pre post st (sd_col i st col).
Proof.
  unfold sd_col. destruct (_ <? 2); [apply grows_refl|].
  apply grows_loop. intros s j. apply sd_scan_step_grows.
Qed.

Lemma hr_step_grows i st j : grows pre post st (hr_step i st j).
Proof.
  destruct (hr_step_cases i st j)
    as [->|(row & hr & rs & Hrow & Hv & _ & ->)]; [apply grows_refl|].
  by apply log_removal_grows.
Qed.

Lemma stage_passes_grows i st : grows pre post st (stage_passes i st).
Proof.
  unfold stage_passes, hr_pass.
  apply (grows_trans _ (fold_left (sd_col i) OUTLIER_COLS st)).
  - apply grows_loop. intros s c. apply sd_col_grows.
  - apply grows_loop. intros s j. apply hr_step_grows.
Qed.

(** With distinct labels, what the scan logs for a row is still there,
    as it was written, when the scan of the channel ends. *)
Lemma sd_scan_fold_exact i col mean stdDev l st j row v :
  stage_inv pre post st →
  NoDup l → j ∈ l → rows st !! j = Some row → get col row = Num v →
  outside_band mean stdDev v = true →
  let st' := fold_left (sd_scan_step i col mean stdDev) l st in
  stage_inv pre post st'
  ∧ auditMap st' !! logKey (t row) (col_name col)
    = Some (mkEntry (t row) (col_name col) v (ThreeSD (i + 1) mean stdDev) REMOVED None).
Proof.
  revert st. induction l as [|j0 l IH]; intros st Hinv Hnd Hj Hrow Hv Hout; simpl.
  { by apply elem_of_nil in Hj. }
  apply NoDup_cons in Hnd as [Hj0 Hnd].
  destruct (decide (j = j0)) as [->|Hne].
  - destruct (sd_scan_step_cases i col mean stdDev st j0)
      as [[_ Hin]|(row' & v' & Hrow' & Hv' & _ & Heq)].
    { rewrite (Hin row v) in Hout; done. }
    assert (row' = row) as -> by congruence.
    assert (v' = v) as -> by congruence.
    rewrite Heq.
    destruct (log_removal_grows j0 col row v (ThreeSD (i + 1) mean stdDev) st
                Hrow Hv Hinv) as [Hinv1 _].
    destruct (grows_loop (sd_scan_step i col mean stdDev) l _
                (fun s b => sd_scan_step_grows i col mean stdDev s b) Hinv1)
      as [Hinv2 Hsub].
    split; [done|].
    eapply lookup_weaken; [|exact Hsub].
    unfold log_removal. cbn [auditMap]. apply lookup_insert_eq.
  - apply elem_of_cons in Hj as [?|Hj]; [done|].
    apply IH; [by apply sd_scan_step_grows | done | done
              | by rewrite sd_scan_step_other | done | done].
Qed.

End growing_steps.

Lemma detect_stage_grows n st i :
  det_inv (rows st) st →
  det_inv (rows (detect_stage n st i)) (detect_stage n st i)
  ∧ auditMap st ⊆ auditMap (detect_stage n st i).
Proof.
  intros Hinv. split; [by apply detect_stage_inv|].
  unfold detect_stage. destruct (_ && _)%bool; [done|].
  set (start := i * STAGE_ROWS).
  set (stageData := slice start _ (rows st)).
  set (s0 := mkState stageData _ _ _). cbn [auditMap].
  apply (stage_passes_grows (take start (rows st))
           (drop (start + length stageData) (rows st)) i s0).
  unfold stage_inv. change (rows s0) with stageData.
  unfold stageData. rewrite slice_embed. by destruct Hinv.
Qed.

Lemma detect_stages_grow n l st :
  det_inv (rows st) st →
  det_inv (rows (fold_left (detect_stage n) l st)) (fold_left (detect_stage n) l st)
  ∧ auditMap st ⊆ auditMap (fold_left (detect_stage n) l st).
Proof.
  revert st. induction l as [|i l IH]; intros st Hinv; simpl; [done|].
  destruct (detect_stage_grows n st i Hinv) as [Hinv1 Hsub1].
  destruct (IH _ Hinv1) as [Hinv2 Hsub2]. split; [done|]. by etrans.
Qed.

(** ** The 3SD rule inside the detection phase *)

Lemma stage_values_ext col (l l' : list ProcessedDataRow) :
  Forall2 (λ r r', get col r' = get col r) l l' →
  stage_values col l' = stage_values col l.
Proof.
  intros H. unfold stage_values. apply (Forall2_drop _ _ _ 3) in H.
  induction H as [|r r' l0 l0' Hr _ IH]; [done|].
  cbn. by rewrite Hr, IH.
Qed.

Lemma OUTLIER_COLS_split col :
  ∃ before after, OUTLIER_COLS = before ++ col :: after ∧ col ∉ before.
Proof.
  destruct col;
    [ exists [], [VCO2; VE; HR; VT; BF]
    | exists [VO2], [VE; HR; VT; BF]
    | exists [VO2; VCO2], [HR; VT; BF]
    | exists [VO2; VCO2; VE], [VT; BF]
    | exists [VO2; VCO2; VE; HR], [BF]
    | exists [VO2; VCO2; VE; HR; VT], [] ];
    (split; [done|]); rewrite ?elem_of_cons, elem_of_nil; intuition discriminate.
Qed.

Lemma slice_lookup {A} start end_ (l : list A) j :
  j < end_ - start → slice start end_ l !! j = l !! (start + j).
Proof. intros Hj. unfold slice. by rewrite lookup_take_lt, lookup_drop. Qed.

Lemma numStages_of_gt i len : (i + 1) * STAGE_ROWS ≤ len → i < numStages_of len.
Proof.
  intros H. unfold numStages_of, STAGE_ROWS in *.
  pose proof (Nat.div_le_lower_bound (len + (18 - 1)) 18 (i + 1)). lia.
Qed.

(** The 3SD rule in a full stage [i] of a series: what the body of the stage
    loop leaves. *)
Lemma three_sd_rule_stage n (A : CleanState) i col j row v :
  let stageData := slice (i * STAGE_ROWS) ((i + 1) * STAGE_ROWS) (rows A) in
  let values := stage_values col stageData in
  let mean := mean_of values in
  let stdDev := stdDev_of values in
  let key := logKey (t row) (col_name col) in
  let B := detect_stage n A i in
  (i + 1) * STAGE_ROWS ≤ length (rows A) →
  2 ≤ length values → 3 ≤ j →
  stageData !! j = Some row → get col row = Num v →
  outside_band mean stdDev v = true →
  (∃ row', rows B !! (i * STAGE_ROWS + j) = Some row'
           ∧ t row' = t row ∧ get col row' = Null)
  ∧ (∃ e, auditMap B !! key = Some e ∧ action e = REMOVED)
  ∧ (det_inv (rows A) A →
     auditMap B !! key
     = Some (mkEntry (t row) (col_name col) v (ThreeSD (i + 1) mean stdDev)
               REMOVED None)).
Proof.
  intros stageData values mean stdDev key B Hfull Hvalues Hj Hrow Hv Hout.
  set (start := i * STAGE_ROWS).
  assert (length stageData = STAGE_ROWS) as Hlen.
  { unfold stageData. rewrite slice_length by done. lia. }
  pose proof (lookup_lt_Some _ _ _ Hrow) as Hjlt.
  set (s0 := mkState stageData (auditMap A) (outliersRemoved A) (pointsInterpolated A)).
  set (pre := take start (rows A)).
  set (post := drop (start + length stageData) (rows A)).
  assert (length pre = start) as Hpre
    by (unfold pre; rewrite length_take; unfold start; lia).
  assert (B = mkState (pre ++ rows (stage_passes i s0) ++ post)
                (auditMap (stage_passes i s0)) (outliersRemoved (stage_passes i s0))
                (pointsInterpolated (stage_passes i s0))) as HB.
  { unfold B, detect_stage. cbv zeta. rewrite Nat.min_l by done.
    change (slice (i * STAGE_ROWS) ((i + 1) * STAGE_ROWS) (rows A)) with stageData.
    rewrite Hlen, Nat.ltb_irrefl. cbn [andb].
    unfold splice, pre, post, start. by rewrite Hlen. }
  destruct (OUTLIER_COLS_split col) as (before & after & Hsplit & Hbefore).
  set (s_b := fold_left (sd_col i) before s0).
  set (s_c := sd_col i s_b col).
  assert (stage_passes i s0 = hr_pass i (fold_left (sd_col i) after s_c)) as Hpasses.
  { unfold stage_passes. by rewrite Hsplit, fold_left_app. }
  (* the channels scanned before [col] leave its values alone *)
  pose proof (sd_cols_step pre post i s0 before) as Hb.
  pose proof (stage_step_length _ _ _ _ _ Hb) as Hblen.
  change (rows s0) with stageData in Hb, Hblen. fold s_b in Hb, Hblen.
  assert (∀ j' r, stageData !! j' = Some r →
            ∃ rb, rows s_b !! j' = Some rb ∧ t rb = t r ∧ get col rb = get col r)
    as Hsame.
  { intros j' r Hr. pose proof (lookup_lt_Some _ _ _ Hr) as Hlt.
    destruct Hb as [Hb _].
    destruct (nulled_from_frame _ _ _ (length pre + j') r col Hb)
      as (rb & Hrb & Htb & Hcb).
    - by rewrite embed_lookup.
    - intros [_ Hin]. done.
    - rewrite embed_lookup in Hrb by lia. by exists rb. }
  assert (stage_values col (rows s_b) = values) as Hvals.
  { apply stage_values_ext. apply Forall2_same_length_lookup_2; [done|].
    intros j' r rb Hr Hrb. destruct (Hsame j' r Hr) as (rb' & Hrb' & _ & Hc).
    congruence. }
  destruct (Hsame j row Hrow) as (rb & Hrb & Htb & Hcb).
  (* the scan of [col] *)
  pose proof (three_sd_rule i col s_b) as Hscan. cbv zeta in Hscan.
  rewrite Hvals in Hscan. fold mean stdDev s_c in Hscan.
  destruct (Hscan Hvalues) as [_ Hat]. specialize (Hat j rb Hj Hrb).
  rewrite Hcb, Hv, Hout, Htb in Hat. fold key in Hat.
  destruct Hat as (Hnulled & e & He & Hact & _).
  (* what follows in the stage *)
  assert (stage_step (λ _ _, True) pre post s_c (stage_passes i s0)) as [Hrest Hkept].
  { rewrite Hpasses. eapply stage_step_trans.
    - eapply stage_step_mono; [|apply sd_cols_step]. done.
    - eapply stage_step_mono; [|apply hr_pass_step]. done. }
  assert (j < length (rows s_c)) as Hjc by (by eapply lookup_lt_Some).
  split; [|split].
  - destruct (nulled_from_null _ _ _ (length pre + j) (set col Null rb) col Hrest)
      as (r2 & Hr2 & Ht2 & Hn2).
    + by rewrite embed_lookup.
    + apply get_set_eq.
    + exists r2. rewrite HB. cbn [rows]. rewrite <- Hpre.
      rewrite t_set in Ht2. split; [done|]. split; [congruence | done].
  - destruct (Hkept key e He Hact) as (e' & He' & Hact').
    exists e'. by rewrite HB.
  - intros Hinv. rewrite HB. cbn [auditMap].
    assert (stage_inv pre post s0) as Hinv0.
    { unfold stage_inv. change (rows s0) with stageData.
      unfold pre, post, stageData. rewrite slice_embed. by destruct Hinv. }
    destruct (grows_loop pre post (sd_col i) before s0
                (fun s c => sd_col_grows pre post i s c) Hinv0) as [Hinvb _].
    fold s_b in Hinvb.
    assert (s_c = fold_left (sd_scan_step i col mean stdDev)
                    (seq 3 (length (rows s_b) - 3)) s_b) as Hsc.
    { unfold s_c, sd_col. rewrite Hvals. fold mean stdDev.
      destruct (length values <? 2) eqn:Hlt; [apply Nat.ltb_lt in Hlt; lia | done]. }
    destruct (sd_scan_fold_exact pre post i col mean stdDev
                (seq 3 (length (rows s_b) - 3)) s_b j rb v Hinvb (NoDup_seq _ _))
      as [Hinvc Hexact]; [|done|congruence|congruence|].
    { apply elem_of_seq. apply lookup_lt_Some in Hrb. lia. }
    rewrite <- Hsc in Hinvc. rewrite <- Hsc, Htb in Hexact.
    assert (grows pre post s_c (stage_passes i s0)) as Hgrow.
    { rewrite Hpasses. unfold hr_pass.
      apply (grows_trans _ _ _ (fold_left (sd_col i) after s_c)).
      - apply grows_loop. intros s c. apply sd_col_grows.
      - apply grows_loop. intros s k. apply hr_step_grows. }
    destruct (Hgrow Hinvc) as [_ Hsub].
    by eapply lookup_weaken.
Qed.

Lemma detect_stages_step may n l st :
  (∀ i g c, i ∈ l → stage_cells (i * STAGE_ROWS) ((i + 1) * STAGE_ROWS) g c → may g c) →
  phase_step may st (fold_left (detect_stage n) l st).
Proof.
  intros Hmay. apply phase_step_loop. intros s i Hi.
  eapply phase_step_mono; [|apply detect_stage_step]. intros g c. by apply Hmay.
Qed.

Lemma stage_cells_scanned i g c :
  stage_cells (i * STAGE_ROWS) ((i + 1) * STAGE_ROWS) g c →
  c = HR ∨ 3 ≤ g `mod` STAGE_ROWS.
Proof.
  intros [Hg [->|Hc]]; [by left | right].
  replace g with (g - i * STAGE_ROWS + i * STAGE_ROWS) by lia.
  rewrite Nat.Div0.mod_add, Nat.mod_small; unfold STAGE_ROWS in *; lia.
Qed.

(** C1, as amended.  Take a full stage [i] of the series and a primary
    channel with at least 2 numbers among the rows of the stage after the
    first 3; let the band be computed from the mean and the population
    standard deviation of those numbers.  Every number at a row [j >= 3] of
    the stage that lies below [mean - 3 * stdDev] or above
    [mean + 3 * stdDev] is [null] when the detection phase ends, and the
    audit map holds a [REMOVED] entry under its (time, channel) key; when the
    time labels of the series are distinct, that entry is the one the rule
    wrote: the original value, and a reason holding the stage number [i + 1],
    the mean and the deviation.  And, whatever the series holds, the first 3
    rows of every stage are not scanned by the rule: in every channel but the
    heart rate, which has a pass of its own, they hold after the detection
    phase what they held before. *)
Theorem three_sd_rule_detect (data : list ProcessedDataRow) :
  let tmp := json_copy data in
  let st := detect (mkState tmp ∅ 0 0) in
  (∀ (i : nat) (col : Col) (j : nat) (row : ProcessedDataRow) (v : float),
     let stageData := slice (i * STAGE_ROWS) ((i + 1) * STAGE_ROWS) tmp in
     let values := stage_values col stageData in
     let mean := mean_of values in
     let stdDev := stdDev_of values in
     let key := logKey (t row) (col_name col) in
     (i + 1) * STAGE_ROWS ≤ length data →
     2 ≤ length values →
     3 ≤ j → stageData !! j = Some row → get col row = Num v →
     outside_band mean stdDev v = true →
     (∃ row', rows st !! (i * STAGE_ROWS + j) = Some row'
              ∧ t row' = t row ∧ get col row' = Null)
     ∧ (∃ e, auditMap st !! key = Some e ∧ action e = REMOVED)
     ∧ (NoDup (t <$> data) →
        auditMap st !! key
        = Some (mkEntry (t row) (col_name col) v (ThreeSD (i + 1) mean stdDev)
                  REMOVED None)))
  ∧ (∀ g r c, tmp !! g = Some r → c ≠ HR → g `mod` STAGE_ROWS < 3 →
       ∃ r', rows st !! g = Some r' ∧ get c r' = get c r).
Proof.
  intros tmp st. set (st0 := mkState tmp ∅ 0 0). split; cycle 1.
  { intros g r c Hr Hc Hg.
    assert (phase_step (λ g c, c = HR ∨ 3 ≤ g `mod` STAGE_ROWS) st0 st) as [Hall _].
    { unfold st, detect. apply detect_stages_step.
      intros i' g' c' _. apply stage_cells_scanned. }
    destruct (nulled_from_frame _ _ _ g r c Hall Hr) as (r' & Hr' & _ & Hc').
    - intros [?|?]; [done | lia].
    - by exists r'. }
  intros i col j row v stageData values mean stdDev key Hfull Hvalues Hj Hrow Hv Hout.
  set (n := numStages_of (length tmp)).
  assert (length tmp = length data) as Htmp by apply json_copy_length.
  assert (i < n) as Hin by (apply numStages_of_gt; lia).
  assert (st = fold_left (detect_stage n) (seq (S i) (n - S i))
                 (detect_stage n (fold_left (detect_stage n) (seq 0 i) st0) i))
    as Hst.
  { unfold st, detect. fold st0. change (rows st0) with tmp. fold n.
    replace n with (i + S (n - S i)) at 2 by lia.
    by rewrite seq_app, fold_left_app. }
  set (A := fold_left (detect_stage n) (seq 0 i) st0) in Hst.
  set (B := detect_stage n A i) in Hst.
  (* the stages before [i] leave the rows of stage [i] alone *)
  assert (phase_step (λ g _, g < i * STAGE_ROWS) st0 A) as [HA _].
  { apply detect_stages_step. intros i' g c Hi' [Hg _].
    apply elem_of_seq in Hi'. unfold STAGE_ROWS in *. nia. }
  change (rows st0) with tmp in HA.
  pose proof HA as [HAlen _].
  set (stageData_A := slice (i * STAGE_ROWS) ((i + 1) * STAGE_ROWS) (rows A)).
  assert (∀ j' r, stageData !! j' = Some r →
            ∃ rA, stageData_A !! j' = Some rA ∧ t rA = t r ∧ get col rA = get col r)
    as Hsame.
  { intros j' r Hr. pose proof (lookup_lt_Some _ _ _ Hr) as Hlt.
    unfold stageData in Hlt. rewrite slice_length in Hlt by lia.
    unfold stageData in Hr. rewrite slice_lookup in Hr by done.
    destruct (nulled_from_frame _ _ _ _ r col HA Hr) as (rA & HrA & ? & ?); [lia|].
    exists rA. unfold stageData_A. by rewrite slice_lookup. }
  assert (stage_values col stageData_A = values) as Hvals.
  { apply stage_values_ext. apply Forall2_same_length_lookup_2.
    - unfold stageData, stageData_A. rewrite !slice_length by lia. done.
    - intros j' r rA Hr HrA. destruct (Hsame j' r Hr) as (rA' & HrA' & _ & Hc).
      congruence. }
  destruct (Hsame j row Hrow) as (rA & HrA & HtA & HcA).
  destruct (three_sd_rule_stage n A i col j rA v) as (Hnull & Hlog & Hexact);
    [lia | by fold stageData_A; rewrite Hvals | done | done | congruence
    | by fold stageData_A; rewrite Hvals |].
  fold stageData_A B in Hnull, Hlog, Hexact. rewrite Hvals, HtA in *.
  fold mean stdDev key in Hexact, Hlog.
  (* the stages after [i] *)
  assert (phase_step (λ _ _, True) B st) as [HC HClog].
  { rewrite Hst. by apply detect_stages_step. }
  split; [|split].
  - destruct Hnull as (rB & HrB & HtB & HnB).
    destruct (nulled_from_null _ _ _ _ rB col HC HrB HnB) as (r' & Hr' & Ht' & Hn').
    exists r'. split; [done|]. split; [congruence | done].
  - destruct Hlog as (e & He & Hact). by apply (HClog key e).
  - intros Hnd.
    assert (det_inv (rows st0) st0) as Hinv0.
    { constructor; cbn; [|done..]. unfold tmp, json_copy.
      rewrite <- list_fmap_compose. by replace (t ∘ json_row) with t by done. }
    destruct (detect_stages_grow n (seq 0 i) st0 Hinv0) as [HinvA _]. fold A in HinvA.
    destruct (detect_stage_grows n A i HinvA) as [HinvB _]. fold B in HinvB.
    destruct (detect_stages_grow n (seq (S i) (n - S i)) B HinvB) as [_ Hsub].
    rewrite <- Hst in Hsub. eapply lookup_weaken; [|exact Hsub]. by apply Hexact.
Qed.

(** On [outlier_sample] the 1000 L/min of row 10 is rejected by the rule of
    stage 1, and the first three rows come out with the V'O2 they had. *)
Lemma three_sd_rule_detect_witness :
  let values := stage_values VO2 (json_copy outlier_sample) in
  let st := detect (mkState (json_copy outlier_sample) ∅ 0 0) in
  (∃ row', rows st !! 10 = Some row' ∧ t row' = "10"%string ∧ get VO2 row' = Null)
  ∧ auditMap st !! logKey "10" "V'O2"
    = Some (mkEntry "10" "V'O2" 1000
              (ThreeSD 1 (mean_of values) (stdDev_of values)) REMOVED None)
  ∧ (∃ r0, rows st !! 0 = Some r0 ∧ get VO2 r0 = Num 2)
  ∧ (∃ r1, rows st !! 1 = Some r1 ∧ get VO2 r1 = Num 2)
  ∧ (∃ r2, rows st !! 2 = Some r2 ∧ get VO2 r2 = Num 2).
Proof.
  pose proof (three_sd_rule_detect outlier_sample) as [Hrule Hfirst].
  destruct (Hrule 0 VO2 10 (Sample.row "10" 100 (Num 1000)) 1000%float)
    as (Hnull & _ & Hexact);
    [vm_compute; lia | vm_compute; lia | lia | vm_compute; reflexivity
    | reflexivity | vm_compute; reflexivity |].
  split; [exact Hnull|]. split.
  { apply Hexact. apply (bool_decide_unpack _). vm_compute. reflexivity. }
  split; [|split].
  - exact (Hfirst 0 (Sample.row "0" 0 (Num 2)) VO2 ltac:(vm_compute; reflexivity)
             ltac:(discriminate) ltac:(vm_compute; lia)).
  - exact (Hfirst 1 (Sample.row "1" 10 (Num 2)) VO2 ltac:(vm_compute; reflexivity)
             ltac:(discriminate) ltac:(vm_compute; lia)).
  - exact (Hfirst 2 (Sample.row "2" 20 (Num 2)) VO2 ltac:(vm_compute; reflexivity)
             ltac:(discriminate) ltac:(vm_compute; lia)).
Defined.

(** C1 as stated fails on [early_outlier_sample]: the first row holds 1000,
    far outside the band of the stage (mean 2, deviation 0), and yet it
    is neither nulled nor logged, by the detection phase or by the whole
    cleaning. *)
Lemma first_rows_not_scanned :
  let stageData := json_copy early_outlier_sample in
  let values := stage_values VO2 stageData in
  let st' := detect (mkState stageData ∅ 0 0) in
  length stageData = STAGE_ROWS
  ∧ length values = 15
  ∧ outside_band (mean_of values) (stdDev_of values) 1000 = true
  ∧ get VO2 <$> stageData !! 0 = Some (Num 1000)
  ∧ get VO2 <$> rows st' !! 0 = Some (Num 1000)
  ∧ auditMap st' = ∅
  ∧ get VO2 <$> cleanedData (cleanAndInterpolateData early_outlier_sample 70) !! 0
    = Some (Num 1000)
  ∧ auditLog (cleanAndInterpolateData early_outlier_sample 70) = [].
Proof. vm_compute. repeat split; reflexivity. Qed.

(** ** An induction principle for the detection phase *)

Section detection_invariant.
Context (Inv : CleanState → Prop).
Hypothesis Inv_removal : ∀ st j col row v rs,
  rows st !! j = Some row → get col row = Num v →
  Inv st → Inv (log_removal j col row v rs st).

Lemma embed_log_removal pre post st j col row v rs :
  j < length (rows st) →
  embed pre post (log_removal j col row v rs st)
  = log_removal (length pre + j) col row v rs (embed pre post st).
Proof.
  intros Hj. unfold embed, log_removal. cbn [rows auditMap outliersRemoved pointsInterpolated].
  by rewrite embed_insert.
Qed.

Lemma log_removal_Inv pre post st j col row v rs :
  rows st !! j = Some row → get col row = Num v →
  Inv (embed pre post st) → Inv (embed pre post (log_removal j col row v rs st)).
Proof.
  intros Hrow Hv Hinv. pose proof (lookup_lt_Some _ _ _ Hrow) as Hlt.
  rewrite embed_log_removal by done. apply Inv_removal; [|done..].
  unfold embed. cbn [rows]. by rewrite embed_lookup.
Qed.

Lemma stage_passes_Inv pre post i st :
  Inv (embed pre post st) → Inv (embed pre post (stage_passes i st)).
Proof.
  intros Hinv. unfold stage_passes, hr_pass.
  apply (fold_left_preserves _ (λ s, Inv (embed pre post s))).
  { intros s j Hs. destruct (hr_step_cases i s j)
      as [->|(row & hr & rs & Hrow & Hv & _ & ->)]; [done|].
    by apply log_removal_Inv. }
  apply (fold_left_preserves _ (λ s, Inv (embed pre post s))); [|done].
  intros s c Hs. unfold sd_col. destruct (_ <? 2); [done|].
  apply (fold_left_preserves _ (λ s, Inv (embed pre post s))); [|done].
  intros s' j Hs'. destruct (sd_scan_step_cases i c (mean_of (stage_values c (rows s)))
                               (stdDev_of (stage_values c (rows s))) s' j)
    as [[-> _]|(row & v & Hrow & Hv & _ & ->)]; [done|].
  by apply log_removal_Inv.
Qed.

Lemma detect_stage_Inv n st i : Inv st → Inv (detect_stage n st i).
Proof.
  intros Hinv. unfold detect_stage. destruct (_ && _)%bool; [done|].
  set (start := i * STAGE_ROWS).
  set (stageData := slice start _ (rows st)).
  apply (stage_passes_Inv (take start (rows st))
           (drop (start + length stageData) (rows st)) i
           (mkState stageData (auditMap st) (outliersRemoved st) (pointsInterpolated st))).
  unfold embed. cbn [rows auditMap outliersRemoved pointsInterpolated].
  unfold stageData. rewrite slice_embed. by destruct st.
Qed.

Lemma detect_Inv st : Inv st → Inv (detect st).
Proof.
  intros Hinv. unfold detect. apply fold_left_preserves; [|done].
  intros s j. apply detect_stage_Inv.
Qed.

End detection_invariant.

Lemma interpolate_all_preserves (Inv : CleanState → Prop) st :
  (∀ col s i, Inv s → Inv (interp_step col s i)) →
  Inv st → Inv (interpolate_all st).
Proof.
  intros Hstep Hinv. unfold interpolate_all. apply fold_left_preserves; [|done].
  intros s c Hs. unfold interp_col. apply fold_left_preserves; [|done].
  intros s' j. apply Hstep.
Qed.

(** What a step of the interpolation loop does to the rows: nothing, or it
    fills the null cell at hand, whose nearest non-null neighbours in the
    stage are at most 3 apart. *)
Lemma interp_step_rows col st i :
  rows (interp_step col st i) = rows st
  ∨ ∃ row p n x,
      rows st !! i = Some row ∧ get col row = Null
      ∧ nearest_prev (rows st) col i p ∧ nearest_next (rows st) col i n
      ∧ n - p ≤ 3
      ∧ rows (interp_step col st i) = <[i := set col (Num x) row]> (rows st).
Proof.
  unfold interp_step.
  destruct (rows st !! i) as [row|] eqn:Hrow; [|by left].
  destruct (get col row) as [| |x] eqn:Hcell; cbn [is_null]; [by left| |by left].
  destruct (prevIndex_of _ _ _) as [p|] eqn:Hp; [|by left].
  destruct (nextIndex_of _ _ _) as [n|] eqn:Hn; [|by left].
  destruct (n - p <=? 3) eqn:Hgap; [|by left].
  apply prevIndex_of_nearest in Hp. apply nextIndex_of_nearest in Hn.
  apply Nat.leb_le in Hgap.
  right. exists row, p, n.
  destruct (auditMap st !! _) as [logEntry|]; [|by eexists].
  destruct (_ <? _)%float; by eexists.
Qed.

(** ** The fields the cleaning keeps *)

Lemma kept_fields_refl r : kept_fields r r.
Proof. by repeat split. Qed.

Lemma kept_fields_trans r1 r2 r3 :
  kept_fields r1 r2 → kept_fields r2 r3 → kept_fields r1 r3.
Proof.
  intros (? & ? & ? & ? & H12) (? & ? & ? & ? & H23).
  repeat split; try congruence; intros ?; [by apply H12, H23 | by apply H23, H12].
Qed.

Lemma kept_fields_set c v r :
  get c r ≠ Undefined → v ≠ Undefined → kept_fields r (set c v r).
Proof.
  intros Hr Hv. split; [apply t_set|]. split; [by destruct c|].
  split; [by destruct c|]. split; [by destruct c|].
  intros c'. destruct (decide (c' = c)) as [->|Hne].
  - rewrite get_set_eq. by split.
  - by rewrite get_set_ne.
Qed.

Lemma kept_fields_insert (G0 G : list ProcessedDataRow) j c v row :
  Forall2 kept_fields G0 G → G !! j = Some row →
  get c row ≠ Undefined → v ≠ Undefined →
  Forall2 kept_fields G0 (<[j := set c v row]> G).
Proof.
  intros HG Hrow Hc Hv.
  destruct (Forall2_lookup_r _ _ _ _ _ HG Hrow) as (r0 & Hr0 & Hk).
  rewrite <- (list_insert_id G0 j r0) by done.
  apply Forall2_insert; [done|].
  eapply kept_fields_trans; [done|]. by apply kept_fields_set.
Qed.

Lemma clean_state_kept_fields G0 st :
  Forall2 kept_fields G0 (rows st) →
  Forall2 kept_fields G0 (rows (interpolate_all (detect st))).
Proof.
  intros H0.
  apply (interpolate_all_preserves (λ s, Forall2 kept_fields G0 (rows s))).
  - intros col s i Hs. destruct (interp_step_rows col s i)
      as [->|(row & p & n & x & Hrow & Hnull & _ & _ & _ & ->)]; [done|].
    apply kept_fields_insert; [done..| |done]. by rewrite Hnull.
  - apply (detect_Inv (λ s, Forall2 kept_fields G0 (rows s))); [|done].
    intros s j col row v rs Hrow Hv Hs. unfold log_removal. cbn [rows].
    apply kept_fields_insert; [done..| |done]. by rewrite Hv.
Qed.

(** X1.  [cleanAndInterpolateData] returns one row for every row of the input,
    in the same order: the row at an index keeps its label and [Marker], its
    time and [Load] are the deep copies of the input's, it lacks the primary
    channels the input row lacks, and its derived channels are the ones
    computed from its primary channels. *)
Theorem cleaning_keeps_rows (data : list ProcessedDataRow) (bodyWeight : float)
    (i : nat) (r : ProcessedDataRow) :
  data !! i = Some r →
  length (cleanedData (cleanAndInterpolateData data bodyWeight)) = length data
  ∧ ∃ r',
      cleanedData (cleanAndInterpolateData data bodyWeight) !! i = Some r'
      ∧ t r' = t r ∧ rTimeInSeconds r' = json_cell (rTimeInSeconds r)
      ∧ Marker r' = Marker r ∧ Load r' = json_cell (Load r)
      ∧ (∀ c, get c r' = Undefined ↔ get c r = Undefined)
      ∧ recalculateDerivedMetrics r' bodyWeight = r'.
Proof.
  intros Hr.
  assert (Forall2 kept_fields (json_copy data) (rows (clean_state data))) as HF.
  { apply clean_state_kept_fields. cbn [rows]. apply Forall_Forall2_diag, Forall_forall.
    intros ? _. apply kept_fields_refl. }
  unfold cleanAndInterpolateData. cbn [cleanedData].
  split.
  { rewrite length_map, <- (Forall2_length _ _ _ HF). apply json_copy_length. }
  assert (json_copy data !! i = Some (json_row r)) as Hj
    by (by rewrite json_copy_lookup, Hr).
  destruct (Forall2_lookup_l _ _ _ _ _ HF Hj) as (r1 & Hr1 & Ht & Htime & Hload & Hmark & Hundef).
  exists (recalculateDerivedMetrics r1 bodyWeight).
  split; [by rewrite list_lookup_fmap, Hr1|].
  split; [done|]. split; [done|]. split; [done|]. split; [done|].
  split; [|done].
  intros c. rewrite get_recalculate, Hundef, get_json_row.
  destruct (get c r) as [| |x]; [done..|].
  simpl. by destruct (JS.json_number x).
Qed.

(** Row 10 of [outlier_sample], whose V'O2 is rejected and interpolated. *)
Lemma cleaning_keeps_rows_witness :
  let r := Sample.row "10" 100 (Num 1000) in
  let cleaned := cleanedData (cleanAndInterpolateData outlier_sample 70) in
  length cleaned = length outlier_sample
  ∧ ∃ r', cleaned !! 10 = Some r'
          ∧ t r' = t r ∧ rTimeInSeconds r' = json_cell (rTimeInSeconds r)
          ∧ Marker r' = Marker r ∧ Load r' = json_cell (Load r)
          ∧ (∀ c, get c r' = Undefined ↔ get c r = Undefined)
          ∧ recalculateDerivedMetrics r' 70 = r'.
Proof.
  apply (cleaning_keeps_rows outlier_sample 70 10 (Sample.row "10" 100 (Num 1000))).
  vm_compute. reflexivity.
Defined.

(** ** A series shorter than a stage *)

Lemma detect_short st : length (rows st) < STAGE_ROWS → detect st = st.
Proof.
  intros Hlen. unfold detect.
  destruct (decide (length (rows st) = 0)) as [->|Hpos]; [done|].
  pose proof (numStages_of_partial 0 (length (rows st)) ltac:(lia)) as Hn.
  change (0 * STAGE_ROWS + length (rows st)) with (length (rows st)) in Hn.
  rewrite Hn. cbn [Nat.add seq fold_left]. unfold detect_stage.
  rewrite slice_length by lia.
  replace (_ <? STAGE_ROWS) with true by (symmetry; apply Nat.ltb_lt; lia).
  done.
Qed.

(** The interpolation phase never writes over a number. *)
Lemma interp_step_keeps_number col st j i r c x :
  rows st !! i = Some r → get c r = Num x →
  ∃ r', rows (interp_step col st j) !! i = Some r' ∧ get c r' = Num x.
Proof.
  intros Hr Hx. destruct (interp_step_rows col st j)
    as [->|(row & p & n & y & Hrow & Hnull & _ & _ & _ & ->)]; [by exists r|].
  destruct (decide (i = j)) as [->|Hne].
  - assert (row = r) as -> by congruence.
    exists (set col (Num y) r). rewrite list_lookup_insert_eq by by eapply lookup_lt_Some.
    split; [done|]. rewrite get_set_ne; [done|]. congruence.
  - exists r. by rewrite list_lookup_insert_ne.
Qed.

Lemma interpolate_all_keeps_number st i r c x :
  rows st !! i = Some r → get c r = Num x →
  ∃ r', rows (interpolate_all st) !! i = Some r' ∧ get c r' = Num x.
Proof.
  intros Hr Hx.
  apply (interpolate_all_preserves
           (λ s, ∃ r', rows s !! i = Some r' ∧ get c r' = Num x)); [|by exists r].
  intros col s j (r' & Hr' & Hx'). by eapply interp_step_keeps_number.
Qed.

(** Without entries in the audit map, interpolation logs and counts
    nothing. *)
Lemma interp_step_unlogged col st i :
  auditMap st = ∅ →
  auditMap (interp_step col st i) = ∅
  ∧ outliersRemoved (interp_step col st i) = outliersRemoved st
  ∧ pointsInterpolated (interp_step col st i) = pointsInterpolated st.
Proof.
  intros Hm. destruct (interp_step_cases col st i)
    as [->|(row & v & Hrow & Hnull & Hcase)]; [done|].
  rewrite Hm, lookup_empty in Hcase. by rewrite Hcase.
Qed.

(** X2.  A series of fewer than 18 rows is one partial stage: nothing is
    rejected.  The audit log is empty, both counters are zero, and every
    number of the input is in the output. *)
Theorem short_series_not_screened (data : list ProcessedDataRow) (bodyWeight : float) :
  length data < STAGE_ROWS →
  let result := cleanAndInterpolateData data bodyWeight in
  auditLog result = []
  ∧ stats result = mkStats 0 0
  ∧ ∀ i r c x, data !! i = Some r → json_cell (get c r) = Num x →
      ∃ r', cleanedData result !! i = Some r' ∧ get c r' = Num x.
Proof.
  intros Hlen result. unfold result, cleanAndInterpolateData, clean_state.
  cbn [auditLog stats cleanedData].
  rewrite detect_short by (cbn [rows]; by rewrite json_copy_length).
  set (st0 := mkState (json_copy data) ∅ 0 0).
  assert (auditMap (interpolate_all st0) = ∅
          ∧ outliersRemoved (interpolate_all st0) = 0%Z
          ∧ pointsInterpolated (interpolate_all st0) = 0%Z) as (Hm & Ho & Hp).
  { apply (interpolate_all_preserves
             (λ s, auditMap s = ∅ ∧ outliersRemoved s = 0%Z ∧ pointsInterpolated s = 0%Z));
      [|done].
    intros col s i (Hm & Ho & Hp).
    destruct (interp_step_unlogged col s i Hm) as (-> & -> & ->). done. }
  rewrite Hm, Ho, Hp, map_to_list_empty. split; [done|]. split; [done|].
  intros i r c x Hr Hx.
  destruct (interpolate_all_keeps_number st0 i (json_row r) c x) as (r' & Hr' & Hx').
  { unfold st0. cbn [rows]. by rewrite json_copy_lookup, Hr. }
  { by rewrite get_json_row. }
  exists (recalculateDerivedMetrics r' bodyWeight).
  by rewrite list_lookup_fmap, Hr', get_recalculate.
Qed.

(** On [short_sample] the 1000 L/min of row 1 stays. *)
Lemma short_series_not_screened_witness :
  auditLog (cleanAndInterpolateData short_sample 70) = []
  ∧ stats (cleanAndInterpolateData short_sample 70) = mkStats 0 0
  ∧ ∃ r', cleanedData (cleanAndInterpolateData short_sample 70) !! 1 = Some r'
          ∧ get VO2 r' = Num 1000.
Proof.
  assert (length short_sample < STAGE_ROWS) as Hlen by (vm_compute; lia).
  destruct (short_series_not_screened short_sample 70 Hlen) as (Hlog & Hstats & Hkept).
  split; [exact Hlog|]. split; [exact Hstats|].
  apply (Hkept 1 (Sample.row "1" 10 (Num 1000)) VO2 1000%float); reflexivity.
Defined.

(** ** The counters never run behind the log *)

Lemma log_of_delete_le a m k :
  length (log_of (delete k m)) ≤ length (log_of m)
  ∧ count_action a (log_of (delete k m)) ≤ count_action a (log_of m).
Proof.
  destruct (m !! k) as [e|] eqn:Hk.
  - rewrite (log_of_delete m k e Hk), count_action_cons. cbn [length]. lia.
  - by rewrite delete_id.
Qed.

Lemma counters_cover_removal st j col row v rs :
  counters_cover st → counters_cover (log_removal j col row v rs st).
Proof.
  intros [Hlen Hint]. unfold counters_cover, log_removal.
  cbn [auditMap outliersRemoved pointsInterpolated].
  rewrite log_of_insert_over, count_action_cons. cbn [length action].
  destruct (log_of_delete_le INTERPOLATED (auditMap st) (logKey (t row) (col_name col))).
  case_decide; [done|]. lia.
Qed.

Lemma counters_cover_interp col st i :
  counters_cover st → counters_cover (interp_step col st i).
Proof.
  intros [Hlen Hint]. destruct (interp_step_cases col st i)
    as [->|(row & v & Hrow & Hnull & Hcase)]; [done|].
  set (k := logKey (t row) (col_name col)) in *.
  destruct (log_of_delete_le INTERPOLATED (auditMap st) k) as [Hl Hc].
  destruct (auditMap st !! k) as [e|] eqn:Hk.
  - pose proof (log_of_delete _ _ _ Hk) as Hperm.
    destruct Hcase as [-> | ->]; unfold counters_cover, restore_original, upgrade_entry;
      cbn [auditMap outliersRemoved pointsInterpolated]; fold k.
    + rewrite Hperm in Hlen. cbn [length] in Hlen. lia.
    + rewrite log_of_insert_over, count_action_cons. cbn [length action].
      rewrite Hperm in Hlen. cbn [length] in Hlen. case_decide; lia.
  - by rewrite Hcase.
Qed.

(** X3.  Whatever the input, the two counters of the statistics are at least
    what the audit log shows: the log has at most [outliersRemoved] entries,
    at most [pointsInterpolated] of them [INTERPOLATED]; neither counter is
    negative. *)
Theorem stats_cover_audit_log (data : list ProcessedDataRow) (bodyWeight : float) :
  let result := cleanAndInterpolateData data bodyWeight in
  (Z.of_nat (length (auditLog result)) ≤ stats_outliersRemoved (stats result))%Z
  ∧ (Z.of_nat (count_action INTERPOLATED (auditLog result))
     ≤ stats_pointsInterpolated (stats result))%Z.
Proof.
  intros result. unfold result, cleanAndInterpolateData, clean_state.
  cbn [auditLog stats stats_outliersRemoved stats_pointsInterpolated].
  apply (interpolate_all_preserves counters_cover);
    [intros col s i; apply counters_cover_interp|].
  apply (detect_Inv counters_cover).
  - intros st j col row v rs _ _. apply counters_cover_removal.
  - split; cbn; done.
Qed.

(** ** What the audit log says *)

Section audit_trail.
Context (G0 : list ProcessedDataRow).
Hypothesis Hnd : NoDup (t <$> G0).

Lemma same_key i i' r0 r0' c c' :
  G0 !! i = Some r0 → G0 !! i' = Some r0' →
  logKey (t r0) (col_name c) = logKey (t r0') (col_name c') → i = i' ∧ c = c'.
Proof.
  intros Hi Hi' [Ht Hc]%logKey_inj. split; [|done].
  by eapply labels_lookup_inj.
Qed.

(** One cell is written and its key, at most, changes in the map. *)
Lemma audited_update gaps st i col row r0 v' m' o p :
  audited gaps G0 st → rows st !! i = Some row → G0 !! i = Some r0 →
  (∀ k', k' ≠ logKey (t r0) (col_name col) → m' !! k' = auditMap st !! k') →
  match m' !! logKey (t r0) (col_name col) with
  | Some e' => entry_for r0 col e' ∧ entry_shows e' v' ∧ (gaps = false → action e' = REMOVED)
  | None => v' = get col r0 ∨ (gaps = true ∧ get col r0 = Null)
  end →
  audited gaps G0 (mkState (<[i := set col v' row]> (rows st)) m' o p).
Proof.
  intros [Hlab Hsound Hcomp Hrem] Hrow Hr0 Hother Hkey.
  pose proof (lookup_lt_Some _ _ _ Hrow) as Hlt.
  set (k := logKey (t r0) (col_name col)) in *.
  constructor; cbn [rows auditMap].
  - rewrite <- (list_insert_id G0 i r0) by done.
    apply Forall2_insert; [done|]. rewrite t_set.
    destruct (Forall2_lookup_l _ _ _ _ _ Hlab Hr0) as (row' & Hrow' & Ht). congruence.
  - intros k' e' Hk'. destruct (decide (k' = k)) as [->|Hne].
    + rewrite Hk' in Hkey. destruct Hkey as (Hfor & Hshows & _).
      exists i, r0, (set col v' row), col.
      by rewrite list_lookup_insert_eq, get_set_eq.
    + rewrite Hother in Hk' by done.
      destruct (Hsound k' e' Hk') as (i' & r0' & r' & c' & Hr0' & Hr' & -> & Hfor & Hshows).
      destruct (decide (i' = i)) as [->|Hi].
      * assert (r0' = r0) as -> by congruence. assert (r' = row) as -> by congruence.
        assert (c' ≠ col) by (intros ->; by apply Hne).
        exists i, r0, (set col v' row), c'.
        by rewrite list_lookup_insert_eq, get_set_ne.
      * exists i', r0', r', c'. by rewrite list_lookup_insert_ne.
  - intros i' r0' r' c Hr0' Hr'. destruct (decide (i' = i)) as [->|Hi].
    + assert (r0' = r0) as -> by congruence.
      rewrite list_lookup_insert_eq in Hr' by done. injection Hr' as <-.
      destruct (decide (c = col)) as [->|Hc].
      * rewrite get_set_eq. fold k. destruct (m' !! k) as [e'|]; [by right; right|].
        destruct Hkey as [?|?]; auto.
      * rewrite get_set_ne by done.
        destruct (Hcomp i r0 row c Hr0 Hrow) as [?|[?|Hsome]]; auto.
        right; right. rewrite Hother; [done|].
        intros [_ ?]%logKey_inj. done.
    + rewrite list_lookup_insert_ne in Hr' by done.
      destruct (Hcomp i' r0' r' c Hr0' Hr') as [?|[?|Hsome]]; auto.
      right; right. rewrite Hother; [done|].
      intros Heq. by destruct (same_key _ _ _ _ _ _ Hr0' Hr0 Heq).
  - intros Hgaps k' e' Hk'. destruct (decide (k' = k)) as [->|Hne].
    + rewrite Hk' in Hkey. by apply Hkey.
    + rewrite Hother in Hk' by done. by eapply Hrem.
Qed.

(** The entry under the key of a cell is the entry of that cell. *)
Lemma audited_entry gaps st i r0 r c e :
  audited gaps G0 st → G0 !! i = Some r0 → rows st !! i = Some r →
  auditMap st !! logKey (t r0) (col_name c) = Some e →
  entry_for r0 c e ∧ entry_shows e (get c r).
Proof.
  intros [_ Hsound _ _] Hr0 Hr He.
  destruct (Hsound _ _ He) as (i' & r0' & r' & c' & Hr0' & Hr' & Hk & Hfor & Hshows).
  destruct (same_key _ _ _ _ _ _ Hr0 Hr0' Hk) as [<- <-].
  assert (r0' = r0) as -> by congruence. assert (r' = r) as -> by congruence. done.
Qed.

Lemma audited_row gaps st i row :
  audited gaps G0 st → rows st !! i = Some row →
  ∃ r0, G0 !! i = Some r0 ∧ t row = t r0.
Proof. intros [Hlab _ _ _] Hrow. apply (Forall2_lookup_r _ _ _ _ _ Hlab Hrow). Qed.

Lemma audited_removal st j col row v rs :
  rows st !! j = Some row → get col row = Num v →
  audited false G0 st → audited false G0 (log_removal j col row v rs st).
Proof.
  intros Hrow Hv Haud. destruct (audited_row _ _ _ _ Haud Hrow) as (r0 & Hr0 & Ht).
  assert (get col r0 = Num v) as Hv0.
  { destruct (aud_complete _ _ _ Haud j r0 row col Hr0 Hrow) as [<-|[[? _]|[e He]]];
      [done..|].
    destruct (audited_entry _ _ _ _ _ _ _ Haud Hr0 Hrow He) as [_ Hshows].
    unfold entry_shows in Hshows. rewrite (aud_removed _ _ _ Haud eq_refl _ _ He) in Hshows.
    destruct Hshows as [_ ?]. congruence. }
  unfold log_removal. rewrite Ht.
  apply (audited_update false st j col row r0); [done..| |].
  - intros k' Hk'. by rewrite lookup_insert_ne.
  - rewrite lookup_insert_eq. by repeat split.
Qed.

Lemma audited_gaps st : audited false G0 st → audited true G0 st.
Proof.
  intros [Hlab Hsound Hcomp Hrem]. constructor; [done..| |done].
  intros i r0 r c Hr0 Hr. destruct (Hcomp i r0 r c Hr0 Hr) as [?|[[[=] _]|?]]; auto.
Qed.

Lemma audited_interp col st i :
  audited true G0 st → audited true G0 (interp_step col st i).
Proof.
  intros Haud. destruct (interp_step_cases col st i)
    as [->|(row & v & Hrow & Hnull & Hcase)]; [done|].
  destruct (audited_row _ _ _ _ Haud Hrow) as (r0 & Hr0 & Ht).
  rewrite Ht in Hcase.
  destruct (auditMap st !! _) as [e|] eqn:He.
  - destruct (audited_entry _ _ _ _ _ _ _ Haud Hr0 Hrow He) as [(Htime & Hcol & Horig) _].
    destruct Hcase as [-> | ->]; unfold restore_original, upgrade_entry; rewrite Ht.
    + apply (audited_update true st i col row r0); [done..| |].
      * intros k' Hk'. by rewrite lookup_delete_ne.
      * rewrite lookup_delete_eq. by left.
    + apply (audited_update true st i col row r0); [done..| |].
      * intros k' Hk'. by rewrite lookup_insert_ne.
      * rewrite lookup_insert_eq. repeat split; [done..| |done].
        unfold entry_shows. cbn. by exists v.
  - rewrite Hcase. unfold fill_unlogged.
    apply (audited_update true st i col row r0); [done..|].
    rewrite He. right. split; [done|].
    destruct (aud_complete _ _ _ Haud i r0 row col Hr0 Hrow) as [Heq|[[_ ?]|[e' He']]];
      [congruence | done | congruence].
Qed.

Lemma audited_clean st :
  audited false G0 st → audited true G0 (interpolate_all (detect st)).
Proof.
  intros Haud. apply (interpolate_all_preserves (audited true G0));
    [intros col s i; apply audited_interp|].
  apply audited_gaps. apply (detect_Inv (audited false G0)); [|done].
  intros s j col row v rs. apply audited_removal.
Qed.

End audit_trail.

Lemma audited_start data :
  audited false (json_copy data) (mkState (json_copy data) ∅ 0 0).
Proof.
  constructor; cbn [rows auditMap].
  - by apply Forall_Forall2_diag, Forall_forall.
  - intros k e Hk. by rewrite lookup_empty in Hk.
  - intros i r0 r c Hr0 Hr. left. congruence.
  - intros _ k e Hk. by rewrite lookup_empty in Hk.
Qed.

Lemma audited_clean_state data :
  NoDup (t <$> data) → audited true (json_copy data) (clean_state data).
Proof.
  intros Hnd. apply audited_clean, audited_start.
  unfold json_copy. rewrite <- list_fmap_compose.
  by replace (t ∘ json_row) with t by done.
Qed.

(** X4.  On a series with distinct time labels every entry of the audit log
    is true of the data: it names the time label of a row and one of the
    primary channels, its [originalValue] is the value the input holds there,
    and the cleaned row holds [null] there when the entry says [REMOVED], and
    the [newValue] of the entry when it says [INTERPOLATED]. *)
Theorem audit_log_sound (data : list ProcessedDataRow) (bodyWeight : float)
    (e : AuditLogEntry) :
  NoDup (t <$> data) →
  e ∈ auditLog (cleanAndInterpolateData data bodyWeight) →
  ∃ i r r' c,
    data !! i = Some r
    ∧ cleanedData (cleanAndInterpolateData data bodyWeight) !! i = Some r'
    ∧ time e = t r ∧ column e = col_name c
    ∧ json_cell (get c r) = Num (originalValue e)
    ∧ match action e with
      | REMOVED => newValue e = None ∧ get c r' = Null
      | INTERPOLATED => ∃ x, newValue e = Some x ∧ get c r' = Num x
      end.
Proof.
  intros Hnd He. pose proof (audited_clean_state data Hnd) as Haud.
  unfold cleanAndInterpolateData in *. cbn [auditLog cleanedData] in *.
  apply elem_of_log_of in He as [k Hk].
  destruct (aud_sound _ _ _ Haud k e Hk)
    as (i & r0 & r1 & c & Hr0 & Hr1 & _ & (Htime & Hcol & Horig) & Hshows).
  rewrite json_copy_lookup in Hr0.
  destruct (data !! i) as [r|] eqn:Hr; [|done]. injection Hr0 as <-.
  exists i, r, (recalculateDerivedMetrics r1 bodyWeight), c.
  rewrite list_lookup_fmap, Hr1, get_recalculate.
  rewrite get_json_row in Horig. by repeat split.
Qed.

(** The one entry of the audit log of [outlier_sample]. *)
Lemma audit_log_sound_witness :
  ∃ e, auditLog (cleanAndInterpolateData outlier_sample 70) = [e]
       ∧ ∃ i r r' c,
           outlier_sample !! i = Some r
           ∧ cleanedData (cleanAndInterpolateData outlier_sample 70) !! i = Some r'
           ∧ time e = t r ∧ column e = col_name c
           ∧ json_cell (get c r) = Num (originalValue e)
           ∧ match action e with
             | REMOVED => newValue e = None ∧ get c r' = Null
             | INTERPOLATED => ∃ x, newValue e = Some x ∧ get c r' = Num x
             end.
Proof.
  eexists. split; [vm_compute; reflexivity|].
  apply (audit_log_sound outlier_sample 70).
  - apply (bool_decide_unpack _). vm_compute. reflexivity.
  - vm_compute. apply list_elem_of_here.
Defined.



(** ** The heart-rate pass *)

Lemma hr_step_unchanged i st j :
  (hr_step i st j = st
   ∧ ∀ row hr, rows st !! j = Some row → rHR row = Num hr →
       hr_reason i (rows st) j row hr = None)
  ∨ ∃ row hr rs,
      rows st !! j = Some row ∧ rHR row = Num hr
      ∧ hr_step i st j = log_removal j HR row hr rs st.
Proof.
  unfold hr_step.
  destruct (rows st !! j) as [row|] eqn:Hrow; [|left; split; [done|]; congruence].
  destruct (rHR row) as [| |hr] eqn:Hhr;
    [left; split; [done|]; intros ? ? [= <-] ?; congruence..|].
  destruct (hr_reason i (rows st) j row hr) as [rs|] eqn:Hrs.
  - right. by exists row, hr, rs.
  - left. split; [done|]. intros row' hr' [= <-] Hhr'. congruence.
Qed.

Lemma hr_reason_ext i l l' j row hr :
  l !! (j - 1) = l' !! (j - 1) → hr_reason i l j row hr = hr_reason i l' j row hr.
Proof. intros H. unfold hr_reason. by rewrite H. Qed.

(** After the pass has visited the rows before [k]. *)
Lemma hr_fold_accepted i k st :
  k ≤ length (rows st) →
  let st' := fold_left (hr_step i) (seq 0 k) st in
  length (rows st') = length (rows st)
  ∧ (∀ j, k ≤ j → rows st' !! j = rows st !! j)
  ∧ ∀ j row hr, j < k → rows st' !! j = Some row → rHR row = Num hr →
      hr_reason i (rows st') j row hr = None.
Proof.
  induction k as [|k IH]; intros Hk; cbv zeta.
  - cbn [seq fold_left]. split; [done|]. split; [done|]. intros; lia.
  - rewrite seq_S, fold_left_app. cbn [fold_left Nat.add].
    destruct (IH ltac:(lia)) as (Hlen & Hrest & Hacc). cbv zeta in Hlen, Hrest, Hacc.
    set (s := fold_left (hr_step i) (seq 0 k) st) in *.
    destruct (hr_step_unchanged i s k) as [[-> Hnone]|(row & hr & rs & Hrow & Hhr & ->)].
    + split; [done|]. split; [intros j Hj; apply Hrest; lia|].
      intros j row hr Hj Hrow Hhr. destruct (decide (j = k)) as [->|Hne].
      * by apply Hnone.
      * apply Hacc; [lia|done..].
    + pose proof (lookup_lt_Some _ _ _ Hrow) as Hlt.
      unfold log_removal. cbn [rows].
      split; [by rewrite length_insert|].
      split; [intros j Hj; rewrite list_lookup_insert_ne by lia; apply Hrest; lia|].
      intros j row' hr' Hj Hrow' Hhr'. destruct (decide (j = k)) as [->|Hne].
      * rewrite list_lookup_insert_eq in Hrow' by done. injection Hrow' as <-.
        discriminate Hhr'.
      * rewrite list_lookup_insert_ne in Hrow' by done.
        rewrite <- (Hacc j row' hr'); [|lia|done..].
        apply hr_reason_ext. apply list_lookup_insert_ne. lia.
Qed.

Lemma hr_pass_accepted i st : hr_accepted i (rows (hr_pass i st)).
Proof.
  unfold hr_pass. destruct (hr_fold_accepted i (length (rows st)) st ltac:(done))
    as (Hlen & _ & Hacc).
  intros j row hr Hrow Hhr. apply Hacc; [|done..].
  apply lookup_lt_Some in Hrow. lia.
Qed.

Lemma hr_accepted_ext i (l l' : list ProcessedDataRow) :
  Forall2 (λ r r', ∀ c, get c r' = get c r) l l' →
  hr_accepted i l → hr_accepted i l'.
Proof.
  intros HF Hacc j row' hr Hrow' Hhr.
  destruct (Forall2_lookup_r _ _ _ _ _ HF Hrow') as (row & Hrow & Hget).
  pose proof (Hget HR) as H0. cbn [get] in H0. rewrite H0 in Hhr.
  specialize (Hacc j row hr Hrow Hhr). revert Hacc. unfold hr_reason.
  destruct (_ || _)%bool; [done|]. destruct (0 <? j); [|done].
  destruct (l' !! (j - 1)) as [prev'|] eqn:Hprev'; [|done].
  destruct (Forall2_lookup_r _ _ _ _ _ HF Hprev') as (prev & -> & Hgetp).
  pose proof (Hgetp HR) as H1. pose proof (Hget VO2) as H2.
  pose proof (Hgetp VO2) as H3. pose proof (Hget VE) as H4.
  pose proof (Hgetp VE) as H5. cbn [get] in H1, H2, H3, H4, H5.
  by rewrite H1, H2, H3, H4, H5.
Qed.

Lemma slice_middle {A} (pre mid post : list A) :
  slice (length pre) (length pre + length mid) (pre ++ mid ++ post) = mid.
Proof.
  unfold slice. rewrite drop_app_length.
  replace (length pre + length mid - length pre) with (length mid) by lia.
  by rewrite take_app_length.
Qed.

(** What the body of the stage loop leaves in a full stage. *)
Lemma detect_stage_accepted n A i :
  (i + 1) * STAGE_ROWS ≤ length (rows A) →
  hr_accepted i (slice (i * STAGE_ROWS) ((i + 1) * STAGE_ROWS) (rows (detect_stage n A i))).
Proof.
  intros Hfull. unfold detect_stage. cbv zeta. rewrite Nat.min_l by done.
  set (stageData := slice (i * STAGE_ROWS) ((i + 1) * STAGE_ROWS) (rows A)).
  assert (length stageData = STAGE_ROWS) as Hlen.
  { unfold stageData. rewrite slice_length by done. lia. }
  rewrite Hlen, Nat.ltb_irrefl. cbn [andb rows]. unfold splice.
  set (s1 := stage_passes i _).
  assert (length (rows s1) = STAGE_ROWS) as Hlen1
    by (unfold s1; by rewrite stage_passes_length).
  set (pre := take (i * STAGE_ROWS) (rows A)).
  assert (length pre = i * STAGE_ROWS) as Hpre
    by (unfold pre; rewrite length_take; lia).
  replace (i * STAGE_ROWS) with (length pre) at 1 by done.
  replace ((i + 1) * STAGE_ROWS) with (length pre + length (rows s1)) by lia.
  rewrite slice_middle. apply hr_pass_accepted.
Qed.

(** The heart rates left in a full stage when the detection phase ends. *)
Lemma detect_accepted (data : list ProcessedDataRow) (i : nat) :
  (i + 1) * STAGE_ROWS ≤ length data →
  hr_accepted i
    (slice (i * STAGE_ROWS) ((i + 1) * STAGE_ROWS)
       (rows (detect (mkState (json_copy data) ∅ 0 0)))).
Proof.
  intros Hfull.
  set (tmp := json_copy data).
  set (st0 := mkState tmp ∅ 0 0).
  set (st := detect st0).
  set (n := numStages_of (length tmp)).
  assert (length tmp = length data) as Htmp by apply json_copy_length.
  assert (i < n) as Hin by (apply numStages_of_gt; lia).
  assert (st = fold_left (detect_stage n) (seq (S i) (n - S i))
                 (detect_stage n (fold_left (detect_stage n) (seq 0 i) st0) i))
    as Hst.
  { unfold st, detect. change (rows st0) with tmp. fold n.
    replace n with (i + S (n - S i)) at 2 by lia.
    by rewrite seq_app, fold_left_app. }
  set (A := fold_left (detect_stage n) (seq 0 i) st0) in Hst.
  set (B := detect_stage n A i) in Hst.
  assert (length (rows A) = length tmp) as HAlen.
  { unfold A. apply (fold_left_preserves _ (λ s, length (rows s) = length tmp)); [|done].
    intros s k Hs. by rewrite detect_stage_length. }
  assert (length (rows B) = length tmp) as HBlen
    by (unfold B; by rewrite detect_stage_length).
  pose proof (detect_stage_accepted n A i ltac:(lia)) as HaccB. fold B in HaccB.
  (* the stages after [i] leave the rows of stage [i] alone *)
  assert (phase_step (λ g' _, (i + 1) * STAGE_ROWS ≤ g') B st) as [HC _].
  { rewrite Hst. apply detect_stages_step. intros i' g' c Hi' [Hg' _].
    apply elem_of_seq in Hi'. unfold STAGE_ROWS in *. nia. }
  pose proof HC as [HClen _].
  eapply hr_accepted_ext; [|exact HaccB].
  apply Forall2_same_length_lookup_2.
  { rewrite !slice_length by lia. done. }
  intros j r r' Hr Hr'. pose proof (lookup_lt_Some _ _ _ Hr) as Hj.
  rewrite slice_length in Hj by lia.
  rewrite slice_lookup in Hr, Hr' by done.
  intros c. destruct (nulled_from_frame _ _ _ _ r c HC Hr) as (r2 & Hr2 & _ & Hc); [lia|].
  congruence.
Qed.

Lemma stage_index g :
  g = g / STAGE_ROWS * STAGE_ROWS + g `mod` STAGE_ROWS ∧ g `mod` STAGE_ROWS < STAGE_ROWS.
Proof.
  pose proof (Nat.div_mod_eq g STAGE_ROWS).
  pose proof (Nat.mod_upper_bound g STAGE_ROWS ltac:(done)). lia.
Qed.

(** X6.  When the detection phase ends, every heart rate left in a full
    stage has passed the two tests of the heart-rate pass against the rows as
    they are then: it is above 0 and at most 250 bpm, and it is not a rise of
    more than 20 bpm over the row before it in the stage while V'O2 and V'E
    did not rise. *)
Theorem heart_rate_screened (data : list ProcessedDataRow) (g : nat)
    (row : ProcessedDataRow) (hr : float) :
  let st := detect (mkState (json_copy data) ∅ 0 0) in
  (g / STAGE_ROWS + 1) * STAGE_ROWS ≤ length data →
  rows st !! g = Some row → rHR row = Num hr →
  (hr <=? 0)%float = false ∧ (250 <? hr)%float = false
  ∧ ∀ prevRow prevHr currentVo2 prevVo2 currentVe prevVe,
      0 < g `mod` STAGE_ROWS → rows st !! (g - 1) = Some prevRow →
      rHR prevRow = Num prevHr →
      rVO2 row = Num currentVo2 → rVO2 prevRow = Num prevVo2 →
      rVE row = Num currentVe → rVE prevRow = Num prevVe →
      ((20 <? hr - prevHr)%float && (currentVo2 <=? prevVo2)%float
       && (currentVe <=? prevVe)%float)%bool = false.
Proof.
  intros st Hfull Hrow Hhr.
  pose proof (detect_accepted data (g / STAGE_ROWS) Hfull) as Hacc. fold st in Hacc.
  destruct (stage_index g) as [Hg Hmod].
  set (i := g / STAGE_ROWS) in *. set (j := g `mod` STAGE_ROWS) in *.
  specialize (Hacc j row hr). rewrite slice_lookup, <- Hg in Hacc by lia.
  specialize (Hacc Hrow Hhr). unfold hr_reason in Hacc.
  destruct ((hr <=? 0)%float || (250 <? hr)%float)%bool eqn:Hrange; [done|].
  apply orb_false_elim in Hrange as [-> ->]. split; [done|]. split; [done|].
  intros prevRow prevHr currentVo2 prevVo2 currentVe prevVe Hj Hprev H1 H2 H3 H4 H5.
  apply Nat.ltb_lt in Hj as Hjb. rewrite Hjb in Hacc.
  rewrite slice_lookup in Hacc by lia.
  replace (i * STAGE_ROWS + (j - 1)) with (g - 1) in Hacc by lia.
  rewrite Hprev, H1, H2, H3, H4, H5 in Hacc.
  by destruct (_ && _)%bool.
Qed.

(** The 160 bpm of row 7 of [hr_spike_sample], after the 160 bpm of row 6. *)
Lemma heart_rate_screened_witness :
  let st := detect (mkState (json_copy hr_spike_sample) ∅ 0 0) in
  let row := Sample.row3 "7" 70 (Num 2) (Num 50) (Num 160) in
  rows st !! 7 = Some row
  ∧ (160 <=? 0)%float = false ∧ (250 <? 160)%float = false
  ∧ ∀ prevRow prevHr currentVo2 prevVo2 currentVe prevVe,
      0 < 7 `mod` STAGE_ROWS → rows st !! (7 - 1) = Some prevRow →
      rHR prevRow = Num prevHr →
      rVO2 row = Num currentVo2 → rVO2 prevRow = Num prevVo2 →
      rVE row = Num currentVe → rVE prevRow = Num prevVe →
      ((20 <? 160 - prevHr)%float && (currentVo2 <=? prevVo2)%float
       && (currentVe <=? prevVe)%float)%bool = false.
Proof.
  split; [vm_compute; reflexivity|].
  apply (heart_rate_screened hr_spike_sample 7
           (Sample.row3 "7" 70 (Num 2) (Num 50) (Num 160)) 160%float).
  - vm_compute. lia.
  - vm_compute. reflexivity.
  - reflexivity.
Defined.




(** ** Gaps that are never bridged *)

Lemma null_at_not_null l c g : null_at l c g → not_null_at l c g = false.
Proof. intros (r & Hr & Hnull). unfold not_null_at. by rewrite Hr, Hnull. Qed.

(** A step that does not fill the cell [(g, c)] leaves it [null]. *)
Lemma interp_step_null_at col st i c g :
  null_at (rows st) c g →
  (i = g → col = c →
   ∀ p n, nearest_prev (rows st) c g p → nearest_next (rows st) c g n → 3 < n - p) →
  null_at (rows (interp_step col st i)) c g.
Proof.
  intros (r & Hr & Hnull) Hgap. destruct (interp_step_rows col st i)
    as [->|(row & p & n & x & Hrow & Hrnull & Hp & Hn & Hle & ->)]; [by exists r|].
  destruct (decide (i = g)) as [->|Hne].
  - assert (row = r) as -> by congruence.
    destruct (decide (col = c)) as [->|Hc].
    + specialize (Hgap eq_refl eq_refl p n Hp Hn). lia.
    + exists (set col (Num x) r).
      rewrite list_lookup_insert_eq by by eapply lookup_lt_Some.
      by rewrite get_set_ne.
  - exists r. by rewrite list_lookup_insert_ne.
Qed.

Lemma interp_step_length col st i : length (rows (interp_step col st i)) = length (rows st).
Proof.
  destruct (interp_step_rows col st i)
    as [->|(row & p & n & x & _ & _ & _ & _ & _ & ->)]; [done|].
  apply length_insert.
Qed.

Lemma interpolate_all_edge st c g :
  at_stage_edge (length (rows st)) g →
  null_at (rows st) c g → null_at (rows (interpolate_all st)) c g.
Proof.
  intros Hedge Hnull.
  apply (interpolate_all_preserves
           (λ s, length (rows s) = length (rows st) ∧ null_at (rows s) c g)
           st).
  - intros col s i [Hlen Hs]. split; [by rewrite interp_step_length|].
    apply interp_step_null_at; [done|]. intros -> -> p n [Hp _] [Hn _].
    rewrite Hlen in Hn.
    destruct (stage_index g) as [Hg Hmod].
    unfold at_stage_edge, STAGE_ROWS in *. lia.
  - done.
Qed.

Lemma interpolate_all_run st c g :
  null_at (rows st) c g → null_at (rows st) c (g + 1) → null_at (rows st) c (g + 2) →
  null_at (rows (interpolate_all st)) c g
  ∧ null_at (rows (interpolate_all st)) c (g + 1)
  ∧ null_at (rows (interpolate_all st)) c (g + 2).
Proof.
  intros H0 H1 H2.
  apply (interpolate_all_preserves
           (λ s, null_at (rows s) c g ∧ null_at (rows s) c (g + 1)
                 ∧ null_at (rows s) c (g + 2))); [|done].
  intros col s i (Hs0 & Hs1 & Hs2).
  assert (∀ k p n, g ≤ k ≤ g + 2 →
            nearest_prev (rows s) c k p → nearest_next (rows s) c k n → 3 < n - p) as Hfar.
  { intros k p n Hk (Hp & Hpv & _) (Hn & Hnv & _).
    assert (∀ j, g ≤ j ≤ g + 2 → not_null_at (rows s) c j = false) as Hnulls.
    { intros j Hj. apply null_at_not_null.
      assert (j = g ∨ j = g + 1 ∨ j = g + 2) as [->|[->| ->]] by lia; done. }
    destruct (decide (g ≤ p)) as [Hge|Hlt]; [rewrite Hnulls in Hpv by lia; done|].
    destruct (decide (n ≤ g + 2)) as [Hle|Hgt]; [rewrite Hnulls in Hnv by lia; done|].
    lia. }
  repeat split; (apply interp_step_null_at; [done|]);
    intros -> ->; intros p n; apply Hfar; lia.
Qed.

Lemma detect_null_at data c g r :
  data !! g = Some r → json_cell (get c r) = Null →
  null_at (rows (detect (mkState (json_copy data) ∅ 0 0))) c g.
Proof.
  intros Hr Hnull.
  assert (phase_step (λ _ _, True) (mkState (json_copy data) ∅ 0 0)
            (detect (mkState (json_copy data) ∅ 0 0))) as [Hnulled _].
  { unfold detect. by apply detect_stages_step. }
  cbn [rows] in Hnulled.
  destruct (nulled_from_null _ _ _ g (json_row r) c Hnulled) as (r' & Hr' & _ & Hn').
  - by rewrite json_copy_lookup, Hr.
  - by rewrite get_json_row.
  - by exists r'.
Qed.

Lemma cleaned_null_at data w c g :
  null_at (rows (clean_state data)) c g →
  ∃ r', cleanedData (cleanAndInterpolateData data w) !! g = Some r' ∧ get c r' = Null.
Proof.
  intros (r & Hr & Hnull). exists (recalculateDerivedMetrics r w).
  unfold cleanAndInterpolateData. cbn [cleanedData].
  by rewrite list_lookup_fmap, Hr, get_recalculate.
Qed.

Lemma detect_length st : length (rows (detect st)) = length (rows st).
Proof.
  unfold detect. apply (fold_left_preserves _ (λ s, length (rows s) = length (rows st)));
    [|done].
  intros s j Hs. by rewrite detect_stage_length.
Qed.

(** X8.  Interpolation stays inside a stage: a [null] in the first or the
    last row of an 18-row stage, or in the last row of the series, has no
    neighbour on one side and is [null] in the cleaned data. *)
Theorem edge_gap_not_interpolated (data : list ProcessedDataRow) (bodyWeight : float)
    (c : Col) (g : nat) (r : ProcessedDataRow) :
  data !! g = Some r → json_cell (get c r) = Null →
  g `mod` STAGE_ROWS = 0 ∨ g `mod` STAGE_ROWS = STAGE_ROWS - 1 ∨ g + 1 = length data →
  ∃ r', cleanedData (cleanAndInterpolateData data bodyWeight) !! g = Some r'
        ∧ get c r' = Null.
Proof.
  intros Hr Hnull Hedge. apply cleaned_null_at. unfold clean_state.
  apply interpolate_all_edge; [|by eapply detect_null_at].
  rewrite detect_length. cbn [rows]. by rewrite json_copy_length.
Qed.

(** The gap in the first row of [gap_sample]. *)
Lemma edge_gap_not_interpolated_witness :
  ∃ r', cleanedData (cleanAndInterpolateData gap_sample 70) !! 0 = Some r'
        ∧ get VO2 r' = Null.
Proof.
  apply (edge_gap_not_interpolated gap_sample 70 VO2 0 (Sample.row "0" 0 Null)).
  - vm_compute. reflexivity.
  - reflexivity.
  - left. reflexivity.
Defined.

(** X9.  A gap of three or more rows is never bridged: where the input holds
    [null] in a channel at three rows in a row, the cleaned data holds
    [null] at the three of them. *)
Theorem long_gap_not_interpolated (data : list ProcessedDataRow) (bodyWeight : float)
    (c : Col) (g : nat) (r0 r1 r2 : ProcessedDataRow) :
  data !! g = Some r0 → data !! (g + 1) = Some r1 → data !! (g + 2) = Some r2 →
  json_cell (get c r0) = Null → json_cell (get c r1) = Null →
  json_cell (get c r2) = Null →
  ∀ k, g ≤ k ≤ g + 2 →
    ∃ r', cleanedData (cleanAndInterpolateData data bodyWeight) !! k = Some r'
          ∧ get c r' = Null.
Proof.
  intros H0 H1 H2 Hn0 Hn1 Hn2 k Hk. apply cleaned_null_at. unfold clean_state.
  destruct (interpolate_all_run (detect (mkState (json_copy data) ∅ 0 0)) c g)
    as (Hg0 & Hg1 & Hg2); [by eapply detect_null_at..|].
  assert (k = g ∨ k = g + 1 ∨ k = g + 2) as [->|[->| ->]] by lia; done.
Qed.

(** The gap of the rows 5, 6 and 7 of [gap_sample], at row 6. *)
Lemma long_gap_not_interpolated_witness :
  ∃ r', cleanedData (cleanAndInterpolateData gap_sample 70) !! 6 = Some r'
        ∧ get VO2 r' = Null.
Proof.
  apply (long_gap_not_interpolated gap_sample 70 VO2 5
           (Sample.row "5" 50 Null) (Sample.row "6" 60 Null) (Sample.row "7" 70 Null));
    [vm_compute; reflexivity | vm_compute; reflexivity | vm_compute; reflexivity
    | reflexivity | reflexivity | reflexivity | lia].
Defined.

(** ** Every gap that can be bridged is bridged *)

(** Filling the cell [k], whose gap can be bridged, makes no gap before it
    bridgeable. *)
Lemma bridgeable_before l l' c i k :
  length l' = length l →
  (∀ j, j ≠ k → not_null_at l' c j = not_null_at l c j) →
  not_null_at l' c k = true →
  not_null_at l c k = false → not_null_at l c i = false →
  bridgeable l c k → i < k →
  bridgeable l' c i → bridgeable l c i.
Proof.
  intros Hlen Hsame Hk' Hk Hi (p & n & (Hp & Hpv & Hpb) & (Hn & Hnv & Hnb) & Hgap) Hik
    (p' & n' & (Hp' & Hpv' & Hpb') & (Hn' & Hnv' & Hnb') & Hgap').
  rewrite Hlen in Hn'.
  assert (not_null_at l c p' = true) as Hpv0 by (rewrite <- Hsame; [done | lia]).
  assert (∀ j, p' < j < i → not_null_at l c j = false) as Hpb0.
  { intros j Hj. rewrite <- Hsame by lia. by apply Hpb'. }
  unfold bridgeable, nearest_prev, nearest_next.
  destruct (lt_eq_lt_dec n' k) as [[Hlt|Heq]|Hgt].
  - exists p', n'. repeat split; try done; try lia.
    + rewrite <- Hsame; [done | lia].
    + intros j Hj. rewrite <- Hsame by lia. by apply Hnb'.
  - subst n'.
    assert (∀ j, i < j < k → not_null_at l c j = false) as Hbetween.
    { intros j Hj. rewrite <- Hsame by lia. by apply Hnb'. }
    assert (i / STAGE_ROWS = k / STAGE_ROWS) as Hstage.
    { destruct (stage_index i) as [? ?], (stage_index k) as [? ?].
      unfold STAGE_ROWS in *. nia. }
    assert (p = p') as <-.
    { destruct (lt_eq_lt_dec p p') as [[Hlt|Heq]|Hgt]; [|done|].
      - rewrite Hpb in Hpv0; [done | lia].
      - destruct (lt_eq_lt_dec p i) as [[Hlt|Heq]|Hgt'].
        + rewrite Hpb0 in Hpv; [done | lia].
        + subst p. congruence.
        + rewrite Hbetween in Hpv; [done | lia]. }
    exists p, n. rewrite Hstage. repeat split; try done; try lia.
    intros j Hj. destruct (lt_eq_lt_dec j k) as [[Hlt|Heq]|Hgt].
    + apply Hbetween. lia.
    + by subst j.
    + apply Hnb. lia.
  - rewrite Hnb' in Hk'; [done | lia].
Qed.

Lemma null_at_lookup l c i : null_at l c i → not_null_at l c i = false.
Proof. apply null_at_not_null. Qed.

Lemma not_null_at_fill l k c x row j :
  l !! k = Some row →
  not_null_at (<[k := set c (Num x) row]> l) c j
  = if decide (j = k) then true else not_null_at l c j.
Proof.
  intros Hrow. pose proof (lookup_lt_Some _ _ _ Hrow). unfold not_null_at.
  case_decide as Hj.
  - subst j. by rewrite list_lookup_insert_eq, get_set_eq.
  - by rewrite list_lookup_insert_ne.
Qed.

(** The loop body bridges the gap at hand whenever it can be bridged. *)
Lemma interp_step_result c st k :
  (rows (interp_step c st k) = rows st
   ∧ (null_at (rows st) c k → ¬ bridgeable (rows st) c k))
  ∨ ∃ row x,
      rows st !! k = Some row ∧ get c row = Null ∧ bridgeable (rows st) c k
      ∧ rows (interp_step c st k) = <[k := set c (Num x) row]> (rows st).
Proof.
  unfold interp_step.
  destruct (rows st !! k) as [row|] eqn:Hrow.
  2:{ left. split; [done|]. intros (r & Hr & _). congruence. }
  destruct (get c row) as [| |y] eqn:Hcell; cbn [is_null].
  1,3: left; split; [done|]; intros (r & Hr & Hn); congruence.
  destruct (prevIndex_of _ _ _) as [p|] eqn:Hp.
  2:{ left. split; [done|]. intros _ (p & n & Hp'%prevIndex_of_nearest & _). congruence. }
  destruct (nextIndex_of _ _ _) as [n|] eqn:Hn.
  2:{ left. split; [done|]. intros _ (p' & n & _ & Hn'%nextIndex_of_nearest & _).
      congruence. }
  destruct (n - p <=? 3) eqn:Hgap.
  - right. exists row. apply Nat.leb_le in Hgap.
    apply prevIndex_of_nearest in Hp. apply nextIndex_of_nearest in Hn.
    assert (bridgeable (rows st) c k) as Hb by (by exists p, n).
    destruct (auditMap st !! _) as [logEntry|]; [|by eexists].
    destruct (_ <? _)%float; by eexists.
  - left. split; [done|].
    intros _ (p' & n' & Hp'%prevIndex_of_nearest & Hn'%nextIndex_of_nearest & Hle).
    apply Nat.leb_gt in Hgap. assert (p' = p) by congruence. assert (n' = n) by congruence.
    lia.
Qed.

(** After the loop over the rows has visited the rows before [k]. *)
Lemma interp_fold_bridged c k st :
  let st' := fold_left (interp_step c) (seq 0 k) st in
  ∀ i, i < k → null_at (rows st') c i → ¬ bridgeable (rows st') c i.
Proof.
  induction k as [|k IH]; cbv zeta; [intros; lia|].
  rewrite seq_S, fold_left_app. cbn [fold_left Nat.add]. cbv zeta in IH.
  set (s := fold_left (interp_step c) (seq 0 k) st) in *.
  destruct (interp_step_result c s k)
    as [[-> Hk]|(row & x & Hrow & Hnull & Hbridge & ->)].
  - intros i Hi. destruct (decide (i = k)) as [->|Hne]; [done|]. apply IH. lia.
  - pose proof (lookup_lt_Some _ _ _ Hrow) as Hlt.
    intros i Hi (r & Hr & Hn) Hb. destruct (decide (i = k)) as [->|Hne].
    + rewrite list_lookup_insert_eq in Hr by done. injection Hr as <-.
      by rewrite get_set_eq in Hn.
    + rewrite list_lookup_insert_ne in Hr by done.
      assert (null_at (rows s) c i) as Hnull_i by (by exists r).
      apply (IH i ltac:(lia) Hnull_i).
      apply (bridgeable_before (rows s) _ c i k) in Hb; [done|..].
      * apply length_insert.
      * intros j Hj. rewrite not_null_at_fill by done. by case_decide.
      * rewrite not_null_at_fill by done. by case_decide.
      * apply null_at_not_null. by exists row.
      * by apply null_at_not_null.
      * done.
      * lia.
Qed.

Lemma interp_col_closed st c : gaps_closed (rows (interp_col st c)) c.
Proof.
  intros i Hnull. unfold interp_col in *.
  apply (interp_fold_bridged c (length (rows st)) st); [|done].
  destruct Hnull as (r & Hr & _). apply lookup_lt_Some in Hr.
  revert Hr. assert (length (rows (fold_left (interp_step c) (seq 0 (length (rows st))) st))
                     = length (rows st)) as ->; [|done].
  apply (fold_left_preserves _ (λ s, length (rows s) = length (rows st))); [|done].
  intros s j Hs. by rewrite interp_step_length.
Qed.

(** The property reads the channel [c] only. *)
Lemma gaps_closed_ext (l l' : list ProcessedDataRow) c :
  Forall2 (λ r r', get c r' = get c r) l l' → gaps_closed l c → gaps_closed l' c.
Proof.
  intros HF Hclosed.
  assert (∀ j, not_null_at l' c j = not_null_at l c j) as Hsame.
  { intros j. unfold not_null_at. destruct (l' !! j) as [r'|] eqn:Hr'.
    - destruct (Forall2_lookup_r _ _ _ _ _ HF Hr') as (r & -> & ->). done.
    - apply lookup_ge_None in Hr'. rewrite <- (Forall2_length _ _ _ HF) in Hr'.
      by rewrite (lookup_ge_None_2 l). }
  intros i (r' & Hr' & Hn) (p & n & (Hp & Hpv & Hpb) & (Hn' & Hnv & Hnb) & Hgap).
  destruct (Forall2_lookup_r _ _ _ _ _ HF Hr') as (r & Hr & Hget).
  apply (Hclosed i); [exists r; split; [done | congruence]|].
  rewrite <- (Forall2_length _ _ _ HF) in Hn'.
  exists p, n. unfold nearest_prev, nearest_next.
  repeat split; try done; try lia; try (by rewrite <- Hsame).
  - intros j Hj. rewrite <- Hsame. by apply Hpb.
  - intros j Hj. rewrite <- Hsame. by apply Hnb.
Qed.

Lemma interp_col_other st c c' :
  c' ≠ c → Forall2 (λ r r', get c r' = get c r) (rows st) (rows (interp_col st c')).
Proof.
  intros Hne. unfold interp_col.
  apply (fold_left_preserves _
           (λ s, Forall2 (λ r r', get c r' = get c r) (rows st) (rows s))).
  - intros s j Hs. destruct (interp_step_rows c' s j)
      as [->|(row & p & n & x & Hrow & _ & _ & _ & _ & ->)]; [done|].
    destruct (Forall2_lookup_r _ _ _ _ _ Hs Hrow) as (r0 & Hr0 & Hget).
    rewrite <- (list_insert_id (rows st) j r0) by done.
    apply Forall2_insert; [done|]. by rewrite get_set_ne.
  - by apply Forall_Forall2_diag, Forall_forall.
Qed.

Lemma interp_cols_closed cols st c :
  c ∈ cols → gaps_closed (rows (fold_left interp_col cols st)) c.
Proof.
  revert st. induction cols as [|c' cols IH] using rev_ind; intros st Hc.
  - by apply elem_of_nil in Hc.
  - rewrite fold_left_app. cbn [fold_left].
    destruct (decide (c' = c)) as [->|Hne]; [apply interp_col_closed|].
    eapply gaps_closed_ext; [by apply interp_col_other|].
    apply IH. apply elem_of_app in Hc as [?|Hc]; [done|].
    apply list_elem_of_singleton in Hc. congruence.
Qed.

(** X10.  The interpolation leaves no gap it could bridge: where a primary
    channel of the cleaned data holds [null], the nearest rows before and
    after it in its 18-row stage that do not hold [null] are more than 3
    rows apart, or there is none on one side. *)
Theorem remaining_gaps_not_bridgeable (data : list ProcessedDataRow) (bodyWeight : float)
    (c : Col) (i : nat) (r' : ProcessedDataRow) :
  let cleaned := cleanedData (cleanAndInterpolateData data bodyWeight) in
  cleaned !! i = Some r' → get c r' = Null →
  ∀ p n, nearest_prev cleaned c i p → nearest_next cleaned c i n → 3 < n - p.
Proof.
  intros cleaned Hr' Hnull p n Hp Hn.
  assert (gaps_closed cleaned c) as Hclosed.
  { unfold cleaned, cleanAndInterpolateData. cbn [cleanedData].
    eapply (gaps_closed_ext (rows (clean_state data))).
    - apply Forall2_fmap_r, Forall_Forall2_diag, Forall_forall.
      intros r _. apply get_recalculate.
    - unfold clean_state, interpolate_all. apply interp_cols_closed.
      destruct c; unfold OUTLIER_COLS; repeat constructor. }
  destruct (decide (3 < n - p)) as [|Hle]; [done|]. exfalso.
  apply (Hclosed i); [by exists r'|]. exists p, n. split; [done|]. split; [done|]. lia.
Qed.

(** Row 6 of [gap_sample]: its neighbours are the rows 4 and 8. *)
Lemma remaining_gaps_not_bridgeable_witness :
  let cleaned := cleanedData (cleanAndInterpolateData gap_sample 70) in
  nearest_prev cleaned VO2 6 4 ∧ nearest_next cleaned VO2 6 8 ∧ 3 < 8 - 4.
Proof.
  intros cleaned.
  assert (nearest_prev cleaned VO2 6 4) as Hp.
  { split; [vm_compute; lia|]. split; [vm_compute; reflexivity|].
    intros j Hj. assert (j = 5) as -> by lia. vm_compute. reflexivity. }
  assert (nearest_next cleaned VO2 6 8) as Hn.
  { split; [vm_compute; lia|]. split; [vm_compute; reflexivity|].
    intros j Hj. assert (j = 7) as -> by lia. vm_compute. reflexivity. }
  split; [exact Hp|]. split; [exact Hn|].
  apply (remaining_gaps_not_bridgeable gap_sample 70 VO2 6
           (recalculateDerivedMetrics (Sample.row "6" 60 Null) 70));
    [vm_compute; reflexivity | reflexivity | exact Hp | exact Hn].
Defined.

(** ** The greatest value of a channel *)

Module FloatMax.
Import FloatOrder.

Lemma SFltb_nan_l x : SFltb S754_nan x = false.
Proof. done. Qed.

Lemma ltb_nan_l x : (nan <? x)%float = false.
Proof. rewrite ltb_spec. apply SFltb_nan_l. Qed.

Lemma SFeqb_refl x : x ≠ S754_nan → SFeqb x x = true.
Proof.
  unfold SFeqb, SFcompare. destruct x as [sx|sx| |sx mx ex]; sf_cases.
Qed.

Lemma is_nan_nan x : is_nan x = true → x = nan.
Proof.
  unfold is_nan. rewrite FloatAxioms.eqb_spec. intros H.
  rewrite <- (SF2Prim_Prim2SF x).
  destruct (Prim2SF x) eqn:Hx; try reflexivity;
    rewrite SFeqb_refl in H; done.
Qed.

Lemma is_nan_Prim2SF x : is_nan x = false → Prim2SF x ≠ S754_nan.
Proof.
  unfold is_nan. rewrite FloatAxioms.eqb_spec. intros H Hx. by rewrite Hx in H.
Qed.

(** Two numbers are comparable. *)
Lemma SFleb_total x y :
  x ≠ S754_nan → y ≠ S754_nan → SFltb y x = false → SFleb x y = true.
Proof.
  unfold SFleb, SFltb, SFcompare.
  destruct x as [sx|sx| |sx mx ex], y as [sy|sy| |sy my ey]; sf_cases.
Qed.

Lemma SFleb_refl x : x ≠ S754_nan → SFleb x x = true.
Proof. intros H. apply SFleb_total; [done..|]. apply SFltb_irrefl. Qed.

Lemma SFltb_leb x y : SFltb x y = true → SFleb x y = true.
Proof.
  unfold SFleb, SFltb, SFcompare.
  destruct x as [sx|sx| |sx mx ex], y as [sy|sy| |sy my ey]; sf_cases.
Qed.

Lemma leb_total x y :
  is_nan x = false → is_nan y = false → (y <? x)%float = false → (x <=? y)%float = true.
Proof.
  intros Hx%is_nan_Prim2SF Hy%is_nan_Prim2SF. rewrite ltb_spec, leb_spec.
  by apply SFleb_total.
Qed.

Lemma leb_refl x : is_nan x = false → (x <=? x)%float = true.
Proof. intros Hx. apply leb_total; [done..|]. apply ltb_irrefl. Qed.

Lemma ltb_leb x y : (x <? y)%float = true → (x <=? y)%float = true.
Proof. rewrite ltb_spec, leb_spec. apply SFltb_leb. Qed.

(** [Math.max(a, b)] is one of the two. *)
Lemma Math_max_cases a b : JS.Math_max a b = a ∨ JS.Math_max a b = b.
Proof.
  unfold JS.Math_max.
  destruct (is_nan a) eqn:Ha; [left; symmetry; by apply is_nan_nan|].
  destruct (is_nan b) eqn:Hb; [right; symmetry; by apply is_nan_nan|].
  cbn [orb]. destruct (b <? a)%float; [by left|].
  destruct (a <? b)%float; [by right|]. destruct (get_sign a); auto.
Qed.

Lemma Math_max_nan a b :
  is_nan (JS.Math_max a b) = false → is_nan a = false ∧ is_nan b = false.
Proof.
  unfold JS.Math_max. destruct (is_nan a) eqn:Ha; [done|].
  destruct (is_nan b) eqn:Hb; done.
Qed.

(** When it is a number, it is at least both. *)
Lemma Math_max_upper a b :
  is_nan (JS.Math_max a b) = false →
  (a <=? JS.Math_max a b)%float = true ∧ (b <=? JS.Math_max a b)%float = true.
Proof.
  intros H. destruct (Math_max_nan a b H) as [Ha Hb]. clear H.
  unfold JS.Math_max. rewrite Ha, Hb. cbn [orb].
  destruct (b <? a)%float eqn:Hba; [split; [by apply leb_refl | by apply ltb_leb]|].
  destruct (a <? b)%float eqn:Hab; [split; [by apply ltb_leb | by apply leb_refl]|].
  destruct (get_sign a).
  - split; [by apply leb_total | by apply leb_refl].
  - split; [by apply leb_refl | by apply leb_total].
Qed.

(** [Math.max(0, x)] is never below zero. *)
Lemma Math_max_zero_not_negative x : (JS.Math_max 0 x <? 0)%float = false.
Proof.
  unfold JS.Math_max. change (is_nan 0) with false. cbn [orb].
  destruct (is_nan x); [apply ltb_nan_l|].
  destruct (x <? 0)%float eqn:Hx; [reflexivity|].
  destruct (0 <? x)%float eqn:H0; [by apply ltb_asym|]. reflexivity.
Qed.

Lemma leb_neg_infinity x : (x <=? neg_infinity)%float = true → x = neg_infinity.
Proof.
  rewrite leb_spec. intros H. rewrite <- (SF2Prim_Prim2SF x).
  change (Prim2SF neg_infinity) with (S754_infinity true) in H.
  destruct (Prim2SF x) as [s|[]| |[] m e]; try done.
Qed.

Lemma Math_max_fold l a :
  let v := fold_left JS.Math_max l a in
  (v = a ∨ v ∈ l)
  ∧ (is_nan v = false →
     (a <=? v)%float = true ∧ ∀ x, x ∈ l → (x <=? v)%float = true).
Proof.
  revert a. induction l as [|b l IH]; intros a; cbn [fold_left]; cbv zeta.
  - split; [by left|]. intros Ha. split; [by apply leb_refl|].
    intros x Hx. by apply elem_of_nil in Hx.
  - destruct (IH (JS.Math_max a b)) as [Hin Hup]. cbv zeta in Hin, Hup. split.
    + destruct Hin as [->|Hin]; [|right; by right].
      destruct (Math_max_cases a b) as [->| ->]; [by left | right; left].
    + intros Hv. destruct (Hup Hv) as [Hab Hl].
      assert (is_nan (JS.Math_max a b) = false) as Hnan.
      { destruct (is_nan (JS.Math_max a b)) eqn:Hn; [|done].
        apply is_nan_nan in Hn. rewrite Hn in Hab.
        rewrite leb_spec in Hab. done. }
      destruct (Math_max_upper a b Hnan) as [Ha Hb].
      split; [by eapply leb_trans|].
      intros x [->|Hx]%elem_of_cons; [by eapply leb_trans | by apply Hl].
Qed.

Lemma Math_max_list_spec l :
  l ≠ [] →
  JS.Math_max_list l ∈ l
  ∧ (is_nan (JS.Math_max_list l) = true
     ∨ ∀ x, x ∈ l → (x <=? JS.Math_max_list l)%float = true).
Proof.
  intros Hl. unfold JS.Math_max_list.
  destruct (Math_max_fold l neg_infinity) as [Hin Hup]. cbv zeta in Hin, Hup.
  set (v := fold_left JS.Math_max l neg_infinity) in *.
  destruct (is_nan v) eqn:Hv.
  - split; [|by left]. destruct Hin as [Heq|Hin]; [|done].
    rewrite Heq in Hv. done.
  - destruct (Hup eq_refl) as [_ Hall]. split; [|by right].
    destruct Hin as [Heq|Hin]; [|done].
    destruct l as [|x l]; [done|].
    specialize (Hall x ltac:(left)). rewrite Heq in Hall.
    apply leb_neg_infinity in Hall. rewrite Heq, <- Hall. left.
Qed.

End FloatMax.

Lemma max_or_zero_spec l : greatest_or_zero l (max_or_zero l).
Proof.
  unfold greatest_or_zero, max_or_zero. destruct l as [|x l]; [done|].
  split; [done|]. intros _. by apply FloatMax.Math_max_list_spec.
Qed.

(** X11.  Each of the five maxima of the key metrics is 0 when its channel
    holds no number in the series; otherwise it is one of the numbers of the
    channel, and it is at least every one of them unless it is NaN. *)
Theorem key_metrics_maxima (data : list ProcessedDataRow) (m : KeyMetrics) :
  calculateKeyMetricsForData data = Some m →
  greatest_or_zero (valid_values rVO2 data) (vo2max m)
  ∧ greatest_or_zero (valid_values VO2_kg data) (vo2max_kg m)
  ∧ greatest_or_zero (valid_values rVE data) (vemax m)
  ∧ greatest_or_zero (valid_values rHR data) (hrmax m)
  ∧ greatest_or_zero (valid_values RER data) (rermax m).
Proof.
  unfold calculateKeyMetricsForData. destruct data as [|r data].
  - intros [= <-]. do 4 (split; [apply (max_or_zero_spec [])|]).
    apply (max_or_zero_spec []).
  - change (length (r :: data) =? 0) with false. cbv iota.
    destruct (stages_of (r :: data)) as [stages|]; [|done]. cbn [mbind option_bind].
    destruct (plateau_of _ _ _) as [[? ?] ?]. intros [= <-].
    cbn [vo2max vo2max_kg vemax hrmax rermax].
    do 4 (split; [apply max_or_zero_spec|]). apply max_or_zero_spec.
Qed.

(** The maxima of [auc_sample], which holds V'O2 only: 3 L/min, and 0 for the
    other channels. *)
Lemma key_metrics_maxima_witness :
  ∃ m, calculateKeyMetricsForData auc_sample = Some m
       ∧ vo2max m = 3%float
       ∧ greatest_or_zero (valid_values rVO2 auc_sample) (vo2max m)
       ∧ greatest_or_zero (valid_values VO2_kg auc_sample) (vo2max_kg m)
       ∧ greatest_or_zero (valid_values rVE auc_sample) (vemax m)
       ∧ greatest_or_zero (valid_values rHR auc_sample) (hrmax m)
       ∧ greatest_or_zero (valid_values RER auc_sample) (rermax m).
Proof.
  eexists. split; [vm_compute; reflexivity|]. split; [reflexivity|].
  apply (key_metrics_maxima auc_sample). vm_compute. reflexivity.
Defined.

(** X12.  The estimate of the dead-space ratio, [VD/VT(est)], is never below
    zero: it is [null], NaN or at least 0. *)
Theorem dead_space_not_negative (row : ProcessedDataRow) (bodyWeight v : float) :
  VD_VT_est (recalculateDerivedMetrics row bodyWeight) = Num v →
  (v <? 0)%float = false.
Proof.
  unfold recalculateDerivedMetrics. cbn [VD_VT_est].
  destruct (rVCO2 row) as [| |c]; [done..|].
  destruct (rVO2 row) as [| |x]; [done..|].
  destruct (0 <? x)%float; [|done]. cbn [snd]. intros [= <-].
  apply FloatMax.Math_max_zero_not_negative.
Qed.

(** With an exchange ratio of 0.1 the formula gives -0.025; the estimate is
    0. *)
Lemma dead_space_not_negative_witness :
  VD_VT_est (recalculateDerivedMetrics low_rer_row 70) = Num 0
  ∧ (0 <? 0)%float = false.
Proof.
  assert (VD_VT_est (recalculateDerivedMetrics low_rer_row 70) = Num 0) as H
    by (vm_compute; reflexivity).
  split; [exact H|]. exact (dead_space_not_negative low_rer_row 70 0 H).
Defined.

(** ** The shape of the stage summaries *)

Lemma stage_average_partial data stage isLastStage avg :
  stage_average data stage isLastStage = (avg, true) →
  isLastStage = true
  ∧ (endTime stage - startTime stage <? STAGE_DURATION_SECONDS)%float = true
  ∧ (30 <? endTime stage - startTime stage)%float = false.
Proof.
  unfold stage_average, window_rows.
  destruct (0 <? length (stageData_of data stage)); [|done].
  destruct isLastStage; cbn [andb]; [|by intros [= _ ?]].
  destruct (_ <? STAGE_DURATION_SECONDS)%float; [|by intros [= _ ?]].
  destruct (30 <? _)%float; [by intros [= _ ?]|done].
Qed.

Lemma stage_average_empty data stage isLastStage :
  stageData_of data stage = [] → stage_average data stage isLastStage = (0%float, false).
Proof. intros H. unfold stage_average. by rewrite H. Qed.

(** X13.  The stage summaries of the key metrics are numbered from 1 in the
    order of the stages.  The first one has no delta; every other delta is
    the average of its stage minus the average of the stage before, and it
    is there exactly when both averages are strictly positive.  Only the
    last summary can be marked partial, and only when its stage lasted at
    most 30 s; a stage that holds no row has the average 0. *)
Theorem stage_summary_shape (data : list ProcessedDataRow) (m : KeyMetrics)
    (summ : list PlateauStageSummary) (k : nat) (s : PlateauStageSummary) :
  calculateKeyMetricsForData data = Some m →
  plateauStageSummary m = Some summ → summ !! k = Some s →
  stage s = k + 1
  ∧ (k = 0 → deltaVo2 s = None)
  ∧ (∀ prev, summ !! (k - 1) = Some prev → 0 < k →
       deltaVo2 s = delta_of (Some (avgVo2 prev)) (avgVo2 s))
  ∧ (isPartial s = true →
       k + 1 = length summ
       ∧ (duration s <? STAGE_DURATION_SECONDS)%float = true
       ∧ (30 <? duration s)%float = false)
  ∧ ∃ stages stage_k,
      stages_of data = Some stages ∧ stages !! k = Some stage_k
      ∧ duration s = (endTime stage_k - startTime stage_k)%float
      ∧ (stageData_of data stage_k = [] → avgVo2 s = 0%float).
Proof.
  unfold calculateKeyMetricsForData. destruct data as [|r0 data0]; [by intros [= <-]|].
  change (length (r0 :: data0) =? 0) with false. cbv iota.
  set (data := r0 :: data0).
  destruct (stages_of data) as [stages|] eqn:Hstages; [|done]. cbn [mbind option_bind].
  destruct (plateau_of _ _ _) as [[? ?] ?]. intros [= <-]. cbn [plateauStageSummary].
  intros [= <-] Hs. unfold summary_of in *.
  assert (length (summarize data (length stages) 0 0 stages) = length stages) as Hlen
    by apply summarize_length.
  destruct (summarize_lookup _ _ _ _ _ _ _ Hs) as (stage_k & Hk & Hnum & Hdur & Havg).
  cbn [Nat.add] in Hnum, Havg.
  split; [lia|]. split; [|split; [|split]].
  - intros ->. by rewrite (summarize_delta_first _ _ _ _ _ _ Hs).
  - intros prev Hprev Hpos. destruct k as [|k]; [lia|].
    replace (S k - 1) with k in Hprev by lia. by eapply summarize_delta_next.
  - intros Hpartial. rewrite Hpartial in Havg. symmetry in Havg.
    apply stage_average_partial in Havg as (Hlast & Hshort & Hbrief).
    apply Nat.eqb_eq in Hlast. apply lookup_lt_Some in Hk.
    rewrite Hlen, Hdur. split; [lia | done].
  - exists stages, stage_k. split; [done|]. split; [done|]. split; [done|].
    intros Hempty. rewrite stage_average_empty in Havg by done. by injection Havg.
Qed.

(** The third summary of [plateau_sample]: the stage from 360 s to 390 s. *)
Lemma stage_summary_shape_witness :
  ∃ m summ s,
    calculateKeyMetricsForData plateau_sample = Some m
    ∧ plateauStageSummary m = Some summ ∧ summ !! 2 = Some s
    ∧ stage s = 2 + 1
    ∧ (2 = 0 → deltaVo2 s = None)
    ∧ (∀ prev, summ !! (2 - 1) = Some prev → 0 < 2 →
         deltaVo2 s = delta_of (Some (avgVo2 prev)) (avgVo2 s))
    ∧ (isPartial s = true →
         2 + 1 = length summ
         ∧ (duration s <? STAGE_DURATION_SECONDS)%float = true
         ∧ (30 <? duration s)%float = false)
    ∧ ∃ stages stage_k,
        stages_of plateau_sample = Some stages ∧ stages !! 2 = Some stage_k
        ∧ duration s = (endTime stage_k - startTime stage_k)%float
        ∧ (stageData_of plateau_sample stage_k = [] → avgVo2 s = 0%float).
Proof.
  eexists _, _, _. split; [vm_compute; reflexivity|].
  split; [vm_compute; reflexivity|]. split; [vm_compute; reflexivity|].
  eapply (stage_summary_shape plateau_sample); vm_compute; reflexivity.
Defined.

(** ** A series that lasts no time *)

Lemma zero_cases x : is_zero x = true → x = zero ∨ x = neg_zero.
Proof.
  unfold is_zero. rewrite FloatAxioms.eqb_spec. intros [s Hs]%FloatOrder.SFeqb_zero.
  rewrite <- (SF2Prim_Prim2SF x), Hs. destruct s; [by right | by left].
Qed.

(** X14.  When the time of the final row is zero or NaN there is no stage: the
    list of summaries is empty, no plateau is reported and the value is a
    peak, whatever the series holds. *)
Theorem no_duration_no_plateau (data : list ProcessedDataRow) (lastRow : ProcessedDataRow) :
  last data = Some lastRow →
  (is_zero (timeInSeconds lastRow) || is_nan (timeInSeconds lastRow))%bool = true →
  ∃ m, calculateKeyMetricsForData data = Some m
       ∧ plateauStageSummary m = Some []
       ∧ plateauReached m = false ∧ isPeak m = true
       ∧ plateauTime m = None ∧ plateauComparison m = None.
Proof.
  intros Hlast Htime.
  assert (stages_of data = Some []) as Hstages.
  { unfold stages_of. rewrite Hlast.
    apply orb_true_iff in Htime as [Hz|Hn].
    - apply zero_cases in Hz as [-> | ->]; reflexivity.
    - apply FloatMax.is_nan_nan in Hn as ->. reflexivity. }
  unfold calculateKeyMetricsForData. destruct data as [|r0 data0]; [done|].
  change (length (r0 :: data0) =? 0) with false. cbv iota.
  rewrite Hstages. cbn [mbind option_bind]. eexists. split; [reflexivity|].
  by cbn.
Qed.

(** A series of one row, at time 0. *)
Lemma no_duration_no_plateau_witness :
  ∃ m, calculateKeyMetricsForData instant_sample = Some m
       ∧ plateauStageSummary m = Some []
       ∧ plateauReached m = false ∧ isPeak m = true
       ∧ plateauTime m = None ∧ plateauComparison m = None.
Proof.
  apply (no_duration_no_plateau instant_sample (Sample.row "0" 0 (Num 2)));
    vm_compute; reflexivity.
Defined.

(** ** Integers as floats *)

Module FloatInt.

Lemma digits2_pos_iter p k :
  digits2_pos (Pos.iter xO p k) = (digits2_pos p + k)%positive.
Proof.
  induction k as [|k IH] using Pos.peano_ind.
  - cbn. lia.
  - rewrite Pos.iter_succ. cbn [digits2_pos]. rewrite IH. lia.
Qed.

Lemma digits2_pos_lower p : (2 ^ (Z.pos (digits2_pos p) - 1) ≤ Z.pos p)%Z.
Proof.
  induction p as [p IH|p IH|]; cbn [digits2_pos]; [| |done].
  - rewrite Pos2Z.inj_succ.
    replace (Z.succ (Z.pos (digits2_pos p)) - 1)%Z with (Z.succ (Z.pos (digits2_pos p) - 1))%Z by lia.
    rewrite Z.pow_succ_r by lia. lia.
  - rewrite Pos2Z.inj_succ.
    replace (Z.succ (Z.pos (digits2_pos p)) - 1)%Z with (Z.succ (Z.pos (digits2_pos p) - 1))%Z by lia.
    rewrite Z.pow_succ_r by lia. lia.
Qed.

Lemma digits2_pos_small p : (Z.pos p < 2 ^ 53)%Z → (Z.pos (digits2_pos p) ≤ 53)%Z.
Proof.
  intros Hp. pose proof (digits2_pos_lower p) as Hlow.
  destruct (decide (Z.pos (digits2_pos p) ≤ 53)%Z) as [|Hgt]; [done|].
  assert (2 ^ 53 ≤ 2 ^ (Z.pos (digits2_pos p) - 1))%Z by (apply Z.pow_le_mono_r; lia).
  lia.
Qed.

(** An integer of 53 bits rounds to itself. *)
Lemma binary_round_aux_exact s m e :
  Z.pos (digits2_pos m) = 53%Z → (-1074 ≤ e ≤ 971)%Z →
  binary_round_aux prec emax s (Z.pos m) e loc_Exact = S754_finite s m e.
Proof.
  intros Hd He. unfold binary_round_aux, shr_fexp. cbn [Zdigits2 shr_record_of_loc].
  rewrite Hd.
  assert (fexp prec emax (53 + e) - e = 0)%Z as ->.
  { unfold fexp, SpecFloat.emin, prec, emax. lia. }
  cbn [shr shr_m loc_of_shr_record round_nearest_even Zdigits2 shr_record_of_loc].
  rewrite Hd.
  assert (fexp prec emax (53 + e) - e = 0)%Z as ->.
  { unfold fexp, SpecFloat.emin, prec, emax. lia. }
  cbn [shr shr_m].
  replace (e <=? emax - prec)%Z with true; [done|].
  symmetry. apply Z.leb_le. unfold prec, emax. lia.
Qed.

Lemma binary_round_small s p :
  (Z.pos p < 2 ^ 53)%Z →
  ∃ m e, binary_round prec emax s p 0 = S754_finite s m e
         ∧ SpecFloat.valid_binary prec emax (S754_finite s m e) = true.
Proof.
  intros Hp. pose proof (digits2_pos_small p Hp) as Hd.
  unfold binary_round.
  assert (fexp prec emax (Z.pos (digits2_pos p) + 0) = Z.pos (digits2_pos p) - 53)%Z as ->.
  { unfold fexp, SpecFloat.emin, prec, emax. lia. }
  unfold shl_align.
  destruct (Z.pos (digits2_pos p) - 53 - 0)%Z as [|k|k] eqn:Hk; [|lia|].
  - exists p, 0%Z. assert (Z.pos (digits2_pos p) = 53%Z) as H53 by lia.
    rewrite binary_round_aux_exact by (done || lia). split; [done|].
    unfold SpecFloat.valid_binary, bounded, canonical_mantissa. rewrite H53. reflexivity.
  - assert (Z.pos (digits2_pos (Pos.iter xO p k)) = 53%Z) as H53.
    { rewrite digits2_pos_iter. lia. }
    exists (Pos.iter xO p k), (Z.pos (digits2_pos p) - 53)%Z.
    rewrite binary_round_aux_exact by (done || lia). split; [done|].
    unfold SpecFloat.valid_binary, bounded, canonical_mantissa. rewrite H53.
    apply andb_true_iff. split.
    + apply Z.eqb_eq. unfold fexp, SpecFloat.emin, prec, emax. lia.
    + apply Z.leb_le. unfold prec, emax. lia.
Qed.

(** [Number(n)] of a positive integer below 2^53 is a positive finite
    float. *)
Lemma of_nat_finite n :
  0 < n → (Z.of_nat n < 2 ^ 53)%Z →
  ∃ m e, Prim2SF (JS.of_nat n) = S754_finite false m e.
Proof.
  intros Hpos Hn. unfold JS.of_nat.
  destruct (Z.of_nat n) as [|p|p] eqn:Hz; [lia| |lia].
  cbn [binary_normalize].
  destruct (binary_round_small false p Hn) as (m & e & -> & Hvalid).
  exists m, e. by apply Prim2SF_SF2Prim.
Qed.

Lemma of_nat_0 : JS.of_nat 0 = zero.
Proof. reflexivity. Qed.

End FloatInt.

Module FloatMul.
Import FloatInt.

Lemma mul_pow52 m : (m * 4503599627370496)%positive = Pos.iter xO m 52.
Proof. rewrite Pos.mul_comm. reflexivity. Qed.

Lemma shr_52 m :
  SpecFloat.iter_pos shr_1 52 (Build_shr_record (Z.pos (Pos.iter xO m 52)) false false)
  = Build_shr_record (Z.pos m) false false.
Proof. reflexivity. Qed.

(** Multiplying by 1 changes nothing. *)
Lemma SFmul_one x :
  SpecFloat.valid_binary prec emax x = true →
  SFmul prec emax x (S754_finite false 4503599627370496 (-52)) = x.
Proof.
  destruct x as [s|s| |s m e]; cbn [SFmul SpecFloat.valid_binary];
    [by destruct s..|done|].
  unfold bounded, canonical_mantissa. intros [Hcanon He]%andb_true_iff.
  apply Z.eqb_eq in Hcanon. apply Z.leb_le in He.
  rewrite mul_pow52. unfold binary_round_aux, shr_fexp.
  cbn [Zdigits2 shr_record_of_loc]. rewrite digits2_pos_iter.
  replace (Z.pos (digits2_pos m + 52) + (e + -52))%Z
    with (Z.pos (digits2_pos m) + e)%Z by lia.
  rewrite Hcanon. replace (e - (e + -52))%Z with 52%Z by lia.
  cbn [shr]. rewrite shr_52.
  cbn [shr_m loc_of_shr_record round_nearest_even Zdigits2 shr_record_of_loc].
  replace (e + -52 + 52)%Z with e by lia.
  rewrite Hcanon, Z.sub_diag. cbn [shr shr_m].
  apply Z.leb_le in He. rewrite He. by destruct s.
Qed.

Lemma mul_one x : (x * 1)%float = x.
Proof.
  apply Prim2SF_inj. rewrite mul_spec. apply SFmul_one, Prim2SF_valid.
Qed.

End FloatMul.

(** ** The row of 100% *)

Module FloatEq.
Import FloatOrder.

Lemma SFleb_antisym x y : SFleb x y = true → SFleb y x = true → SFeqb x y = true.
Proof.
  unfold SFleb, SFeqb, SFcompare.
  destruct x as [sx|sx| |sx mx ex], y as [sy|sy| |sy my ey]; sf_cases.
Qed.

Lemma leb_antisym x y :
  (x <=? y)%float = true → (y <=? x)%float = true → (x =? y)%float = true.
Proof. rewrite !leb_spec, FloatAxioms.eqb_spec. apply SFleb_antisym. Qed.

Lemma SFeqb_leb x y : SFeqb x y = true → SFleb y x = true.
Proof.
  unfold SFleb, SFeqb, SFcompare.
  destruct x as [sx|sx| |sx mx ex], y as [sy|sy| |sy my ey]; sf_cases.
Qed.

Lemma eqb_leb x y : (x =? y)%float = true → (y <=? x)%float = true.
Proof. rewrite leb_spec, FloatAxioms.eqb_spec. apply SFeqb_leb. Qed.

End FloatEq.

Lemma threshold_of_100 v : threshold_of v 100 = v.
Proof.
  unfold threshold_of. change (JS.of_nat 100 / 100)%float with 1%float.
  apply FloatMul.mul_one.
Qed.

Lemma valid_values_elem (f : ProcessedDataRow → cell) data x :
  x ∈ valid_values f data ↔ ∃ row, row ∈ data ∧ f row = Num x.
Proof.
  unfold valid_values. rewrite list_elem_of_omap. split.
  - intros (row & Hrow & Hx). exists row. split; [done|].
    by destruct (f row); simplify_eq/=.
  - intros (row & Hrow & Hx). exists row. split; [done|]. by rewrite Hx.
Qed.

Lemma omap_snoc_last {A B} (f : A → option B) l x y :
  f x = Some y → last (omap f (l ++ [x])) = Some y.
Proof. intros Hx. rewrite omap_app. cbn. rewrite Hx. apply last_snoc. Qed.

(** X15.  In the pipeline, where the percentile extractor is given the key
    metrics of the series it reads: when V'O2 holds a number and [vo2max] is
    not NaN, the last row the extractor returns is the one labelled 100%,
    and it is the first row of the series whose V'O2 equals [vo2max]. *)
Theorem vo2max_row_is_100_percent (data : list ProcessedDataRow) (m : KeyMetrics) :
  calculateKeyMetricsForData data = Some m →
  valid_values rVO2 data ≠ [] → is_nan (vo2max m) = false →
  ∃ k r,
    first_index (attains (vo2max m)) data k ∧ data !! k = Some r
    ∧ last (extractPercentageDataForMetrics data m)
      = Some (with_percentage r (percent_label 100)).
Proof.
  intros Hm Hvalid Hnan.
  assert (greatest_or_zero (valid_values rVO2 data) (vo2max m)) as [_ Hmax].
  { revert Hm. unfold calculateKeyMetricsForData. destruct data as [|r data]; [done|].
    change (length (r :: data) =? 0) with false. cbv iota.
    destruct (stages_of (r :: data)) as [stages|]; [|done]. cbn [mbind option_bind].
    destruct (plateau_of _ _ _) as [[? ?] ?]. intros [= <-]. apply max_or_zero_spec. }
  destruct (Hmax Hvalid) as [Hin [Hn|Hupper]]; [congruence|].
  set (v := vo2max m) in *.
  (* on the rows of the series, reaching the maximum is attaining it *)
  assert (∀ row, row ∈ data → reaches v row = attains v row) as Hsame.
  { intros row Hrow. unfold reaches, attains.
    destruct (rVO2 row) as [| |x] eqn:Hx; [done..|].
    assert ((x <=? v)%float = true) as Hle
      by (apply Hupper, valid_values_elem; by exists row).
    destruct (v <=? x)%float eqn:Hge.
    - symmetry. by apply FloatEq.leb_antisym.
    - destruct (x =? v)%float eqn:Heq; [|done].
      apply FloatEq.eqb_leb in Heq. congruence. }
  apply valid_values_elem in Hin as (rmax & Hrmax & Hvmax).
  destruct (findIndex (reaches v) data) as [k|] eqn:Hk.
  2:{ rewrite findIndex_None in Hk. specialize (Hk rmax Hrmax).
      unfold reaches in Hk. rewrite Hvmax, FloatMax.leb_refl in Hk; done. }
  pose proof Hk as Hfirst. apply findIndex_Some in Hfirst.
  destruct Hfirst as [(r & Hr & Hreach) Hmin].
  exists k, r. split; [|split; [done|]].
  - split.
    + exists r. split; [done|]. rewrite <- Hsame; [done|]. by eapply list_elem_of_lookup_2.
    + intros j y Hj Hy. rewrite <- Hsame by (by eapply list_elem_of_lookup_2).
      by eapply Hmin.
  - unfold extractPercentageDataForMetrics. rewrite percentage_rows_emitted. fold v.
    change percentages with ([10; 20; 30; 40; 50; 60; 70; 80; 90] ++ [100]).
    rewrite fmap_last.
    rewrite (omap_snoc_last _ _ _ (100, with_percentage r (percent_label 100))); [done|].
    unfold emitted. rewrite threshold_of_100, Hk. cbn [mbind option_bind]. by rewrite Hr.
Qed.

(** On [auc_sample] the row labelled 100% is row 1, the first to hold
    3 L/min. *)
Lemma vo2max_row_is_100_percent_witness :
  ∃ m, calculateKeyMetricsForData auc_sample = Some m
       ∧ ∃ k r,
           first_index (attains (vo2max m)) auc_sample k ∧ auc_sample !! k = Some r
           ∧ last (extractPercentageDataForMetrics auc_sample m)
             = Some (with_percentage r (percent_label 100)).
Proof.
  eexists. split; [vm_compute; reflexivity|].
  apply (vo2max_row_is_100_percent auc_sample).
  - vm_compute. reflexivity.
  - vm_compute. discriminate.
  - vm_compute. reflexivity.
Defined.

(** ** The rows through cleaning and smoothing *)

Lemma json_cell_idempotent c : json_cell (json_cell c) = json_cell c.
Proof.
  destruct c as [| |x]; [done..|]. cbn [json_cell]. unfold JS.json_number.
  destruct (is_finite x) eqn:Hfin; [|done]. cbn [json_cell]. unfold JS.json_number.
  destruct (is_zero x) eqn:Hz; [reflexivity|]. by rewrite Hfin, Hz.
Qed.

Lemma applySmoothing_lookup data w i :
  ∃ f : ProcessedDataRow → ProcessedDataRow,
    applySmoothing data w !! i = f <$> data !! i
    ∧ ∀ r, t (f r) = t r ∧ rTimeInSeconds (f r) = json_cell (rTimeInSeconds r)
           ∧ Marker (f r) = Marker r ∧ Load (f r) = json_cell (Load r).
Proof.
  unfold applySmoothing. destruct (length data <? 3).
  - exists json_row. by rewrite json_copy_lookup.
  - rewrite list_lookup_fmap, smooth_fold_lookup, json_copy_lookup.
    case_decide.
    + exists (λ r, recalculateDerivedMetrics (smoothed_row data i (json_row r)) w).
      by rewrite <- !option_fmap_compose.
    + exists (λ r, recalculateDerivedMetrics (json_row r) w).
      by rewrite <- !option_fmap_compose.
Qed.

(** X16.  The rows stay aligned through the pipeline: cleaning a series and
    smoothing the result gives one row for every row of the input, in the
    same order, with its label and [Marker], and the deep copy of its time
    and of [Load]. *)
Theorem pipeline_keeps_rows (raw : list ProcessedDataRow) (bodyWeight : float)
    (i : nat) (r : ProcessedDataRow) :
  let cleaned := cleanedData (cleanAndInterpolateData raw bodyWeight) in
  let smoothed := applySmoothing cleaned bodyWeight in
  raw !! i = Some r →
  length smoothed = length raw
  ∧ ∃ r', smoothed !! i = Some r'
          ∧ t r' = t r ∧ rTimeInSeconds r' = json_cell (rTimeInSeconds r)
          ∧ Marker r' = Marker r ∧ Load r' = json_cell (Load r).
Proof.
  intros cleaned smoothed Hr.
  assert (Forall2 kept_fields (json_copy raw) (rows (clean_state raw))) as HF.
  { apply clean_state_kept_fields. cbn [rows]. apply Forall_Forall2_diag, Forall_forall.
    intros ? _. apply kept_fields_refl. }
  assert (length cleaned = length raw) as Hlen.
  { unfold cleaned, cleanAndInterpolateData. cbn [cleanedData].
    rewrite length_map, <- (Forall2_length _ _ _ HF). apply json_copy_length. }
  split.
  - rewrite <- Hlen. apply Nat.le_antisymm.
    + destruct (decide (length smoothed ≤ length cleaned)) as [|Hgt]; [done|].
      destruct (applySmoothing_lookup cleaned bodyWeight (length cleaned)) as (f & Hf & _).
      rewrite (lookup_ge_None_2 cleaned) in Hf by lia.
      apply lookup_ge_None in Hf. fold smoothed in Hf. lia.
    + destruct (decide (length cleaned ≤ length smoothed)) as [|Hgt]; [done|].
      destruct (applySmoothing_lookup cleaned bodyWeight (length smoothed)) as (f & Hf & _).
      fold smoothed in Hf. rewrite (lookup_ge_None_2 smoothed) in Hf by lia.
      destruct (lookup_lt_is_Some_2 cleaned (length smoothed) ltac:(lia)) as [x Hx].
      by rewrite Hx in Hf.
  - assert (json_copy raw !! i = Some (json_row r)) as Hj
      by (by rewrite json_copy_lookup, Hr).
    destruct (Forall2_lookup_l _ _ _ _ _ HF Hj) as (r1 & Hr1 & Ht & Htime & Hload & Hmark & _).
    destruct (applySmoothing_lookup cleaned bodyWeight i) as (f & Hf & Hkeeps).
    unfold cleaned at 2 in Hf. unfold cleanAndInterpolateData in Hf. cbn [cleanedData] in Hf.
    rewrite list_lookup_fmap, Hr1 in Hf. cbn in Hf. fold smoothed in Hf.
    eexists. split; [exact Hf|].
    destruct (Hkeeps (recalculateDerivedMetrics r1 bodyWeight)) as (-> & -> & -> & ->).
    cbn. rewrite Ht, Htime, Hmark, Hload. cbn. by rewrite !json_cell_idempotent.
Qed.

(** Row 10 of [outlier_sample] through cleaning and smoothing. *)
Lemma pipeline_keeps_rows_witness :
  let r := Sample.row "10" 100 (Num 1000) in
  let cleaned := cleanedData (cleanAndInterpolateData outlier_sample 70) in
  let smoothed := applySmoothing cleaned 70 in
  length smoothed = length outlier_sample
  ∧ ∃ r', smoothed !! 10 = Some r'
          ∧ t r' = t r ∧ rTimeInSeconds r' = json_cell (rTimeInSeconds r)
          ∧ Marker r' = Marker r ∧ Load r' = json_cell (Load r).
Proof.
  apply (pipeline_keeps_rows outlier_sample 70 10 (Sample.row "10" 100 (Num 1000))).
  vm_compute. reflexivity.
Defined.

(** ** Time labels *)

Lemma split_length sep s :
  length (JSString.split sep s) = S (count_chars sep s).
Proof.
  unfold count_chars. induction s as [|c s IH]; [done|].
  cbn [JSString.split list_ascii_of_string List.filter].
  destruct (sep c); cbn [length]; [by rewrite IH|].
  destruct (JSString.split sep s) as [|part parts]; [done|]. by rewrite <- IH.
Qed.

(** X17.  A time label with fewer than two separators, such as a label in
    minutes and seconds, [mm:ss], is read as 0 seconds. *)
Theorem timeStringToSeconds_two_parts (timeStr : string) :
  count_chars time_separator timeStr < 2 → timeStringToSeconds timeStr = 0%float.
Proof.
  intros Hcount. unfold timeStringToSeconds. rewrite split_length.
  replace (S (count_chars time_separator timeStr) <? 3) with true; [done|].
  symmetry. apply Nat.ltb_lt. lia.
Qed.

(** Twelve and a half minutes, written [12:30]. *)
Lemma timeStringToSeconds_two_parts_witness : timeStringToSeconds "12:30" = 0%float.
Proof. apply timeStringToSeconds_two_parts. vm_compute. lia. Defined.

Lemma digit_char d :
  d < 10 →
  time_separator (ascii_of_nat (48 + d)) = false
  ∧ JSString.is_white_space (ascii_of_nat (48 + d)) = false
  ∧ JSString.digit_of (ascii_of_nat (48 + d)) = Some d
  ∧ ascii_of_nat (48 + d) ≠ "-"%char ∧ ascii_of_nat (48 + d) ≠ "+"%char.
Proof.
  intros Hd. do 10 (destruct d as [|d]; [by repeat split|]). lia.
Qed.

Lemma split_numeral_sep ds c rest :
  Forall (λ d, d < 10) ds → time_separator c = true →
  JSString.split time_separator (numeral ds ++ String c rest)
  = numeral ds :: JSString.split time_separator rest.
Proof.
  intros Hds Hc. induction Hds as [|d ds Hd _ IH].
  - change (numeral [] ++ String c rest)%string with (String c rest).
    cbn [JSString.split]. by rewrite Hc.
  - change (numeral (d :: ds)) with (String (ascii_of_nat (48 + d)) (numeral ds)).
    change (String (ascii_of_nat (48 + d)) (numeral ds) +:+ String c rest)
      with (String (ascii_of_nat (48 + d)) (numeral ds +:+ String c rest)).
    cbn [JSString.split].
    destruct (digit_char d Hd) as (-> & _). by rewrite IH.
Qed.

Lemma split_numeral ds :
  Forall (λ d, d < 10) ds → JSString.split time_separator (numeral ds) = [numeral ds].
Proof.
  intros Hds. induction Hds as [|d ds Hd _ IH]; [done|].
  change (numeral (d :: ds)) with (String (ascii_of_nat (48 + d)) (numeral ds)).
  cbn [JSString.split]. destruct (digit_char d Hd) as (-> & _). by rewrite IH.
Qed.

Lemma leading_digits_numeral ds :
  Forall (λ d, d < 10) ds → JSString.leading_digits (numeral ds) = ds.
Proof.
  intros Hds. induction Hds as [|d ds Hd _ IH]; [done|].
  change (numeral (d :: ds)) with (String (ascii_of_nat (48 + d)) (numeral ds)).
  cbn [JSString.leading_digits]. destruct (digit_char d Hd) as (_ & _ & -> & _).
  by rewrite IH.
Qed.

(** A numeral is read as the integer it stands for. *)
Lemma parseInt10_numeral ds n :
  is_numeral ds → JSString.decimal_value ds = Z.of_nat n →
  JSString.parseInt10 (numeral ds) = JS.of_nat n.
Proof.
  intros [Hne Hds] Hn. destruct ds as [|d ds]; [done|].
  pose proof (leading_digits_numeral (d :: ds) Hds) as Hlead.
  apply Forall_cons in Hds as [Hd Hds].
  destruct (digit_char d Hd) as (_ & Hws & _ & Hminus & Hplus).
  unfold JSString.parseInt10.
  change (numeral (d :: ds)) with (String (ascii_of_nat (48 + d)) (numeral ds)) in *.
  cbn [JSString.trim_start]. rewrite Hws.
  destruct (ascii_of_nat (48 + d)) as [[] [] [] [] [] [] [] []] eqn:Hchar;
    try done; rewrite Hlead; cbn [length Nat.eqb]; by rewrite Hn.
Qed.

(** [n || 0] is [n] for an integer below 2^53. *)
Lemma or_zero_of_nat n :
  (Z.of_nat n < 2 ^ 53)%Z → JSString.or_zero (JS.of_nat n) = JS.of_nat n.
Proof.
  intros Hn. destruct n as [|n]; [reflexivity|].
  destruct (FloatInt.of_nat_finite (S n) ltac:(lia) Hn) as (m & e & Hsf).
  unfold JSString.or_zero, is_nan, is_zero.
  rewrite !FloatAxioms.eqb_spec, Hsf.
  change (Prim2SF PrimFloat.zero) with (S754_zero false).
  replace (SFeqb (S754_finite false m e) (S754_finite false m e)) with true; [done|].
  unfold SFeqb, SFcompare. by rewrite Z.compare_refl, Pos.compare_cont_refl.
Qed.

(** X18.  A time label [h:m:s] whose three parts are numerals, with or
    without leading zeros, is read as [h * 3600 + m * 60 + s] seconds; with a
    fourth part [ms] after one more separator, [ms / 1000] is added. *)
Theorem timeStringToSeconds_numerals (ds_h ds_m ds_s ds_ms : list nat) (h m s ms : nat) :
  is_numeral ds_h → is_numeral ds_m → is_numeral ds_s → is_numeral ds_ms →
  JSString.decimal_value ds_h = Z.of_nat h → JSString.decimal_value ds_m = Z.of_nat m →
  JSString.decimal_value ds_s = Z.of_nat s → JSString.decimal_value ds_ms = Z.of_nat ms →
  (Z.of_nat h < 2 ^ 53)%Z → (Z.of_nat m < 2 ^ 53)%Z →
  (Z.of_nat s < 2 ^ 53)%Z → (Z.of_nat ms < 2 ^ 53)%Z →
  timeStringToSeconds (numeral ds_h ++ ":" ++ numeral ds_m ++ ":" ++ numeral ds_s)
  = (JS.of_nat h * 3600 + JS.of_nat m * 60 + JS.of_nat s + 0)%float
  ∧ timeStringToSeconds
      (numeral ds_h ++ ":" ++ numeral ds_m ++ ":" ++ numeral ds_s ++ "." ++ numeral ds_ms)
    = (JS.of_nat h * 3600 + JS.of_nat m * 60 + JS.of_nat s + JS.of_nat ms / 1000)%float.
Proof.
  intros HH HM HS HMS Hh Hm Hs Hms Bh Bm Bs Bms.
  pose proof (parseInt10_numeral ds_h h HH Hh) as Ph.
  pose proof (parseInt10_numeral ds_m m HM Hm) as Pm.
  pose proof (parseInt10_numeral ds_s s HS Hs) as Ps.
  pose proof (parseInt10_numeral ds_ms ms HMS Hms) as Pms.
  destruct HH as [_ HH], HM as [_ HM], HS as [_ HS], HMS as [_ HMS].
  unfold timeStringToSeconds. split.
  - change (numeral ds_h ++ ":" ++ numeral ds_m ++ ":" ++ numeral ds_s)%string
      with (numeral ds_h ++ String ":" (numeral ds_m ++ String ":" (numeral ds_s)))%string.
    rewrite !split_numeral_sep, split_numeral by done.
    cbn [length Nat.ltb Nat.leb nth]. rewrite Ph, Pm, Ps, !or_zero_of_nat by done.
    reflexivity.
  - change (numeral ds_h ++ ":" ++ numeral ds_m ++ ":" ++ numeral ds_s ++ "." ++ numeral ds_ms)%string
      with (numeral ds_h ++ String ":" (numeral ds_m ++ String ":"
              (numeral ds_s ++ String "." (numeral ds_ms))))%string.
    rewrite !split_numeral_sep, split_numeral by done.
    cbn [length Nat.ltb Nat.leb nth]. rewrite Ph, Pm, Ps, Pms, !or_zero_of_nat by done.
    reflexivity.
Qed.

(** A minute and a half, with and without milliseconds. *)
Lemma timeStringToSeconds_numerals_witness :
  timeStringToSeconds "0:01:30" = 90%float
  ∧ timeStringToSeconds "0:01:30.500" = 90.5%float.
Proof.
  assert (∀ ds, ds ≠ [] → forallb (λ d, d <? 10) ds = true → is_numeral ds) as Hnum.
  { intros ds Hne Hall. split; [done|]. apply Forall_forall. intros d Hd.
    rewrite forallb_forall in Hall. apply Nat.ltb_lt, Hall. by apply list_elem_of_In. }
  exact (timeStringToSeconds_numerals [0] [0; 1] [3; 0] [5; 0; 0] 0 1 30 500
           (Hnum [0] ltac:(discriminate) eq_refl)
           (Hnum [0; 1] ltac:(discriminate) eq_refl)
           (Hnum [3; 0] ltac:(discriminate) eq_refl)
           (Hnum [5; 0; 0] ltac:(discriminate) eq_refl)
           eq_refl eq_refl eq_refl eq_refl eq_refl eq_refl eq_refl eq_refl).
Defined.

(** ** The least value of a channel *)

Module FloatMin.
Import FloatOrder FloatMax FloatEq.

Lemma Math_min_nan a b :
  is_nan (JS.Math_min a b) = false → is_nan a = false ∧ is_nan b = false.
Proof.
  unfold JS.Math_min. destruct (is_nan a) eqn:Ha; [done|].
  destruct (is_nan b) eqn:Hb; done.
Qed.

(** When it is a number, [Math.min(a, b)] is at most both. *)
Lemma Math_min_lower a b :
  is_nan (JS.Math_min a b) = false →
  (JS.Math_min a b <=? a)%float = true ∧ (JS.Math_min a b <=? b)%float = true.
Proof.
  intros H. destruct (Math_min_nan a b H) as [Ha Hb]. clear H.
  unfold JS.Math_min. rewrite Ha, Hb. cbn [orb].
  destruct (a <? b)%float eqn:Hab; [split; [by apply leb_refl | by apply ltb_leb]|].
  destruct (b <? a)%float eqn:Hba; [split; [by apply ltb_leb | by apply leb_refl]|].
  destruct (get_sign a).
  - split; [by apply leb_refl | by apply leb_total].
  - split; [by apply leb_total | by apply leb_refl].
Qed.

Lemma Math_min_fold l a :
  is_nan (fold_left JS.Math_min l a) = false →
  (fold_left JS.Math_min l a <=? a)%float = true
  ∧ ∀ x, x ∈ l → (fold_left JS.Math_min l a <=? x)%float = true.
Proof.
  revert a. induction l as [|b l IH]; intros a; cbn [fold_left].
  - intros Ha. split; [by apply leb_refl|]. intros x Hx. by apply elem_of_nil in Hx.
  - intros Hv. destruct (IH _ Hv) as [Hab Hl].
    assert (is_nan (JS.Math_min a b) = false) as Hnan.
    { destruct (is_nan (JS.Math_min a b)) eqn:Hn; [|done].
      apply is_nan_nan in Hn. rewrite Hn, leb_spec in Hab.
      by destruct (Prim2SF (fold_left JS.Math_min l nan)). }
    destruct (Math_min_lower a b Hnan) as [Ha Hb].
    split; [by eapply leb_trans|].
    intros x [->|Hx]%elem_of_cons; [by eapply leb_trans | by apply Hl].
Qed.

Lemma eqb_nan_r x : (x =? nan)%float = false.
Proof. rewrite FloatAxioms.eqb_spec. by destruct (Prim2SF x). Qed.

Lemma eqb_leb_l x y : (x =? y)%float = true → (x <=? y)%float = true.
Proof.
  rewrite leb_spec, FloatAxioms.eqb_spec. unfold SFleb, SFeqb.
  by destruct (SFcompare _ _) as [[]|].
Qed.

(** A value equal to [Math.min(...l)] is at most every value of [l]. *)
Lemma Math_min_list_lower l x y :
  (x =? Math_min_list l)%float = true → y ∈ l → (x <=? y)%float = true.
Proof.
  intros Heq Hy. unfold Math_min_list in *.
  assert (is_nan (fold_left JS.Math_min l infinity) = false) as Hnan.
  { destruct (is_nan _) eqn:Hn; [|done]. apply is_nan_nan in Hn.
    by rewrite Hn, eqb_nan_r in Heq. }
  destruct (Math_min_fold l infinity Hnan) as [_ Hall].
  eapply leb_trans; [by apply eqb_leb_l | by apply Hall].
Qed.

End FloatMin.

(** ** Threshold estimation *)

Lemma find_elem {A} (P : A → bool) l x :
  List.find P l = Some x → x ∈ l ∧ P x = true.
Proof. intros H. apply find_some in H as [? ?]. split; [by apply list_elem_of_In | done]. Qed.

Lemma filter_elem {A} (P : A → bool) l x :
  x ∈ List.filter P l ↔ x ∈ l ∧ P x = true.
Proof. rewrite !list_elem_of_In. apply filter_In. Qed.

(** What [findNadir] returns is a nadir of the rows from [startIndex] on. *)
Lemma findNadir_nadir d key startIndex point originalIndex :
  findNadir d key startIndex = Some (point, originalIndex) →
  is_nadir key (drop startIndex d) point
  ∧ match originalIndex with Some k => k + 1 | None => 0 end = index_after d point.
Proof.
  unfold findNadir. set (dataSlice := List.filter _ _).
  destruct (length dataSlice =? 0); [done|].
  set (minValue := Math_min_list _).
  destruct (List.find _ dataSlice) as [nadirPoint|] eqn:Hfind; [|done].
  intros [= <- <-]. split; [|done]. apply find_elem in Hfind as [Hin Hmin].
  apply filter_elem in Hin as [Hin Hcand].
  unfold at_minimum in Hmin. unfold nadir_candidate in Hcand.
  destruct (key_cell key nadirPoint) as [| |x] eqn:Hx; [done..|].
  destruct (rVO2 nadirPoint) as [| |v] eqn:Hv; [done..|].
  split; [done|]. exists x, v. split; [done|]. split; [done|].
  intros row' x' v' Hrow' Hx' Hv'.
  apply (FloatMin.Math_min_list_lower _ _ _ Hmin).
  apply list_elem_of_omap. exists row'. split; [|by rewrite Hx'].
  apply filter_elem. split; [done|]. unfold nadir_candidate. by rewrite Hx', Hv'.
Qed.

(** X19.  [estimateInitialThresholds] gives no threshold for fewer than 5
    rows, and no respiratory compensation point without a lactate threshold.
    The lactate threshold is the V'O2 of a row where [V'E/V'O2] is lowest
    among the rows that hold both numbers.  The respiratory compensation
    point is the V'O2 of a row where [V'E/V'CO2] is lowest among such rows
    behind the row of the lactate threshold, and it is not at or below the
    lactate threshold. *)
Theorem estimated_thresholds (data : list ProcessedDataRow)
    (lt rcp : option Threshold) :
  estimateInitialThresholds data = (lt, rcp) →
  match lt with
  | None => rcp = None
  | Some l =>
      5 ≤ length data
      ∧ ∃ ltRow,
          is_nadir KeyVE_VO2 data ltRow ∧ rVO2 ltRow = Num (th_vo2 l)
          ∧ ∀ r, rcp = Some r →
              (th_vo2 r <=? th_vo2 l)%float = false
              ∧ ∃ rcpRow,
                  is_nadir KeyVE_VCO2 (drop (index_after data ltRow) data) rcpRow
                  ∧ rVO2 rcpRow = Num (th_vo2 r)
  end.
Proof.
  unfold estimateInitialThresholds.
  destruct (length data <? 5) eqn:Hlen; [by intros [= <- <-]|].
  apply Nat.ltb_ge in Hlen.
  destruct (findNadir data KeyVE_VO2 0) as [[ltPoint originalIndex]|] eqn:Hlt;
    [|by intros [= <- <-]].
  destruct (findNadir_nadir _ _ _ _ _ Hlt) as [Hnadir Hstart]. rewrite drop_0 in Hnadir.
  assert (rVO2 ltPoint = Num (to_number (rVO2 ltPoint))) as Hvo2.
  { destruct Hnadir as (_ & x & v & _ & -> & _). done. }
  cbv zeta. rewrite Hstart.
  destruct (findNadir data KeyVE_VCO2 (index_after data ltPoint)) as [[rcpPoint ?]|] eqn:Hrcp.
  2:{ intros [= <- <-]. split; [done|]. exists ltPoint.
      split; [done|]. split; [done|]. by intros r [=]. }
  destruct (findNadir_nadir _ _ _ _ _ Hrcp) as [Hnadir2 _].
  cbn [th_vo2].
  destruct (to_number (rVO2 rcpPoint) <=? to_number (rVO2 ltPoint))%float eqn:Hle;
    intros [= <- <-]; (split; [done|]); exists ltPoint; (split; [done|]);
    (split; [done|]); [by intros r [=]|].
  intros r [= <-]. cbn [th_vo2]. split; [done|].
  exists rcpPoint. split; [done|].
  destruct Hnadir2 as (_ & x & v & _ & -> & _). done.
Qed.

(** On [threshold_sample] the thresholds are the V'O2 of the rows 2 and 4. *)
Lemma estimated_thresholds_witness :
  let l := mkThreshold 2 ReasonVT1 in
  let r := mkThreshold 3 ReasonVT2 in
  estimateInitialThresholds threshold_sample = (Some l, Some r)
  ∧ 5 ≤ length threshold_sample
  ∧ ∃ ltRow,
      is_nadir KeyVE_VO2 threshold_sample ltRow ∧ rVO2 ltRow = Num (th_vo2 l)
      ∧ (th_vo2 r <=? th_vo2 l)%float = false
      ∧ ∃ rcpRow,
          is_nadir KeyVE_VCO2 (drop (index_after threshold_sample ltRow) threshold_sample)
            rcpRow
          ∧ rVO2 rcpRow = Num (th_vo2 r).
Proof.
  intros l r.
  assert (estimateInitialThresholds threshold_sample = (Some l, Some r)) as H
    by (vm_compute; reflexivity).
  split; [exact H|].
  destruct (estimated_thresholds threshold_sample (Some l) (Some r) H)
    as (Hlen & ltRow & Hlt & Hvo2 & Hrcp).
  split; [exact Hlen|]. exists ltRow. split; [exact Hlt|]. split; [exact Hvo2|].
  exact (Hrcp r eq_refl).
Defined.
